(** * A privacy proxy that rewrites HTML: model and verified properties

    The program is a serverless function (api/proxy.js).  It decodes a
    base64url token into a target URL, fetches the target with a filtered set
    of headers, readdresses redirects through the proxy and rewrites the
    references of HTML documents to the form [/p/<token>].  A second, older
    handler (pages/api/proxy.js) addresses the proxy as
    [/api/proxy?url=<percent-encoded URL>] and is the one that rewrites
    [<meta http-equiv="refresh">].

    JavaScript strings are sequences of UTF-16 code units; they are modelled
    as lists of numbers.  The platform functions the handlers call
    ([Buffer], [URL], [String.prototype.*], the DOM libraries) are modelled
    next to the handlers' own code. *)

From Stdlib Require Import NArith Lia Ascii String.
From stdpp Require Import base option list gmap.

Local Open Scope N_scope.

(** ** JavaScript strings *)

Module JS.

(** A string is the list of its UTF-16 code units. *)
Abbreviation jsstring := (list N).

(** [js "abc"] is the string whose code units are the characters of an ASCII
    literal. *)
Definition js (s : string) : jsstring :=
  map N_of_ascii (list_ascii_of_string s).

Definition is_high_surrogate (c : N) : bool := (0xD800 <=? c) && (c <=? 0xDBFF).
Definition is_low_surrogate (c : N) : bool := (0xDC00 <=? c) && (c <=? 0xDFFF).
Definition is_surrogate (c : N) : bool := (0xD800 <=? c) && (c <=? 0xDFFF).

(** A code point that is not a surrogate. *)
Definition is_scalar_value (c : N) : bool :=
  (c <? 0x110000) && negb (is_surrogate c).

(** The string holds 16-bit code units and every surrogate is half of a pair:
    the strings that have a UTF-8 encoding. *)
Fixpoint is_usv_string (s : jsstring) : bool :=
  match s with
  | [] => true
  | c :: s' =>
    if is_high_surrogate c then
      match s' with
      | d :: s'' => is_low_surrogate d && is_usv_string s''
      | [] => false
      end
    else (c <? 0x10000) && negb (is_low_surrogate c) && is_usv_string s'
  end.

(** Code points of a string; a lone surrogate reads as U+FFFD. *)
Fixpoint code_points (s : jsstring) : list N :=
  match s with
  | [] => []
  | c :: s' =>
    if is_high_surrogate c then
      match s' with
      | d :: s'' =>
        if is_low_surrogate d
        then (0x10000 + N.shiftl (c - 0xD800) 10 + (d - 0xDC00)) :: code_points s''
        else 0xFFFD :: code_points s'
      | [] => [0xFFFD]
      end
    else if is_low_surrogate c then 0xFFFD :: code_points s'
    else c :: code_points s'
  end.

(** UTF-16 code units of one code point. *)
Definition code_units_of (cp : N) : jsstring :=
  if cp <? 0x10000 then [cp]
  else [0xD800 + N.shiftr (cp - 0x10000) 10; 0xDC00 + N.land (cp - 0x10000) 0x3FF].

Definition from_code_points (cps : list N) : jsstring :=
  flat_map code_units_of cps.

(** [String.prototype.startsWith] *)
Fixpoint startsWith (s p : jsstring) : bool :=
  match p, s with
  | [], _ => true
  | _ :: _, [] => false
  | a :: p', b :: s' => (a =? b) && startsWith s' p'
  end.

(** A string is falsy exactly when it is empty. *)
Definition truthy (s : jsstring) : bool :=
  match s with [] => false | _ => true end.

(** White space and line terminators, as [trim] and the regular expression
    class [\s] understand them. *)
Definition is_js_space (c : N) : bool :=
  (c =? 0x09) || (c =? 0x0A) || (c =? 0x0B) || (c =? 0x0C) || (c =? 0x0D) ||
  (c =? 0x20) || (c =? 0xA0) || (c =? 0x1680) ||
  ((0x2000 <=? c) && (c <=? 0x200A)) ||
  (c =? 0x2028) || (c =? 0x2029) || (c =? 0x202F) || (c =? 0x205F) ||
  (c =? 0x3000) || (c =? 0xFEFF).

Fixpoint trimStart (s : jsstring) : jsstring :=
  match s with
  | c :: s' => if is_js_space c then trimStart s' else s
  | [] => []
  end.

Definition trimEnd (s : jsstring) : jsstring := rev (trimStart (rev s)).

(** [String.prototype.trim] *)
Definition trim (s : jsstring) : jsstring := trimEnd (trimStart s).

(** ASCII lower case of one code unit and of a string. *)
Definition ascii_lower (c : N) : N :=
  if (0x41 <=? c) && (c <=? 0x5A) then c + 0x20 else c.

Definition ascii_lowercase (s : jsstring) : jsstring := map ascii_lower s.

End JS.
Import JS.

(** ** Buffer: UTF-8 and base64url *)

Module Buffer.

(** UTF-8 bytes of one code point. *)
Definition utf8_bytes (cp : N) : list N :=
  if cp <? 0x80 then [cp]
  else if cp <? 0x800 then
    [N.lor 0xC0 (N.shiftr cp 6); N.lor 0x80 (N.land cp 0x3F)]
  else if cp <? 0x10000 then
    [N.lor 0xE0 (N.shiftr cp 12);
     N.lor 0x80 (N.land (N.shiftr cp 6) 0x3F);
     N.lor 0x80 (N.land cp 0x3F)]
  else
    [N.lor 0xF0 (N.shiftr cp 18);
     N.lor 0x80 (N.land (N.shiftr cp 12) 0x3F);
     N.lor 0x80 (N.land (N.shiftr cp 6) 0x3F);
     N.lor 0x80 (N.land cp 0x3F)].

(** [Buffer.from(str, "utf8")]: lone surrogates are written as U+FFFD. *)
Definition utf8_encode (s : jsstring) : list N :=
  flat_map utf8_bytes (code_points s).

(** The state of the UTF-8 decoder: the code point under construction, the
    continuation bytes still expected, and the range allowed for the next
    byte. *)
Record utf8_state := Utf8State {
  u8_cp : N;
  u8_needed : N;
  u8_lower : N;
  u8_upper : N
}.

Definition utf8_init : utf8_state := Utf8State 0 0 0x80 0xBF.

(** A byte read in the initial state. *)
Definition utf8_lead (b : N) : utf8_state * list N :=
  if b <=? 0x7F then (utf8_init, [b])
  else if (0xC2 <=? b) && (b <=? 0xDF) then
    (Utf8State (N.land b 0x1F) 1 0x80 0xBF, [])
  else if (0xE0 <=? b) && (b <=? 0xEF) then
    (Utf8State (N.land b 0xF) 2
       (if b =? 0xE0 then 0xA0 else 0x80)
       (if b =? 0xED then 0x9F else 0xBF), [])
  else if (0xF0 <=? b) && (b <=? 0xF4) then
    (Utf8State (N.land b 0x7) 3
       (if b =? 0xF0 then 0x90 else 0x80)
       (if b =? 0xF4 then 0x8F else 0xBF), [])
  else (utf8_init, [0xFFFD]).

(** One byte: a byte outside the expected range ends the sequence with
    U+FFFD and is read again as a lead byte. *)
Definition utf8_step (st : utf8_state) (b : N) : utf8_state * list N :=
  if u8_needed st =? 0 then utf8_lead b
  else if (u8_lower st <=? b) && (b <=? u8_upper st) then
    let cp := N.lor (N.shiftl (u8_cp st) 6) (N.land b 0x3F) in
    if u8_needed st =? 1 then (utf8_init, [cp])
    else (Utf8State cp (u8_needed st - 1) 0x80 0xBF, [])
  else
    let '(st', out) := utf8_lead b in (st', 0xFFFD :: out).

Fixpoint utf8_decode_from (st : utf8_state) (bs : list N) : list N :=
  match bs with
  | [] => if u8_needed st =? 0 then [] else [0xFFFD]
  | b :: bs' =>
    let '(st', out) := utf8_step st b in out ++ utf8_decode_from st' bs'
  end.

(** [buf.toString("utf8")]: malformed sequences decode to U+FFFD, a leading
    byte order mark is kept. *)
Definition utf8_decode (bs : list N) : jsstring :=
  from_code_points (utf8_decode_from utf8_init bs).

(** The 64 characters of the URL-safe alphabet. *)
Definition base64url_char (v : N) : N :=
  if v <? 26 then 0x41 + v
  else if v <? 52 then 0x61 + (v - 26)
  else if v <? 62 then 0x30 + (v - 52)
  else if v =? 62 then 0x2D
  else 0x5F.

(** Six-bit groups of a byte sequence; the last group is padded with zero
    bits. *)
Fixpoint sextets (bs : list N) : list N :=
  match bs with
  | b0 :: b1 :: b2 :: rest =>
    N.shiftr b0 2
    :: N.lor (N.shiftl (N.land b0 0x3) 4) (N.shiftr b1 4)
    :: N.lor (N.shiftl (N.land b1 0xF) 2) (N.shiftr b2 6)
    :: N.land b2 0x3F
    :: sextets rest
  | [b0; b1] =>
    [N.shiftr b0 2;
     N.lor (N.shiftl (N.land b0 0x3) 4) (N.shiftr b1 4);
     N.shiftl (N.land b1 0xF) 2]
  | [b0] => [N.shiftr b0 2; N.shiftl (N.land b0 0x3) 4]
  | [] => []
  end.

(** [buf.toString("base64url")]: no padding is written. *)
Definition base64url_encode (bs : list N) : jsstring :=
  map base64url_char (sextets bs).

(** The decoder reads a string through the low byte of every code unit. *)
Definition low_byte (c : N) : N := N.land c 0xFF.

(** The value of a byte that is a character of either base64 alphabet. *)
Definition unbase64_byte (b : N) : option N :=
  if (0x41 <=? b) && (b <=? 0x5A) then Some (b - 0x41)
  else if (0x61 <=? b) && (b <=? 0x7A) then Some (b - 0x61 + 26)
  else if (0x30 <=? b) && (b <=? 0x39) then Some (b - 0x30 + 52)
  else if (b =? 0x2B) || (b =? 0x2D) then Some 62
  else if (b =? 0x2F) || (b =? 0x5F) then Some 63
  else None.

(** The value of a code unit: that of its low byte, so that U+0161 counts
    as the letter a. *)
Definition unbase64 (c : N) : option N := unbase64_byte (low_byte c).

(** The decoder reads up to the first code unit whose low byte is [=] and
    skips every other code unit whose low byte is outside the alphabets. *)
Fixpoint base64_values (s : jsstring) : list N :=
  match s with
  | [] => []
  | c :: s' =>
    match unbase64 c with
    | Some v => v :: base64_values s'
    | None => if low_byte c =? 0x3D then [] else base64_values s'
    end
  end.

(** Bytes of a sequence of six-bit values; a single left-over value carries
    no byte. *)
Fixpoint unsextets (vs : list N) : list N :=
  match vs with
  | v0 :: v1 :: v2 :: v3 :: rest =>
    N.lor (N.shiftl v0 2) (N.shiftr v1 4)
    :: N.lor (N.shiftl (N.land v1 0xF) 4) (N.shiftr v2 2)
    :: N.lor (N.shiftl (N.land v2 0x3) 6) v3
    :: unsextets rest
  | [v0; v1; v2] =>
    [N.lor (N.shiftl v0 2) (N.shiftr v1 4);
     N.lor (N.shiftl (N.land v1 0xF) 4) (N.shiftr v2 2)]
  | [v0; v1] => [N.lor (N.shiftl v0 2) (N.shiftr v1 4)]
  | _ => []
  end.

(** [Buffer.from(str, "base64url")]: never fails. *)
Definition base64url_decode (s : jsstring) : list N :=
  unsextets (base64_values s).

End Buffer.
Import Buffer.

(** ** The URL codec of api/proxy.js *)

Definition b64Encode (str : jsstring) : jsstring :=
  base64url_encode (utf8_encode str).

Definition b64Decode (b64 : jsstring) : jsstring :=
  utf8_decode (base64url_decode b64).

(** ** Vocabulary of the proofs *)

(** [P] holds of every number below [n]. *)
Definition all_below (n : N) (P : N -> bool) : bool :=
  (N.iter n (fun '(ok, i) => (ok && P i, N.succ i)) (true, 0)).1.

(** The decoder run over a block of bytes: final state and output. *)
Fixpoint utf8_run (st : utf8_state) (bs : list N) : utf8_state * list N :=
  match bs with
  | [] => (st, [])
  | b :: bs' =>
    let '(st', out) := utf8_step st b in
    let '(st'', out') := utf8_run st' bs' in (st'', out ++ out')
  end.

(** ** URL: the parser and serializer behind [new URL(input, base)]

    The parser works on code points and follows the states of the URL
    Standard; each state is a function of the remaining input. *)

Module URL.

(** The Unicode processing of internationalised domain names (IDNA
    [ToASCII] with its mapping tables) is a parameter: it is consulted for
    domains that are not plain ASCII or that carry an [xn--] label. *)
Class UnicodeToASCII := unicode_to_ascii : list N -> option (list N).

Inductive url_host :=
| Domain (d : list N)
| Ipv4 (address : N)
| Ipv6 (pieces : list N)
| OpaqueHost (h : list N).

(** The empty host. *)
Definition empty_host : url_host := OpaqueHost [].

Inductive url_path :=
| OpaquePath (p : list N)
| ListPath (segments : list (list N)).

Record url := Url {
  scheme : list N;
  username : list N;
  password : list N;
  host : option url_host;
  port : option N;
  path : url_path;
  query : option (list N);
  fragment : option (list N)
}.

Definition is_ascii_alpha (c : N) : bool :=
  ((0x41 <=? c) && (c <=? 0x5A)) || ((0x61 <=? c) && (c <=? 0x7A)).
Definition is_ascii_digit (c : N) : bool := (0x30 <=? c) && (c <=? 0x39).
Definition is_ascii_alphanumeric (c : N) : bool :=
  is_ascii_alpha c || is_ascii_digit c.
Definition is_ascii_hex_digit (c : N) : bool :=
  is_ascii_digit c || ((0x41 <=? c) && (c <=? 0x46)) ||
  ((0x61 <=? c) && (c <=? 0x66)).

Definition hex_value (c : N) : N :=
  if is_ascii_digit c then c - 0x30
  else if (0x41 <=? c) && (c <=? 0x46) then c - 0x41 + 10
  else c - 0x61 + 10.

Definition hex_upper (v : N) : N := if v <? 10 then 0x30 + v else 0x41 + (v - 10).
Definition hex_lower (v : N) : N := if v <? 10 then 0x30 + v else 0x61 + (v - 10).

Definition list_eqb (a b : list N) : bool := bool_decide (a = b).

Definition is_special (s : list N) : bool :=
  list_eqb s (js "ftp") || list_eqb s (js "file") || list_eqb s (js "http") ||
  list_eqb s (js "https") || list_eqb s (js "ws") || list_eqb s (js "wss").

Definition default_port (s : list N) : option N :=
  if list_eqb s (js "ftp") then Some 21
  else if list_eqb s (js "http") then Some 80
  else if list_eqb s (js "https") then Some 443
  else if list_eqb s (js "ws") then Some 80
  else if list_eqb s (js "wss") then Some 443
  else None.

(** *** Percent-encoding *)

Definition c0_control_set (c : N) : bool := (c <=? 0x1F) || (0x7E <? c).
Definition fragment_set (c : N) : bool :=
  c0_control_set c || (c =? 0x20) || (c =? 0x22) || (c =? 0x3C) ||
  (c =? 0x3E) || (c =? 0x60).
Definition query_set (c : N) : bool :=
  c0_control_set c || (c =? 0x20) || (c =? 0x22) || (c =? 0x23) ||
  (c =? 0x3C) || (c =? 0x3E).
Definition special_query_set (c : N) : bool := query_set c || (c =? 0x27).
(** The path percent-encode set as the URL Standard has it now, with
    U+005E (^); a runtime that implements an earlier text of the Standard
    leaves U+005E as it is. *)
Definition path_set (c : N) : bool :=
  query_set c || (c =? 0x3F) || (c =? 0x5E) || (c =? 0x60) || (c =? 0x7B) ||
  (c =? 0x7D).
Definition userinfo_set (c : N) : bool :=
  path_set c || (c =? 0x2F) || (c =? 0x3A) || (c =? 0x3B) || (c =? 0x3D) ||
  (c =? 0x40) || ((0x5B <=? c) && (c <=? 0x5D)) || (c =? 0x7C).

Definition percent_encode_byte (b : N) : list N :=
  [0x25; hex_upper (N.shiftr b 4); hex_upper (N.land b 0xF)].

Definition utf8_percent_encode (set : N -> bool) (cp : N) : list N :=
  if set cp then flat_map percent_encode_byte (utf8_bytes cp) else [cp].

Definition percent_encode_string (set : N -> bool) (s : list N) : list N :=
  flat_map (utf8_percent_encode set) s.

Fixpoint percent_decode (bs : list N) : list N :=
  match bs with
  | [] => []
  | b :: bs' =>
    match bs' with
    | h :: l :: rest =>
      if (b =? 0x25) && is_ascii_hex_digit h && is_ascii_hex_digit l
      then (hex_value h * 16 + hex_value l) :: percent_decode rest
      else b :: percent_decode bs'
    | _ => b :: percent_decode bs'
    end
  end.

(** *** Hosts *)

(** Strict splitting on one code point: [n] separators give [n + 1] parts. *)
Fixpoint split_on (sep : N) (s : list N) : list (list N) :=
  match s with
  | [] => [[]]
  | c :: s' =>
    if c =? sep then [] :: split_on sep s'
    else
      match split_on sep s' with
      | p :: ps => (c :: p) :: ps
      | [] => [[c]]
      end
  end.

Definition is_radix_digit (r : N) (c : N) : bool :=
  if r =? 16 then is_ascii_hex_digit c
  else is_ascii_digit c && (c - 0x30 <? r).

Definition parse_radix (r : N) (s : list N) : option N :=
  if forallb (is_radix_digit r) s
  then Some (fold_left (fun acc c => acc * r + hex_value c) s 0)
  else None.

(** The IPv4 number parser: decimal, octal after [0], hexadecimal after
    [0x]. *)
Definition ipv4_number (s : list N) : option N :=
  match s with
  | [] => None
  | 0x30 :: x :: s' =>
    if (x =? 0x78) || (x =? 0x58)
    then (if truthy s' then parse_radix 16 s' else Some 0)
    else parse_radix 8 (x :: s')
  | _ => parse_radix 10 s
  end.

(** The parts of a host between dots, a trailing empty part dropped. *)
Definition ipv4_parts (s : list N) : list (list N) :=
  let parts := split_on 0x2E s in
  match last parts with
  | Some [] => if (1 <? length parts)%nat then removelast parts else parts
  | _ => parts
  end.

Definition ends_in_number (s : list N) : bool :=
  let parts := split_on 0x2E s in
  match last parts, parts with
  | Some [], [_] => false
  | _, _ =>
    match last (ipv4_parts s) with
    | Some l =>
      (truthy l && forallb is_ascii_digit l) || bool_decide (is_Some (ipv4_number l))
    | None => false
    end
  end.

Definition ipv4_parse (s : list N) : option N :=
  let parts := ipv4_parts s in
  if (4 <? length parts)%nat then None
  else
    numbers ← mapM ipv4_number parts;
    match last numbers with
    | None => None
    | Some l =>
      let front := removelast numbers in
      if existsb (fun n => 255 <? n) front then None
      else if 256 ^ (5 - N.of_nat (length numbers)) <=? l then None
      else
        Some (l + (fold_left (fun '(acc, k) n => (acc + n * 256 ^ k, k - 1))
                     front (0, 3)).1)
    end.

(** Up to [n] hexadecimal digits: their value, their count and the rest. *)
Fixpoint take_hex (n : nat) (value : N) (count : nat) (s : list N)
    : N * nat * list N :=
  match n, s with
  | S n', c :: s' =>
    if is_ascii_hex_digit c
    then take_hex n' (value * 0x10 + hex_value c) (S count) s'
    else (value, count, s)
  | _, _ => (value, count, s)
  end.

(** One decimal number of an IPv4 address inside an IPv6 address: no
    leading zero, at most 255. *)
Definition ipv6_ipv4_number (s : list N) : option N :=
  if truthy s && forallb is_ascii_digit s &&
     ((length s =? 1)%nat || negb (bool_decide (head s = Some 0x30)))
  then
    match parse_radix 10 s with
    | Some n => if 255 <? n then None else Some n
    | None => None
    end
  else None.

(** The four numbers that end an IPv6 address, as two pieces. *)
Definition ipv6_ipv4_tail (s : list N) : option (list N) :=
  match mapM ipv6_ipv4_number (split_on 0x2E s) with
  | Some [a; b; c; d] => Some [a * 0x100 + b; c * 0x100 + d]
  | _ => None
  end.

(** The pieces read so far and the index of the compressed run. *)
Fixpoint ipv6_loop (fuel : nat) (acc : list N) (compress : option nat)
    (s : list N) : option (list N * option nat) :=
  match fuel with
  | O => None
  | S fuel' =>
    match s with
    | [] => Some (acc, compress)
    | c :: s' =>
      if (length acc =? 8)%nat then None
      else if c =? 0x3A then
        match compress with
        | Some _ => None
        | None => ipv6_loop fuel' (acc ++ [0]) (Some (S (length acc))) s'
        end
      else
        let '(value, count, rest) := take_hex 4 0 0 s in
        match rest with
        | 0x2E :: _ =>
          if (count =? 0)%nat then None
          else if (6 <? length acc)%nat then None
          else
            match ipv6_ipv4_tail s with
            | Some pieces => Some (acc ++ pieces, compress)
            | None => None
            end
        | 0x3A :: rest' =>
          match rest' with
          | [] => None
          | _ => ipv6_loop fuel' (acc ++ [value]) compress rest'
          end
        | _ :: _ => None
        | [] => ipv6_loop fuel' (acc ++ [value]) compress []
        end
    end
  end.

Definition ipv6_parse (s : list N) : option (list N) :=
  let start :=
    match s with
    | 0x3A :: 0x3A :: s' => Some ([0], Some 1%nat, s')
    | 0x3A :: _ => None
    | _ => Some ([], None, s)
    end in
  '(acc0, compress0, s0) ← start;
  '(acc, compress) ← ipv6_loop (S (length s0)) acc0 compress0 s0;
  match compress with
  | Some k =>
    Some (take k acc ++ replicate (8 - length acc) 0 ++ drop k acc)
  | None => if (length acc =? 8)%nat then Some acc else None
  end.

Definition forbidden_host_code_point (c : N) : bool :=
  (c =? 0x00) || (c =? 0x09) || (c =? 0x0A) || (c =? 0x0D) || (c =? 0x20) ||
  (c =? 0x23) || (c =? 0x2F) || (c =? 0x3A) || (c =? 0x3C) || (c =? 0x3E) ||
  (c =? 0x3F) || (c =? 0x40) || (c =? 0x5B) || (c =? 0x5C) || (c =? 0x5D) ||
  (c =? 0x5E) || (c =? 0x7C).

Definition forbidden_domain_code_point (c : N) : bool :=
  forbidden_host_code_point c || (c <=? 0x1F) || (c =? 0x25) || (c =? 0x7F).

Definition opaque_host_parse (s : list N) : option url_host :=
  if existsb forbidden_host_code_point s then None
  else Some (OpaqueHost (percent_encode_string c0_control_set s)).

(** A domain of ASCII characters without [xn--] labels is lower-cased; any
    other domain goes through the Unicode processing. *)
Definition domain_to_ascii `{UnicodeToASCII} (domain : list N) : option (list N) :=
  if forallb (fun c => c <? 0x80) domain &&
     negb (existsb (fun l => startsWith (ascii_lowercase l) (js "xn--"))
             (split_on 0x2E domain))
  then Some (ascii_lowercase domain)
  else unicode_to_ascii domain.

Definition parse_host `{UnicodeToASCII} (input : list N) (is_opaque : bool)
    : option url_host :=
  match input with
  | 0x5B :: rest =>
    if bool_decide (last rest = Some 0x5D)
    then Ipv6 <$> ipv6_parse (removelast rest)
    else None
  | _ =>
    if is_opaque then opaque_host_parse input
    else
      let domain :=
        utf8_decode_from utf8_init (percent_decode (flat_map utf8_bytes input)) in
      ascii_domain ← domain_to_ascii domain;
      if negb (truthy ascii_domain) then None
      else if existsb forbidden_domain_code_point ascii_domain then None
      else if ends_in_number ascii_domain then Ipv4 <$> ipv4_parse ascii_domain
      else Some (Domain ascii_domain)
  end.

(** *** Serializing *)

Fixpoint uint_digits (d : Decimal.uint) : list N :=
  match d with
  | Decimal.Nil => []
  | Decimal.D0 d' => 0x30 :: uint_digits d'
  | Decimal.D1 d' => 0x31 :: uint_digits d'
  | Decimal.D2 d' => 0x32 :: uint_digits d'
  | Decimal.D3 d' => 0x33 :: uint_digits d'
  | Decimal.D4 d' => 0x34 :: uint_digits d'
  | Decimal.D5 d' => 0x35 :: uint_digits d'
  | Decimal.D6 d' => 0x36 :: uint_digits d'
  | Decimal.D7 d' => 0x37 :: uint_digits d'
  | Decimal.D8 d' => 0x38 :: uint_digits d'
  | Decimal.D9 d' => 0x39 :: uint_digits d'
  end.

(** The shortest decimal form of a number. *)
Definition decimal (n : N) : list N := uint_digits (N.to_uint n).

Fixpoint drop_zeros (l : list N) : list N :=
  match l with
  | 0 :: l' => drop_zeros l'
  | _ => l
  end.

(** The shortest lower-case hexadecimal form of a 16-bit piece. *)
Definition hex_piece (v : N) : list N :=
  match drop_zeros [N.shiftr v 12; N.land (N.shiftr v 8) 0xF;
                    N.land (N.shiftr v 4) 0xF; N.land v 0xF] with
  | [] => [0x30]
  | ds => map hex_lower ds
  end.

Definition serialize_ipv4 (a : N) : list N :=
  decimal (N.shiftr a 24) ++ [0x2E] ++
  decimal (N.land (N.shiftr a 16) 0xFF) ++ [0x2E] ++
  decimal (N.land (N.shiftr a 8) 0xFF) ++ [0x2E] ++
  decimal (N.land a 0xFF).

(** Length of the run of zero pieces at the head of a list. *)
Fixpoint zero_run (l : list N) : nat :=
  match l with
  | 0 :: l' => S (zero_run l')
  | _ => O
  end.

(** Start and length of the first longest run of zero pieces, scanning from
    index [i]. *)
Fixpoint longest_zero_run (i : nat) (l : list N) (best : nat * nat) : nat * nat :=
  match l with
  | [] => best
  | _ :: l' =>
    let n := zero_run l in
    longest_zero_run (S i) l' (if (best.2 <? n)%nat then (i, n) else best)
  end.

(** The index of the run of zero pieces written as [::], if any. *)
Definition ipv6_compress (pieces : list N) : option nat :=
  let best := longest_zero_run 0 pieces (0%nat, 0%nat) in
  if (1 <? best.2)%nat then Some best.1 else None.

Fixpoint serialize_ipv6_from (compress : option nat) (i : nat) (ignore0 : bool)
    (pieces : list N) : list N :=
  match pieces with
  | [] => []
  | p :: pieces' =>
    if ignore0 && (p =? 0) then serialize_ipv6_from compress (S i) true pieces'
    else if bool_decide (compress = Some i) then
      (if (i =? 0)%nat then [0x3A; 0x3A] else [0x3A]) ++
      serialize_ipv6_from compress (S i) true pieces'
    else
      hex_piece p ++ (if (i =? 7)%nat then [] else [0x3A]) ++
      serialize_ipv6_from compress (S i) false pieces'
  end.

Definition serialize_ipv6 (pieces : list N) : list N :=
  serialize_ipv6_from (ipv6_compress pieces) 0 false pieces.

Definition serialize_host (h : url_host) : list N :=
  match h with
  | Domain d => d
  | Ipv4 a => serialize_ipv4 a
  | Ipv6 pieces => [0x5B] ++ serialize_ipv6 pieces ++ [0x5D]
  | OpaqueHost o => o
  end.

Definition serialize_path (p : url_path) : list N :=
  match p with
  | OpaquePath o => o
  | ListPath segments => flat_map (fun seg => 0x2F :: seg) segments
  end.

(** The URL serializer, fragment included: the value of [href] and of
    [toString()]. *)
Definition serialize (u : url) : list N :=
  scheme u ++ [0x3A] ++
  match host u with
  | Some h =>
    [0x2F; 0x2F] ++
    (if truthy (username u) || truthy (password u) then
       username u ++
       (if truthy (password u) then 0x3A :: password u else []) ++ [0x40]
     else []) ++
    serialize_host h ++
    match port u with
    | Some p => 0x3A :: decimal p
    | None => []
    end
  | None =>
    match path u with
    | ListPath ([] :: _ :: _) => [0x2F; 0x2E]
    | _ => []
    end
  end ++
  serialize_path (path u) ++
  match query u with Some q => 0x3F :: q | None => [] end ++
  match fragment u with Some f => 0x23 :: f | None => [] end.

(** *** The parser *)

Definition set_username (u : url) (v : list N) : url :=
  Url (scheme u) v (password u) (host u) (port u) (path u) (query u) (fragment u).
Definition set_password (u : url) (v : list N) : url :=
  Url (scheme u) (username u) v (host u) (port u) (path u) (query u) (fragment u).
Definition set_host (u : url) (v : option url_host) : url :=
  Url (scheme u) (username u) (password u) v (port u) (path u) (query u) (fragment u).
Definition set_port (u : url) (v : option N) : url :=
  Url (scheme u) (username u) (password u) (host u) v (path u) (query u) (fragment u).
Definition set_path (u : url) (v : url_path) : url :=
  Url (scheme u) (username u) (password u) (host u) (port u) v (query u) (fragment u).
Definition set_query (u : url) (v : option (list N)) : url :=
  Url (scheme u) (username u) (password u) (host u) (port u) (path u) v (fragment u).
Definition set_fragment (u : url) (v : option (list N)) : url :=
  Url (scheme u) (username u) (password u) (host u) (port u) (path u) (query u) v.

(** A URL that has only a scheme. *)
Definition scheme_only (s : list N) : url :=
  Url s [] [] None None (ListPath []) None None.

(** The longest prefix whose code points all fail [stop], and the rest. *)
Fixpoint span_until (stop : N -> bool) (s : list N) : list N * list N :=
  match s with
  | [] => ([], [])
  | c :: s' =>
    if stop c then ([], s)
    else let '(p, r) := span_until stop s' in (c :: p, r)
  end.

Definition is_slash (c : N) : bool := (c =? 0x2F) || (c =? 0x5C).

(** The code points that end an authority, a host or a port. *)
Definition is_terminator (special : bool) (c : N) : bool :=
  (c =? 0x2F) || (c =? 0x3F) || (c =? 0x23) || (special && (c =? 0x5C)).

Definition is_windows_drive_letter (s : list N) : bool :=
  match s with
  | [a; b] => is_ascii_alpha a && ((b =? 0x3A) || (b =? 0x7C))
  | _ => false
  end.

Definition is_normalized_windows_drive_letter (s : list N) : bool :=
  match s with
  | [a; b] => is_ascii_alpha a && (b =? 0x3A)
  | _ => false
  end.

Definition starts_with_windows_drive_letter (s : list N) : bool :=
  match s with
  | a :: b :: rest =>
    is_windows_drive_letter [a; b] &&
    match rest with
    | [] => true
    | c :: _ => is_slash c || (c =? 0x3F) || (c =? 0x23)
    end
  | _ => false
  end.

Definition is_single_dot_segment (s : list N) : bool :=
  let l := ascii_lowercase s in
  list_eqb l (js ".") || list_eqb l (js "%2e").

Definition is_double_dot_segment (s : list N) : bool :=
  let l := ascii_lowercase s in
  list_eqb l (js "..") || list_eqb l (js ".%2e") ||
  list_eqb l (js "%2e.") || list_eqb l (js "%2e%2e").

(** Shortening a path drops its last segment, except for the drive letter of
    a file URL. *)
Definition shorten_path (is_file : bool) (segs : list (list N)) : list (list N) :=
  match segs with
  | [d] => if is_file && is_normalized_windows_drive_letter d then segs else []
  | _ => removelast segs
  end.

(** The end of a path segment held in [buf]; [at_slash] tells whether a
    slash ended it. *)
Definition end_segment (is_file : bool) (segs : list (list N)) (buf : list N)
    (at_slash : bool) : list (list N) :=
  if is_double_dot_segment buf then
    let segs' := shorten_path is_file segs in
    if at_slash then segs' else segs' ++ [[]]
  else if is_single_dot_segment buf then
    if at_slash then segs else segs ++ [[]]
  else
    match buf, segs with
    | [a; b], [] =>
      if is_file && is_windows_drive_letter buf then [[a; 0x3A]] else [buf]
    | _, _ => segs ++ [buf]
    end.

(** Path state: the segments, and the input left at [?], [#] or the end. *)
Fixpoint path_state (special is_file : bool) (segs : list (list N))
    (buf : list N) (s : list N) : list (list N) * list N :=
  match s with
  | [] => (end_segment is_file segs buf false, [])
  | c :: s' =>
    if (c =? 0x2F) || (special && (c =? 0x5C)) then
      path_state special is_file (end_segment is_file segs buf true) [] s'
    else if (c =? 0x3F) || (c =? 0x23) then
      (end_segment is_file segs buf false, s)
    else
      path_state special is_file segs (buf ++ utf8_percent_encode path_set c) s'
  end.

(** Fragment state. *)
Definition fragment_state (u : url) (s : list N) : url :=
  set_fragment u (Some (percent_encode_string fragment_set s)).

(** Query state. *)
Definition query_state (u : url) (s : list N) : url :=
  let '(q, rest) := span_until (N.eqb 0x23) s in
  let set := if is_special (scheme u) then special_query_set else query_set in
  let u' := set_query u (Some (percent_encode_string set q)) in
  match rest with
  | _ :: f => fragment_state u' f
  | [] => u'
  end.

(** What follows a path: a query, a fragment or nothing. *)
Definition after_path (u : url) (s : list N) : url :=
  match s with
  | c :: r =>
    if c =? 0x3F then query_state u r
    else if c =? 0x23 then fragment_state u r
    else u
  | [] => u
  end.

(** Path state entered with the segments [segs] and the buffer [buf]. *)
Definition run_path (u : url) (segs : list (list N)) (buf : list N)
    (s : list N) : url :=
  let is_file := list_eqb (scheme u) (js "file") in
  let '(segs', rest) := path_state (is_special (scheme u)) is_file segs buf s in
  after_path (set_path u (ListPath segs')) rest.

(** Opaque path state. *)
Fixpoint opaque_path (s : list N) : list N * list N :=
  match s with
  | [] => ([], [])
  | c :: s' =>
    if (c =? 0x3F) || (c =? 0x23) then ([], s)
    else
      let '(p, rest) := opaque_path s' in
      if c =? 0x20 then
        match s' with
        | d :: _ =>
          if (d =? 0x3F) || (d =? 0x23) then (js "%20" ++ p, rest)
          else (0x20 :: p, rest)
        | [] => (0x20 :: p, rest)
        end
      else (utf8_percent_encode c0_control_set c ++ p, rest)
  end.

Definition opaque_path_state (u : url) (s : list N) : url :=
  let '(p, rest) := opaque_path s in
  after_path (set_path u (OpaquePath p)) rest.

(** Path start state. *)
Definition path_start_state (u : url) (s : list N) : url :=
  if is_special (scheme u) then
    match s with
    | c :: r => if is_slash c then run_path u [] [] r else run_path u [] [] s
    | [] => run_path u [] [] []
    end
  else
    match s with
    | [] => u
    | c :: r =>
      if c =? 0x3F then query_state u r
      else if c =? 0x23 then fragment_state u r
      else if c =? 0x2F then run_path u [] [] r
      else run_path u [] [] s
    end.

(** Port state. *)
Definition port_state (u : url) (s : list N) : option url :=
  let special := is_special (scheme u) in
  let '(digits, rest) := span_until (fun c => negb (is_ascii_digit c)) s in
  if match rest with
     | c :: _ => is_terminator special c
     | [] => true
     end
  then
    match digits with
    | [] => Some (path_start_state u rest)
    | _ =>
      let p := fold_left (fun acc c => acc * 10 + (c - 0x30)) digits 0 in
      if 65535 <? p then None
      else
        let p' := if bool_decide (default_port (scheme u) = Some p)
                  then None else Some p in
        Some (path_start_state (set_port u p') rest)
    end
  else None.

(** The host ends at a colon outside brackets or at a terminator. *)
Fixpoint host_end (special inside_brackets : bool) (s : list N)
    : list N * list N :=
  match s with
  | [] => ([], [])
  | c :: s' =>
    if ((c =? 0x3A) && negb inside_brackets) || is_terminator special c
    then ([], s)
    else
      let inside :=
        if c =? 0x5B then true
        else if c =? 0x5D then false
        else inside_brackets in
      let '(b, r) := host_end special inside s' in (c :: b, r)
  end.

Section Parser.
Context `{UnicodeToASCII}.

(** Host state. *)
Definition host_state (u : url) (s : list N) : option url :=
  let special := is_special (scheme u) in
  let '(buf, rest) := host_end special false s in
  if bool_decide (head rest = Some 0x3A) then
    if truthy buf then
      h ← parse_host buf (negb special);
      port_state (set_host u (Some h)) (tail rest)
    else None
  else
    if special && negb (truthy buf) then None
    else
      h ← parse_host buf (negb special);
      Some (path_start_state (set_host u (Some h)) rest).

(** The credentials before the last [@] of an authority, and what follows
    it. *)
Fixpoint split_last_at (s : list N) : option (list N * list N) :=
  match s with
  | [] => None
  | c :: s' =>
    match split_last_at s' with
    | Some (creds, hostport) => Some (c :: creds, hostport)
    | None => if c =? 0x40 then Some ([], s') else None
    end
  end.

(** Authority state. *)
Definition authority_state (u : url) (s : list N) : option url :=
  let special := is_special (scheme u) in
  let '(authority, rest) := span_until (is_terminator special) s in
  match split_last_at authority with
  | None => host_state u s
  | Some (creds, hostport) =>
    if truthy hostport then
      let '(user, pass) := span_until (N.eqb 0x3A) creds in
      let u1 := set_username u (percent_encode_string userinfo_set user) in
      let u2 := set_password u1 (percent_encode_string userinfo_set (tail pass)) in
      host_state u2 (hostport ++ rest)
    else None
  end.

(** Special authority ignore slashes state. *)
Fixpoint special_authority_ignore_slashes_state (u : url) (s : list N)
    : option url :=
  match s with
  | c :: s' =>
    if is_slash c then special_authority_ignore_slashes_state u s'
    else authority_state u s
  | [] => authority_state u s
  end.

(** Special authority slashes state. *)
Definition special_authority_slashes_state (u : url) (s : list N) : option url :=
  if startsWith s (js "//")
  then special_authority_ignore_slashes_state u (drop 2 s)
  else special_authority_ignore_slashes_state u s.

(** Path or authority state. *)
Definition path_or_authority_state (u : url) (s : list N) : option url :=
  if startsWith s (js "/") then authority_state u (drop 1 s)
  else Some (run_path u [] [] s).

Definition list_path (u : url) : list (list N) :=
  match path u with
  | ListPath segs => segs
  | OpaquePath _ => []
  end.

(** Relative slash state. *)
Definition relative_slash_state (base : url) (s : list N) : option url :=
  let sch := scheme base in
  let from_base :=
    Url sch (username base) (password base) (host base) (port base)
      (ListPath []) None None in
  match s with
  | c :: s' =>
    if is_special sch && is_slash c
    then special_authority_ignore_slashes_state (scheme_only sch) s'
    else if c =? 0x2F then authority_state (scheme_only sch) s'
    else Some (run_path from_base [] [] s)
  | [] => Some (run_path from_base [] [] s)
  end.

(** Relative state. *)
Definition relative_state (base : url) (s : list N) : option url :=
  let sch := scheme base in
  let from_base := set_fragment base None in
  match s with
  | [] => Some from_base
  | c :: s' =>
    if (c =? 0x2F) || (is_special sch && (c =? 0x5C))
    then relative_slash_state base s'
    else if c =? 0x3F then Some (query_state from_base s')
    else if c =? 0x23 then Some (fragment_state from_base s')
    else
      Some (run_path (set_query from_base None)
              (shorten_path (list_eqb sch (js "file")) (list_path base)) [] s)
  end.

(** Special relative or authority state. *)
Definition special_relative_or_authority_state (base : url) (s : list N)
    : option url :=
  if startsWith s (js "//")
  then special_authority_ignore_slashes_state (scheme_only (scheme base)) (drop 2 s)
  else relative_state base s.

Definition file_url : url :=
  Url (js "file") [] [] (Some empty_host) None (ListPath []) None None.

Definition is_file_base (base : option url) : option url :=
  match base with
  | Some b => if list_eqb (scheme b) (js "file") then Some b else None
  | None => None
  end.

(** File host state. *)
Definition file_host_state (s : list N) : option url :=
  let '(buf, rest) :=
    span_until (fun c => is_slash c || (c =? 0x3F) || (c =? 0x23)) s in
  if is_windows_drive_letter buf then Some (run_path file_url [] buf rest)
  else if negb (truthy buf) then Some (path_start_state file_url rest)
  else
    h ← parse_host buf false;
    let h' :=
      match h with
      | Domain d => if list_eqb d (js "localhost") then empty_host else h
      | _ => h
      end in
    Some (path_start_state (set_host file_url (Some h')) rest).

(** File slash state. *)
Definition file_slash_state (base : option url) (s : list N) : option url :=
  let continue :=
    match is_file_base base with
    | Some b =>
      let u := set_host file_url (host b) in
      match list_path b with
      | d :: _ =>
        if negb (starts_with_windows_drive_letter s) &&
           is_normalized_windows_drive_letter d
        then Some (run_path u [d] [] s)
        else Some (run_path u [] [] s)
      | [] => Some (run_path u [] [] s)
      end
    | None => Some (run_path file_url [] [] s)
    end in
  match s with
  | c :: s' => if is_slash c then file_host_state s' else continue
  | [] => continue
  end.

(** File state. *)
Definition file_state (base : option url) (s : list N) : option url :=
  let continue :=
    match is_file_base base with
    | Some b =>
      let u := Url (js "file") [] [] (host b) None (path b) (query b) None in
      match s with
      | [] => Some u
      | c :: s' =>
        if c =? 0x3F then Some (query_state u s')
        else if c =? 0x23 then Some (fragment_state u s')
        else
          Some (run_path (set_query u None)
                  (if starts_with_windows_drive_letter s then []
                   else shorten_path true (list_path b)) [] s)
      end
    | None => Some (run_path file_url [] [] s)
    end in
  match s with
  | c :: s' => if is_slash c then file_slash_state base s' else continue
  | [] => continue
  end.

(** No scheme state. *)
Definition no_scheme_state (base : option url) (s : list N) : option url :=
  match base with
  | None => None
  | Some b =>
    match path b with
    | OpaquePath p =>
      if startsWith s (js "#") then
        Some (fragment_state
                (Url (scheme b) [] [] None None (OpaquePath p) (query b) None)
                (drop 1 s))
      else None
    | ListPath _ =>
      if list_eqb (scheme b) (js "file") then file_state base s
      else relative_state b s
    end
  end.

Definition is_scheme_char (c : N) : bool :=
  is_ascii_alphanumeric c || (c =? 0x2B) || (c =? 0x2D) || (c =? 0x2E).

(** Scheme start state and scheme state: the lower-cased scheme and the
    input after its colon, when the input starts with a scheme. *)
Definition split_scheme (s : list N) : option (list N * list N) :=
  match s with
  | c :: _ =>
    if is_ascii_alpha c then
      let '(sch, rest) := span_until (fun c => negb (is_scheme_char c)) s in
      if startsWith rest (js ":") then Some (ascii_lowercase sch, drop 1 rest)
      else None
    else None
  | [] => None
  end.

Definition is_c0_control_or_space (c : N) : bool := c <=? 0x20.
Definition is_tab_or_newline (c : N) : bool :=
  (c =? 0x09) || (c =? 0x0A) || (c =? 0x0D).

Fixpoint strip_leading (s : list N) : list N :=
  match s with
  | c :: s' => if is_c0_control_or_space c then strip_leading s' else s
  | [] => []
  end.

Definition preprocess (s : list N) : list N :=
  filter (fun c => negb (is_tab_or_newline c))
    (rev (strip_leading (rev (strip_leading s)))).

(** The basic URL parser, on the code points of the input. *)
Definition basic_parse (input : list N) (base : option url) : option url :=
  let s := preprocess input in
  match split_scheme s with
  | Some (sch, rest) =>
    if list_eqb sch (js "file") then file_state base rest
    else if is_special sch then
      match base with
      | Some b =>
        if list_eqb (scheme b) sch
        then special_relative_or_authority_state b rest
        else special_authority_slashes_state (scheme_only sch) rest
      | None => special_authority_slashes_state (scheme_only sch) rest
      end
    else if startsWith rest (js "/")
    then path_or_authority_state (scheme_only sch) (drop 1 rest)
    else Some (opaque_path_state (scheme_only sch) rest)
  | None => no_scheme_state base s
  end.

(** [new URL(input)] and [new URL(input, base)]; [None] stands for the
    [TypeError] the constructor throws. *)
Definition URL_new (input : jsstring) (base : option jsstring) : option url :=
  match base with
  | None => basic_parse (code_points input) None
  | Some b =>
    parsed_base ← basic_parse (code_points b) None;
    basic_parse (code_points input) (Some parsed_base)
  end.

End Parser.

(** [url.href], also the value of [url.toString()]. *)
Definition href (u : url) : jsstring := serialize u.

(** [url.protocol] *)
Definition protocol (u : url) : jsstring := scheme u ++ [0x3A].

End URL.
Import URL.

(** ** More string functions *)

Module Str.

(** [String.prototype.includes] *)
Fixpoint includes (s sub : jsstring) : bool :=
  startsWith s sub ||
  match s with
  | [] => false
  | _ :: s' => includes s' sub
  end.

(** [Array.prototype.join] *)
Fixpoint join (sep : jsstring) (parts : list jsstring) : jsstring :=
  match parts with
  | [] => []
  | [p] => p
  | p :: ps => p ++ sep ++ join sep ps
  end.

(** [s.split(sep)] for a non-empty separator string: [skip] counts the code
    units of a separator that are still to be passed over. *)
Fixpoint split_from (sep : jsstring) (skip : nat) (s : jsstring) : list jsstring :=
  match s with
  | [] => [[]]
  | c :: s' =>
    match skip with
    | S k => split_from sep k s'
    | O =>
      if startsWith s sep then [] :: split_from sep (length sep - 1) s'
      else
        match split_from sep 0 s' with
        | p :: ps => (c :: p) :: ps
        | [] => [[c]]
        end
    end
  end.

Definition split (sep s : jsstring) : list jsstring := split_from sep 0 s.

(** [s.split(/\s+/)]: the pieces between runs of white space; [in_run]
    tells whether the previous code unit was white space. *)
Fixpoint split_spaces_from (in_run : bool) (s : jsstring) : list jsstring :=
  match s with
  | [] => [[]]
  | c :: s' =>
    if is_js_space c then
      if in_run then split_spaces_from true s'
      else [] :: split_spaces_from true s'
    else
      match split_spaces_from false s' with
      | p :: ps => (c :: p) :: ps
      | [] => [[c]]
      end
  end.

Definition split_spaces (s : jsstring) : list jsstring :=
  split_spaces_from false s.

(** The characters JavaScript leaves alone in [encodeURIComponent]. *)
Definition is_uri_unreserved (c : N) : bool :=
  is_ascii_alphanumeric c || (c =? 0x2D) || (c =? 0x5F) || (c =? 0x2E) ||
  (c =? 0x21) || (c =? 0x7E) || (c =? 0x2A) || (c =? 0x27) || (c =? 0x28) ||
  (c =? 0x29).

(** [encodeURIComponent]; [None] stands for the [URIError] raised on a lone
    surrogate. *)
Definition encodeURIComponent (s : jsstring) : option jsstring :=
  if is_usv_string s then
    Some (flat_map (fun cp =>
            if is_uri_unreserved cp then [cp]
            else flat_map percent_encode_byte (utf8_bytes cp))
          (code_points s))
  else None.

End Str.

(** ** Documents *)

Module Dom.

(** The namespaces of the elements that are not HTML elements. *)
Inductive namespace := SVG | MathML.

(** A parsed document: elements carry their attributes in document order,
    each name once.  [Element] is an element of the HTML namespace,
    [Foreign] one inside [svg] or [math]; selectors go by the name and see
    both alike.  (node-html-parser knows no namespaces and builds [Element]
    nodes only.) *)
Inductive node :=
| Element (name : jsstring) (attribs : list (jsstring * jsstring))
    (children : list node)
| Foreign (ns : namespace) (name : jsstring)
    (attribs : list (jsstring * jsstring)) (children : list node)
| Text (data : jsstring)
| Comment (data : jsstring)
| Doctype (data : jsstring).

Abbreviation document := (list node).
Abbreviation attributes := (list (jsstring * jsstring)).

(** Reading an attribute: [$(el).attr(name)], [el.getAttribute(name)]. *)
Fixpoint attr (name : jsstring) (attribs : attributes) : option jsstring :=
  match attribs with
  | [] => None
  | (k, v) :: rest => if list_eqb k name then Some v else attr name rest
  end.

(** Writing an attribute: [$(el).attr(name, value)]; an attribute that
    exists keeps its place, a new one goes last. *)
Fixpoint set_attr (name value : jsstring) (attribs : attributes) : attributes :=
  match attribs with
  | [] => [(name, value)]
  | (k, v) :: rest =>
    if list_eqb k name then (k, value) :: rest
    else (k, v) :: set_attr name value rest
  end.

(** The value of an attribute when it is a non-empty string. *)
Definition attr_truthy (name : jsstring) (attribs : attributes) : option jsstring :=
  match attr name attribs with
  | Some v => if truthy v then Some v else None
  | None => None
  end.

(** [$(selector).each(callback)] for callbacks that change the matched
    element only: every element that [sel] matches is replaced by the
    result of [cb], in document order.  The callback is told the namespace
    of an element that is not an HTML element. *)
Fixpoint each (sel : jsstring -> attributes -> bool)
    (cb : option namespace -> attributes -> list node -> attributes * list node)
    (n : node) : node :=
  match n with
  | Element name attribs children =>
    let children' := map (each sel cb) children in
    if sel name attribs then
      let '(attribs', children'') := cb None attribs children' in
      Element name attribs' children''
    else Element name attribs children'
  | Foreign ns name attribs children =>
    let children' := map (each sel cb) children in
    if sel name attribs then
      let '(attribs', children'') := cb (Some ns) attribs children' in
      Foreign ns name attribs' children''
    else Foreign ns name attribs children'
  | _ => n
  end.

Definition each_doc sel cb (doc : document) : document := map (each sel cb) doc.

(** The same for callbacks that only rewrite attributes. *)
Definition each_attribs (sel : jsstring -> attributes -> bool)
    (cb : attributes -> attributes) (doc : document) : document :=
  each_doc sel (fun _ attribs children => (cb attribs, children)) doc.

(** Selectors. *)
Definition by_tag (tag : jsstring) : jsstring -> attributes -> bool :=
  fun name _ => list_eqb name tag.

Definition by_attribute (a : jsstring) : jsstring -> attributes -> bool :=
  fun _ attribs => bool_decide (is_Some (attr a attribs)).

(** [tag[a="value"]]; the values of [rel] compare without regard to ASCII
    case in an HTML document. *)
Definition by_tag_attribute_ci (tag a value : jsstring)
    : jsstring -> attributes -> bool :=
  fun name attribs =>
    list_eqb name tag &&
    match attr a attribs with
    | Some v => list_eqb (ascii_lowercase v) (ascii_lowercase value)
    | None => false
    end.

(** The text of the children of an element whose content is raw text. *)
Fixpoint text_content (children : list node) : jsstring :=
  match children with
  | [] => []
  | Text d :: rest => d ++ text_content rest
  | _ :: rest => text_content rest
  end.

(** The input stream of the HTML parser writes every carriage return, alone
    or before a line feed, as a line feed. *)
Fixpoint normalize_newlines (s : jsstring) : jsstring :=
  match s with
  | [] => []
  | c :: s' =>
    if c =? 0x0D then
      match s' with
      | 0x0A :: _ => normalize_newlines s'
      | _ => 0x0A :: normalize_newlines s'
      end
    else c :: normalize_newlines s'
  end.

(** Raw text parsed as the content of a [style] element: one text node,
    none for the empty string; a NUL reads as U+FFFD. *)
Definition parse_rawtext (s : jsstring) : list node :=
  match map (fun c => if c =? 0 then 0xFFFD else c) (normalize_newlines s) with
  | [] => []
  | d => [Text d]
  end.

(** A [style] element inside [svg] or [math] is not a raw text element:
    [$(el).html()] gives the serialization of its children, with the text
    escaped, and [$(el).html(text)] parses the text as markup in the context
    of the element.  The serializer and the parser of markup are outside
    this development; what they give is a parameter. *)
Class ForeignStyle := {
  style_html : namespace -> list node -> jsstring;
  style_parse : namespace -> jsstring -> list node
}.

End Dom.
Import Str Dom.

(** ** api/proxy.js *)

(** [isHttpUrl] *)
Definition isHttpUrl `{UnicodeToASCII} (s : jsstring) : bool :=
  match URL_new s None with
  | Some u =>
    list_eqb (protocol u) (js "http:") || list_eqb (protocol u) (js "https:")
  | None => false
  end.

(** The inbound request.  [req_query] and [req_headers] are the objects
    [req.query] and [req.headers]; a parameter or header that is absent is
    absent from the map.  An empty [req_method] or [req_url] stands for an
    undefined one.  Every query parameter has one value. *)
Record request := Request {
  req_method : jsstring;
  req_url : jsstring;
  req_query : gmap jsstring jsstring;
  req_headers : gmap jsstring jsstring
}.

(** What the handler has written of the response. *)
Inductive body :=
| NoBody
| TextBody (text : jsstring)
| HtmlBody (doc : document)
| BytesBody (bytes : list N)
| PipedBody (bytes : list N).

(** The outbound response; header names are keyed in lower case, as
    [res.setHeader] stores them. *)
Record response := Response {
  statusCode : N;
  res_headers : gmap jsstring jsstring;
  res_body : body
}.

Definition setHeader (name value : jsstring) (res : response) : response :=
  Response (statusCode res) (<[ascii_lowercase name := value]> (res_headers res))
    (res_body res).

Definition getHeader (name : jsstring) (res : response) : option jsstring :=
  res_headers res !! ascii_lowercase name.

(** [res.statusCode = status; res.end(body)] *)
Definition end_with (status : N) (b : body) (res : response) : response :=
  Response status (res_headers res) b.

(** A response on which nothing has been set. *)
Definition fresh_response : response := Response 200 ∅ NoBody.

(** The upstream response: its status, its headers as [headers.entries()]
    lists them, the document [cheerio.load] builds from its text, its bytes,
    and whether its body has a [pipe] method. *)
Record upstream := Upstream {
  up_status : N;
  up_headers : list (jsstring * jsstring);
  up_document : document;
  up_bytes : list N;
  up_pipe : bool
}.

(** [headers.get(name)]: header names compare without regard to case. *)
Fixpoint headers_get (name : jsstring) (hs : list (jsstring * jsstring))
    : option jsstring :=
  match hs with
  | [] => None
  | (k, v) :: rest =>
    if list_eqb (ascii_lowercase k) (ascii_lowercase name) then Some v
    else headers_get name rest
  end.

(** The options of the upstream fetch; redirects are always manual. *)
Record fetch_init := FetchInit {
  fetch_method : jsstring;
  fetch_headers : gmap jsstring jsstring;
  fetch_body : bool
}.

Inductive fetch_result :=
| FetchFailed (message : jsstring)
| Fetched (up : upstream).

(** The handler either answers at once or fetches a URL and answers from
    what the fetch gives. *)
Inductive outcome :=
| Answer (res : response)
| Fetch (target : jsstring) (init : fetch_init) (k : fetch_result -> response).

(** [(req.url.match(/[?&]u=([^&]+)/) || [])[1]] *)
Fixpoint match_u (s : jsstring) : option jsstring :=
  match s with
  | [] => None
  | c :: s' =>
    if ((c =? 0x3F) || (c =? 0x26)) && startsWith s' (js "u=") then
      match (span_until (N.eqb 0x26) (drop 2 s')).1 with
      | [] => match_u s'
      | value => Some value
      end
    else match_u s'
  end.

(** The token: [req.query.u || (req.url && (...)[1])], when it is truthy. *)
Definition token (req : request) : option jsstring :=
  match req_query req !! js "u" with
  | Some ((_ :: _) as u) => Some u
  | _ => if truthy (req_url req) then match_u (req_url req) else None
  end.

Definition FORWARD_ALLOW : list jsstring :=
  [js "accept"; js "accept-language"; js "content-type"; js "range";
   js "if-range"; js "if-none-match"; js "cache-control"; js "x-requested-with"].

(** A header of the request when its value is truthy. *)
Definition header (req : request) (h : jsstring) : option jsstring :=
  match req_headers req !! h with
  | Some ((_ :: _) as v) => Some v
  | _ => None
  end.

(** The headers of the upstream fetch. *)
Definition forward_headers (req : request) : gmap jsstring jsstring :=
  let headers :=
    foldl (fun headers h =>
             match header req h with
             | Some v => <[h := v]> headers
             | None => headers
             end) ∅ FORWARD_ALLOW in
  let headers :=
    match req_query req !! js "forwardCookies", header req (js "cookie") with
    | Some flag, Some v =>
      if list_eqb flag (js "1") then <[js "cookie" := v]> headers else headers
    | _, _ => headers
    end in
  match header req (js "range") with
  | Some v => <[js "range" := v]> headers
  | None => headers
  end.

Definition fetch_options (req : request) : fetch_init :=
  let method := if truthy (req_method req) then req_method req else js "GET" in
  FetchInit method (forward_headers req)
    (negb (list_eqb method (js "GET")) && negb (list_eqb method (js "HEAD"))).

Definition HIDE_HEADERS : list jsstring :=
  [js "set-cookie"; js "server"; js "x-powered-by"].

(** The upstream headers copied to the response, and the referrer policy. *)
Definition copy_headers (up : upstream) (res : response) : response :=
  setHeader (js "Referrer-Policy") (js "no-referrer")
    (foldl (fun res '(k, v) =>
              if bool_decide (ascii_lowercase k ∈ HIDE_HEADERS) then res
              else if list_eqb (ascii_lowercase k) (js "referrer-policy") then res
              else setHeader k v res)
       res (up_headers up)).

(** [proxify], the helper of the HTML branch. *)
Definition proxify `{UnicodeToASCII} (targetUrl rawUrl : jsstring) : jsstring :=
  if negb (truthy rawUrl) then rawUrl
  else if startsWith rawUrl (js "javascript:") ||
          startsWith rawUrl (js "data:") ||
          startsWith rawUrl (js "mailto:")
  then rawUrl
  else
    match URL_new rawUrl (Some targetUrl) with
    | Some resolved => js "/p/" ++ b64Encode (href resolved)
    | None => rawUrl
    end.

Section Rewriting.
Context `{UnicodeToASCII}.
Variable targetUrl : jsstring.

(** The callback of [$("a").each]. *)
Definition rewrite_anchor (attribs : attributes) : attributes :=
  match attr_truthy (js "href") attribs with
  | None => attribs
  | Some href =>
    let attribs := set_attr (js "href") (proxify targetUrl href) attribs in
    let rel :=
      match attr_truthy (js "rel") attribs with
      | Some r => r
      | None => []
      end ++ js " noreferrer noopener" in
    set_attr (js "rel") (trim rel) attribs
  end.

Definition resourceSelectors : list (jsstring -> attributes -> bool) :=
  [by_tag (js "img"); by_tag (js "script"); by_tag (js "iframe");
   by_tag (js "video"); by_tag (js "audio"); by_tag (js "source");
   by_tag (js "embed");
   by_tag_attribute_ci (js "link") (js "rel") (js "stylesheet")].

(** The callback of the resource selectors: [src] when it is set, [href]
    otherwise. *)
Definition rewrite_resource (attribs : attributes) : attributes :=
  match attr_truthy (js "src") attribs with
  | Some val => set_attr (js "src") (proxify targetUrl val) attribs
  | None =>
    match attr_truthy (js "href") attribs with
    | Some val => set_attr (js "href") (proxify targetUrl val) attribs
    | None => attribs
    end
  end.

(** The callback of [$("link").each]. *)
Definition rewrite_link (attribs : attributes) : attributes :=
  match attr_truthy (js "href") attribs with
  | Some href => set_attr (js "href") (proxify targetUrl href) attribs
  | None => attribs
  end.

(** The callback of [$("form").each]. *)
Definition rewrite_form (attribs : attributes) : attributes :=
  let action :=
    match attr_truthy (js "action") attribs with
    | Some a => a
    | None => targetUrl
    end in
  set_attr (js "action") (proxify targetUrl action) attribs.

(** One entry of a [srcset] value. *)
Definition rewrite_srcset_entry (entry : jsstring) : jsstring :=
  match take 2 (split_spaces entry) with
  | [u; descriptor] =>
    proxify targetUrl u ++
    (if truthy descriptor then js " " ++ descriptor else [])
  | [u] => proxify targetUrl u
  | _ => proxify targetUrl []
  end.

Definition rewrite_srcset_value (raw : jsstring) : jsstring :=
  join (js ", ") (map rewrite_srcset_entry (map trim (split (js ",") raw))).

(** The callback of [$("[srcset]").each]. *)
Definition rewrite_srcset (attribs : attributes) : attributes :=
  match attr_truthy (js "srcset") attribs with
  | Some raw => set_attr (js "srcset") (rewrite_srcset_value raw) attribs
  | None => attribs
  end.

(** Line terminators, which [.] does not match. *)
Definition is_line_terminator (c : N) : bool :=
  (c =? 0x0A) || (c =? 0x0D) || (c =? 0x2028) || (c =? 0x2029).

(** The shortest text without line terminators that is followed by [close]:
    the text and the number of code units matched, [close] included. *)
Fixpoint lazy_until (close : jsstring) (s : jsstring) : option (jsstring * nat) :=
  if startsWith s close then Some ([], length close)
  else
    match s with
    | [] => None
    | c :: s' =>
      if is_line_terminator c then None
      else
        match lazy_until close s' with
        | Some (u, n) => Some (c :: u, S n)
        | None => None
        end
    end.

(** A match, at the start of [s], of the regular expression of the style
    rewrite: [url(], an optional quote, a lazy run of characters, the same
    quote again and [)].  The result is the quote, the URL and the length of
    the match; the quote is given up when no quoted match exists. *)
Definition match_css_url (s : jsstring) : option (jsstring * jsstring * nat) :=
  if startsWith s (js "url(") then
    let s1 := drop 4 s in
    let unquoted :=
      match lazy_until (js ")") s1 with
      | Some (u, n) => Some ([], u, (4 + n)%nat)
      | None => None
      end in
    match s1 with
    | q :: s2 =>
      if (q =? 0x27) || (q =? 0x22) then
        match lazy_until [q; 0x29] s2 with
        | Some (u, n) => Some ([q], u, (5 + n)%nat)
        | None => unquoted
        end
      else unquoted
    | [] => unquoted
    end
  else None.

(** The replacement of one [url(...)]. *)
Definition rewrite_css_url (q url : jsstring) : jsstring :=
  if startsWith url (js "data:") || startsWith url (js "javascript:")
  then js "url(" ++ q ++ url ++ q ++ js ")"
  else js "url(" ++ q ++ proxify targetUrl url ++ q ++ js ")".

(** The global [replace] of that expression over a style text; [skip]
    counts the code units of the last match that are still to be passed
    over. *)
Fixpoint rewrite_css_from (skip : nat) (s : jsstring) : jsstring :=
  match s with
  | [] => []
  | c :: s' =>
    match skip with
    | S k => rewrite_css_from k s'
    | O =>
      match match_css_url s with
      | Some (q, url, n) => rewrite_css_url q url ++ rewrite_css_from (n - 1) s'
      | None => c :: rewrite_css_from 0 s'
      end
    end
  end.

Definition rewrite_css (css : jsstring) : jsstring := rewrite_css_from 0 css.

(** The callback of [$("*[style]").each]. *)
Definition rewrite_style_attribute (attribs : attributes) : attributes :=
  match attr_truthy (js "style") attribs with
  | Some style => set_attr (js "style") (rewrite_css style) attribs
  | None => attribs
  end.

(** The callback of [$("style").each]: the expression is replaced in what
    [$(el).html()] returns, the raw text of an HTML style element and the
    serialization of the children of any other, and the result is given to
    [$(el).html(newCss)]. *)
Definition rewrite_style_element `{ForeignStyle} (ns : option namespace)
    (attribs : attributes) (children : list node) : attributes * list node :=
  match ns with
  | None => (attribs, parse_rawtext (rewrite_css (text_content children)))
  | Some ns => (attribs, style_parse ns (rewrite_css (style_html ns children)))
  end.

End Rewriting.

(** The text of the script that the handler appends to the head. *)
Definition clientScript_text : jsstring := js "
(function(){
  // Remove visible query strings that may contain base64 URLs.
  try {
    const allowedPath = location.pathname.replace(/(\?|$).*/, '');
    history.replaceState(null, '', allowedPath);
  } catch(e){}

  // For any anchor created client-side later, ensure rel and proxify if needed.
  function proxifyAnchor(a){
    try{
      if(!a || !a.href) return;
      // don't proxify anchors that point to same-origin internal anchors
      if(a.hostname === location.hostname) return;
      a.rel = (a.rel || '') + ' noreferrer noopener';
      // if href is absolute external, transform to /p/<b64>
      const u = a.getAttribute('href');
      if(u && !u.startsWith('/') && !u.startsWith('#') && !u.startsWith('javascript:') && !u.startsWith('mailto:')){
        const enc = btoa(unescape(encodeURIComponent(u))).replace(/\+/g,'-').replace(/\//g,'_').replace(/=+$/, '');
        a.href = '/p/' + enc;
      }
    }catch(e){}
  }

  document.querySelectorAll('a').forEach(proxifyAnchor);
  new MutationObserver(function(m){
    for(const node of m){
      node.addedNodes && node.addedNodes.forEach(n=>{
        if(n && n.querySelectorAll){
          n.querySelectorAll('a').forEach(proxifyAnchor);
        }
      });
    }
  }).observe(document, {childList:true, subtree:true});
})();
"%string.

(** The nodes that [clientScript] parses to: the script between two line
    feeds. *)
Definition clientScript : list node :=
  [Text [0x0A]; Element (js "script") [] [Text clientScript_text]; Text [0x0A]].

(** [el.tagName] in node-html-parser, from the name of an element as the
    selectors see it: the name in upper case since version 2 of the library,
    the name as the document writes it before. *)
Class TagNames := tagName : jsstring -> jsstring.

Section Handler.
Context `{UnicodeToASCII} `{ForeignStyle}.

(** The HTML branch: the passes of the handler over the document, in the
    order of the source. *)
Definition rewrite_document (targetUrl : jsstring) (doc : document) : document :=
  let doc := each_attribs (by_tag (js "a")) (rewrite_anchor targetUrl) doc in
  let doc :=
    foldl (fun doc sel => each_attribs sel (rewrite_resource targetUrl) doc)
      doc resourceSelectors in
  let doc := each_attribs (by_tag (js "link")) (rewrite_link targetUrl) doc in
  let doc := each_attribs (by_tag (js "form")) (rewrite_form targetUrl) doc in
  let doc := each_attribs (by_attribute (js "srcset")) (rewrite_srcset targetUrl) doc in
  let doc :=
    each_attribs (by_attribute (js "style")) (rewrite_style_attribute targetUrl) doc in
  let doc := each_doc (by_tag (js "style")) (rewrite_style_element targetUrl) doc in
  each_doc (by_tag (js "head"))
    (fun _ attribs children => (attribs, children ++ clientScript)) doc.

(** The redirect branch; [inl] carries the message of the error thrown by
    [new URL]. *)
Definition redirect_branch (targetUrl : jsstring) (up : upstream)
    (res : response) : jsstring + response :=
  match headers_get (js "location") (up_headers up) with
  | Some ((_ :: _) as loc) =>
    match URL_new loc (Some targetUrl) with
    | Some resolved =>
      let proxied := js "/p/" ++ b64Encode (href resolved) in
      inr (end_with (up_status up) NoBody (setHeader (js "Location") proxied res))
    | None => inl (js "Invalid URL")
    end
  | _ => inr (end_with (up_status up) NoBody res)
  end.

(** The [catch] of the handler. *)
Definition proxy_error (message : jsstring) (res : response) : response :=
  end_with 500 (TextBody (js "Proxy error: " ++ message)) res.

Definition status_or_200 (up : upstream) : N :=
  if up_status up =? 0 then 200 else up_status up.

(** The handler after the fetch. *)
Definition respond (targetUrl : jsstring) (r : fetch_result) : response :=
  match r with
  | FetchFailed message => proxy_error message fresh_response
  | Fetched up =>
    let ct :=
      match headers_get (js "content-type") (up_headers up) with
      | Some v => v
      | None => []
      end in
    let res := copy_headers up fresh_response in
    if (300 <=? up_status up) && (up_status up <? 400) then
      match redirect_branch targetUrl up res with
      | inr res' => res'
      | inl message => proxy_error message res
      end
    else if includes ct (js "text/html") then
      end_with (status_or_200 up)
        (HtmlBody (rewrite_document targetUrl (up_document up)))
        (setHeader (js "Content-Type") (js "text/html; charset=utf-8") res)
    else if up_pipe up then end_with (status_or_200 up) (PipedBody (up_bytes up)) res
    else end_with (status_or_200 up) (BytesBody (up_bytes up)) res
  end.

(** [module.exports] of api/proxy.js. *)
Definition handler (req : request) : outcome :=
  match token req with
  | None =>
    Answer (end_with 400
              (TextBody (js "Missing `u` parameter (base64url-encoded target URL)."))
              fresh_response)
  | Some b64 =>
    let targetUrl := b64Decode b64 in
    if negb (isHttpUrl targetUrl) then
      Answer (end_with 400 (TextBody (js "Invalid target URL.")) fresh_response)
    else Fetch targetUrl (fetch_options req) (respond targetUrl)
  end.

(** ** pages/api/proxy.js: the rewrite of meta refresh *)

(** The new value of a [content] attribute; [None] when the attribute is
    left as it is, [inl] when [new URL] throws. *)
Definition rewrite_meta_content (targetUrl content : jsstring)
    : unit + option jsstring :=
  let parts := split (js ";url=") content in
  match parts with
  | p0 :: ((_ :: _) as p1) :: _ =>
    match URL_new p1 (Some targetUrl) with
    | Some resolved =>
      match encodeURIComponent (href resolved) with
      | Some encoded => inr (Some (p0 ++ js ";url=/api/proxy?url=" ++ encoded))
      | None => inl ()
      end
    | None => inl ()
    end
  | _ => inr None
  end.

(** The callback of the loop over [meta[http-equiv='refresh']]. *)
Definition rewrite_meta (targetUrl : jsstring) (attribs : attributes)
    : unit + attributes :=
  match attr_truthy (js "content") attribs with
  | Some content =>
    match rewrite_meta_content targetUrl content with
    | inr (Some content') => inr (set_attr (js "content") content' attribs)
    | inr None => inr attribs
    | inl e => inl e
    end
  | None => inr attribs
  end.

Definition is_meta_refresh : jsstring -> attributes -> bool :=
  fun name attribs =>
    list_eqb name (js "meta") &&
    bool_decide (attr (js "http-equiv") attribs = Some (js "refresh")).

(** A loop over a list that ends at the first error. *)
Definition try_all {A B : Type} (f : A -> unit + B) : list A -> unit + list B :=
  fix go (l : list A) : unit + list B :=
    match l with
    | [] => inr []
    | x :: l' =>
      match f x with
      | inl e => inl e
      | inr y =>
        match go l' with
        | inl e => inl e
        | inr l'' => inr (y :: l'')
        end
      end
    end.

(** [root.querySelectorAll(selector).forEach(callback)] for callbacks that
    set attributes of the matched element and may throw: the elements are
    visited in document order, and the first error ends the loop. *)
Fixpoint try_each (sel : jsstring -> attributes -> bool)
    (cb : jsstring -> attributes -> unit + attributes) (n : node) : unit + node :=
  match n with
  | Element name attribs children =>
    match (if sel name attribs then cb name attribs else inr attribs) with
    | inl e => inl e
    | inr attribs' =>
      match try_all (try_each sel cb) children with
      | inl e => inl e
      | inr children' => inr (Element name attribs' children')
      end
    end
  | Foreign ns name attribs children =>
    match (if sel name attribs then cb name attribs else inr attribs) with
    | inl e => inl e
    | inr attribs' =>
      match try_all (try_each sel cb) children with
      | inl e => inl e
      | inr children' => inr (Foreign ns name attribs' children')
      end
    end
  | _ => inr n
  end.

(** The loop over the meta refresh elements under a node. *)
Definition rewrite_meta_refresh_node (targetUrl : jsstring) (n : node)
    : unit + node :=
  try_each is_meta_refresh (fun _ attribs => rewrite_meta targetUrl attribs) n.

(** *** The loop over the elements a, link, script and img *)

Definition is_reference_element : jsstring -> attributes -> bool :=
  fun name _ =>
    bool_decide (name ∈ [js "a"; js "link"; js "script"; js "img"]).

(** The attribute that the loop reads: [href] when [el.tagName] is [a] or
    [link], and [src] otherwise. *)
Definition reference_attribute `{TagNames} (name : jsstring) : jsstring :=
  if list_eqb (tagName name) (js "a") || list_eqb (tagName name) (js "link")
  then js "href" else js "src".

(** The callback of the loop: a value that does not start with [http] is
    replaced by the URL it resolves to; [inl] when [new URL] throws. *)
Definition rewrite_reference `{TagNames} (targetUrl name : jsstring)
    (attribs : attributes) : unit + attributes :=
  let a := reference_attribute name in
  match attr_truthy a attribs with
  | Some value =>
    if startsWith value (js "http") then inr attribs
    else
      match URL_new value (Some targetUrl) with
      | Some resolved => inr (set_attr a (href resolved) attribs)
      | None => inl ()
      end
  | None => inr attribs
  end.

Definition rewrite_references_node `{TagNames} (targetUrl : jsstring) (n : node)
    : unit + node :=
  try_each is_reference_element (rewrite_reference targetUrl) n.

(** *** The HTML branch of the handler *)

(** The two loops over the parsed document, one after the other. *)
Definition rewrite_pages `{TagNames} (targetUrl : jsstring) (doc : document)
    : unit + document :=
  match try_all (rewrite_references_node targetUrl) doc with
  | inl e => inl e
  | inr doc' => try_all (rewrite_meta_refresh_node targetUrl) doc'
  end.

(** The response to an upstream document: the rewritten document, or the
    answer of the [catch] when a loop has thrown. *)
Definition pages_html_response `{TagNames} (targetUrl : jsstring)
    (doc : document) : response :=
  match rewrite_pages targetUrl doc with
  | inr doc' =>
    end_with 200 (HtmlBody doc')
      (setHeader (js "Content-Type") (js "text/html") fresh_response)
  | inl _ => end_with 500 (TextBody (js "Error fetching URL")) fresh_response
  end.

End Handler.

(** ** public/api/proxy.js: the headers of content that is not HTML *)

Definition PUBLIC_SKIP_HEADERS : list jsstring :=
  [js "content-encoding"; js "content-length"].

(** [response.headers.forEach] with [res.setHeader], over the headers as the
    loop visits them. *)
Definition public_copy_headers (hs : list (jsstring * jsstring)) (res : response)
    : response :=
  foldl (fun res '(k, v) =>
           if bool_decide (ascii_lowercase k ∈ PUBLIC_SKIP_HEADERS) then res
           else setHeader k v res)
    res hs.

(** What an outcome shows: the URL it fetches, or the response it gives
    without fetching. *)
Definition fetched_url (o : outcome) : option jsstring :=
  match o with
  | Fetch target _ _ => Some target
  | Answer _ => None
  end.

Definition fetched_init (o : outcome) : option fetch_init :=
  match o with
  | Fetch _ init _ => Some init
  | Answer _ => None
  end.

Definition answered (o : outcome) : option response :=
  match o with
  | Answer res => Some res
  | Fetch _ _ _ => None
  end.

(** Without Unicode tables every domain that needs them is refused; the
    examples below run the parser on ASCII hosts only. *)
#[global] Instance ascii_domains_only : UnicodeToASCII := fun _ => None.

(** The text of a text node as the serializer writes it outside a raw text
    element. *)
Fixpoint escape_text (s : jsstring) : jsstring :=
  match s with
  | [] => []
  | c :: s' =>
    (if c =? 0x26 then js "&amp;"
     else if c =? 0xA0 then js "&nbsp;"
     else if c =? 0x3C then js "&lt;"
     else if c =? 0x3E then js "&gt;"
     else [c]) ++ escape_text s'
  end.

(** The four character references of [escape_text] read back; [skip]
    counts the code units of a reference that are still to be passed
    over. *)
Fixpoint unescape_from (skip : nat) (s : jsstring) : jsstring :=
  match s with
  | [] => []
  | c :: s' =>
    match skip with
    | S k => unescape_from k s'
    | O =>
      if startsWith s (js "&amp;") then 0x26 :: unescape_from 4 s'
      else if startsWith s (js "&nbsp;") then 0xA0 :: unescape_from 5 s'
      else if startsWith s (js "&lt;") then 0x3C :: unescape_from 3 s'
      else if startsWith s (js "&gt;") then 0x3E :: unescape_from 3 s'
      else c :: unescape_from 0 s'
    end
  end.

(** ASCII upper case of one code unit and of a string. *)
Definition ascii_upper (c : N) : N :=
  if (0x61 <=? c) && (c <=? 0x7A) then c - 0x20 else c.

Definition ascii_uppercase (s : jsstring) : jsstring := map ascii_upper s.

(** The examples below run with the tag names of the current
    node-html-parser. *)
#[global] Instance upper_case_tag_names : TagNames := ascii_uppercase.

(** Without a parser of markup, the examples below have text only inside a
    style element of svg or math: the serializer escapes it, and the parser
    reads the escaped text back as one text node. *)
#[global] Instance text_in_foreign_style : ForeignStyle := {|
  style_html _ children := escape_text (text_content children);
  style_parse _ s := parse_rawtext (unescape_from 0 s)
|}.

(** What the handler answers once the fetch has given [r]. *)
Definition answer_after (o : outcome) (r : fetch_result) : option response :=
  match o with
  | Fetch _ _ k => Some (k r)
  | Answer _ => None
  end.

(** ** Sample inputs *)

Module Sample.

(** A GET request for [/api/proxy?u=<token>] with the given headers. *)
Definition request_for (token : jsstring) (headers : gmap jsstring jsstring)
    : request :=
  Request (js "GET") (js "/api/proxy?u=" ++ token) {[js "u" := token]} headers.

(** An upstream response that has only a status and headers. *)
Definition bare_response (status : N) (headers : list (jsstring * jsstring))
    : upstream :=
  Upstream status headers [] [] false.

(** The token of [http://a.b/] followed by the byte FF, which no UTF-8 text
    contains. *)
Definition malformed_token : jsstring :=
  base64url_encode (utf8_encode (js "http://a.b/") ++ [0xFF]).


(** A page with one element of every kind that the rewrite has a pass for,
    and a meta refresh. *)
Definition site : document :=
  [Doctype (js "html");
   Element (js "html") [(js "lang", js "en")]
     [Element (js "head") []
        [Element (js "meta")
           [(js "http-equiv", js "refresh"); (js "content", js "5;url=/next")] [];
         Element (js "link") [(js "rel", js "stylesheet"); (js "href", js "/s.css")] [];
         Element (js "link") [(js "rel", js "icon"); (js "href", js "/i.png")] [];
         Element (js "style") [] [Text (js "body{background:url(/bg.png)}")];
         Element (js "script") [(js "src", js "/app.js")] []];
      Element (js "body") [(js "class", js "main")]
        [Element (js "a") [(js "href", js "/about"); (js "title", js "About us")]
           [Text (js "About")];
         Element (js "form") [(js "method", js "post")]
           [Element (js "input") [(js "name", js "q")] []];
         Element (js "img") [(js "src", js "a.png"); (js "alt", js "A")] []]]].

End Sample.

(** ** Vocabulary of the statements *)

(** The references that [proxify] returns as they are. *)
Definition has_kept_scheme (rawUrl : jsstring) : bool :=
  startsWith rawUrl (js "javascript:") || startsWith rawUrl (js "data:") ||
  startsWith rawUrl (js "mailto:").

(** The scheme that the URL parser reads at the start of a text, in lower
    case, when the text starts with one. *)
Definition scheme_of (s : jsstring) : option jsstring :=
  option_map fst (split_scheme (preprocess (code_points s))).

Definition is_http_scheme (scheme : option jsstring) : bool :=
  match scheme with
  | Some s => list_eqb s (js "http") || list_eqb s (js "https")
  | None => false
  end.

(** The characters of a telephone number: digits, [+], [-] and [.]. *)
Definition is_tel_char (c : N) : bool :=
  is_ascii_digit c || (c =? 0x2B) || (c =? 0x2D) || (c =? 0x2E).

(** Text without white space and without commas. *)
Definition is_plain (s : jsstring) : bool :=
  forallb (fun c => negb (is_js_space c) && negb (c =? 0x2C)) s.

(** White space only. *)
Definition is_spaces (s : jsstring) : bool := forallb is_js_space s.

(** One entry of a [srcset] value as a document writes it: white space, the
    URL, white space and a descriptor when there is one, and white space
    again. *)
Record srcset_item := SrcsetItem {
  item_lead : jsstring;
  item_url : jsstring;
  item_gap : jsstring;
  item_descriptor : jsstring;
  item_trail : jsstring
}.

Definition item_text (it : srcset_item) : jsstring :=
  item_lead it ++ item_url it ++ item_gap it ++ item_descriptor it ++
  item_trail it.

(** The URL is not empty, URL and descriptor have neither white space nor
    commas, and white space stands between them exactly when there is a
    descriptor. *)
Definition item_ok (it : srcset_item) : bool :=
  truthy (item_url it) && is_plain (item_url it) &&
  is_plain (item_descriptor it) &&
  is_spaces (item_lead it) && is_spaces (item_gap it) &&
  is_spaces (item_trail it) &&
  (if truthy (item_descriptor it) then truthy (item_gap it)
   else negb (truthy (item_gap it))).

(** The entry with another URL, as the rewrite writes it: one space before
    the descriptor, none around. *)
Definition item_with (url : jsstring) (it : srcset_item) : jsstring :=
  url ++ (if truthy (item_descriptor it) then js " " ++ item_descriptor it else []).

(** The attributes of the elements that a selector matches, in document
    order. *)
Fixpoint elements_where (sel : jsstring -> attributes -> bool) (n : node)
    : list attributes :=
  match n with
  | Element name attribs children | Foreign _ name attribs children =>
    (if sel name attribs then [attribs] else []) ++
    flat_map (elements_where sel) children
  | _ => []
  end.

(** The elements on which the first loop of pages/api/proxy.js throws: an
    a, link, script or img whose value of the attribute that the loop reads
    does not start with [http] and does not resolve against the target. *)
Definition unresolved_reference `{UnicodeToASCII} `{TagNames}
    (targetUrl : jsstring) : jsstring -> attributes -> bool :=
  fun name attribs =>
    is_reference_element name attribs &&
    match attr_truthy (reference_attribute name) attribs with
    | Some value =>
      negb (startsWith value (js "http")) &&
      negb (bool_decide (is_Some (URL_new value (Some targetUrl))))
    | None => false
    end.

(** The meta refresh elements on which the second loop throws: the second
    part of the content split on [;url=] is not empty, and it does not
    resolve against the target or resolves to a URL that
    [encodeURIComponent] refuses. *)
Definition unresolved_refresh `{UnicodeToASCII} (targetUrl : jsstring)
    : jsstring -> attributes -> bool :=
  fun name attribs =>
    is_meta_refresh name attribs &&
    match attr_truthy (js "content") attribs with
    | Some content =>
      match split (js ";url=") content with
      | _ :: ((_ :: _) as x) :: _ =>
        match URL_new x (Some targetUrl) with
        | Some resolved =>
          negb (bool_decide (is_Some (encodeURIComponent (href resolved))))
        | None => true
        end
      | _ => false
      end
    | None => false
    end.

(** The characters of a token. *)
Definition is_base64url_char (c : N) : bool :=
  is_ascii_alphanumeric c || (c =? 0x2D) || (c =? 0x5F).


(** The attributes of the elements with a given name, in document order. *)
Fixpoint elements_named (tag : jsstring) (n : node) : list attributes :=
  match n with
  | Element name attribs children | Foreign _ name attribs children =>
    (if list_eqb name tag then [attribs] else []) ++
    flat_map (elements_named tag) children
  | _ => []
  end.

(** One pass on the attributes of an element with the given name; and what
    the passes of [rewrite_document] do to them, in their order. *)
Definition rewrite_if (sel : jsstring -> attributes -> bool)
    (cb : attributes -> attributes) (tag : jsstring) (a : attributes)
    : attributes :=
  if sel tag a then cb a else a.

Definition rewrite_element `{UnicodeToASCII} (targetUrl tag : jsstring)
    (attribs : attributes) : attributes :=
  let a := rewrite_if (by_tag (js "a")) (rewrite_anchor targetUrl) tag attribs in
  let a :=
    foldl (fun a sel => rewrite_if sel (rewrite_resource targetUrl) tag a) a
      resourceSelectors in
  let a := rewrite_if (by_tag (js "link")) (rewrite_link targetUrl) tag a in
  let a := rewrite_if (by_tag (js "form")) (rewrite_form targetUrl) tag a in
  let a := rewrite_if (by_attribute (js "srcset")) (rewrite_srcset targetUrl) tag a in
  rewrite_if (by_attribute (js "style")) (rewrite_style_attribute targetUrl) tag a.

Definition is_text (n : node) : bool :=
  match n with
  | Text _ => true
  | _ => false
  end.

(** Every [style] element is an HTML element and holds text only, as the
    parser builds it. *)
Fixpoint raw_text_styles (n : node) : bool :=
  match n with
  | Element name attribs children =>
    (if list_eqb name (js "style") then forallb is_text children else true) &&
    forallb raw_text_styles children
  | Foreign _ name attribs children =>
    negb (list_eqb name (js "style")) && forallb raw_text_styles children
  | _ => true
  end.

(** The script elements under a node, in document order: their attributes
    and their text. *)
Fixpoint scripts (n : node) : list (attributes * jsstring) :=
  match n with
  | Element name attribs children | Foreign _ name attribs children =>
    (if list_eqb name (js "script") then [(attribs, text_content children)]
     else []) ++
    flat_map scripts children
  | _ => []
  end.

(** The scripts under a node once the client script has been appended to
    every head: the scripts that are there, with their attributes changed by
    [f], and after the last script of every head one script without
    attributes whose text is the client script. *)
Fixpoint scripts_with_client (f : attributes -> attributes) (n : node)
    : list (attributes * jsstring) :=
  match n with
  | Element name attribs children | Foreign _ name attribs children =>
    (if list_eqb name (js "script") then [(f attribs, text_content children)]
     else []) ++
    flat_map (scripts_with_client f) children ++
    (if list_eqb name (js "head") then [([], clientScript_text)] else [])
  | _ => []
  end.

(** The children of the head elements under a node, in document order. *)
Fixpoint head_children (n : node) : list (list node) :=
  match n with
  | Element name attribs children | Foreign _ name attribs children =>
    (if list_eqb name (js "head") then [children] else []) ++
    flat_map head_children children
  | _ => []
  end.



(** A parsed URL keeps the scheme of the URL it was built from, and its
    path is a list of segments when that scheme is special. *)
Definition keeps_shape (u r : url) : Prop :=
  scheme r = scheme u /\
  (is_special (scheme u) = true -> exists segs, path r = ListPath segs).

(** * Verified properties *)

(** ** Facts: checking a property over an initial segment of the numbers *)

Ltac Zify.zify_post_hook ::= Z.to_euclidean_division_equations.

Lemma all_below_iter n P :
  N.iter n (fun '(ok, i) => (ok && P i, N.succ i)) (true, 0) =
  (all_below n P, n).
Proof.
  unfold all_below. induction n as [|n IH] using N.peano_ind; [done|].
  rewrite N.iter_succ, IH. done.
Qed.

Lemma all_below_spec n P :
  all_below n P = true -> forall v, v < n -> P v = true.
Proof.
  induction n as [|n IH] using N.peano_ind; intros H v Hv; [lia|].
  unfold all_below in H. rewrite N.iter_succ, all_below_iter in H.
  cbn [fst] in H. apply andb_prop in H as [H1 H2].
  destruct (N.eq_dec v n) as [->|Hne]; [done|].
  apply IH; [done|lia].
Qed.

(** Boolean comparisons as propositions, for [lia]. *)
Ltac unbool :=
  repeat match goal with
  | H : _ && _ = true |- _ => apply andb_prop in H as [? ?]
  | H : negb _ = true |- _ => apply negb_true_iff in H
  | H : negb _ = false |- _ => apply negb_false_iff in H
  | H : (_ <=? _) = true |- _ => apply N.leb_le in H
  | H : (_ <=? _) = false |- _ => apply N.leb_gt in H
  | H : (_ <? _) = true |- _ => apply N.ltb_lt in H
  | H : (_ <? _) = false |- _ => apply N.ltb_ge in H
  | H : (_ =? _) = true |- _ => apply N.eqb_eq in H
  | H : (_ =? _) = false |- _ => apply N.eqb_neq in H
  end.

(** Boolean tests on numbers as linear arithmetic. *)
Ltac boolN :=
  repeat first
    [ rewrite andb_true_iff in * | rewrite orb_true_iff in *
    | rewrite andb_false_iff in * | rewrite orb_false_iff in *
    | rewrite negb_true_iff in * | rewrite negb_false_iff in *
    | rewrite N.leb_le in * | rewrite N.leb_gt in *
    | rewrite N.ltb_lt in * | rewrite N.ltb_ge in *
    | rewrite N.eqb_eq in * | rewrite N.eqb_neq in * ].

(** ** Facts: UTF-16 and code points *)

Lemma code_units_of_pair c d :
  is_high_surrogate c = true -> is_low_surrogate d = true ->
  code_units_of (0x10000 + N.shiftl (c - 0xD800) 10 + (d - 0xDC00)) = [c; d].
Proof.
  unfold is_high_surrogate, is_low_surrogate, code_units_of. intros Hc Hd.
  unbool. rewrite N.shiftl_mul_pow2. change (2 ^ 10) with 1024.
  destruct (N.ltb_spec (0x10000 + (c - 0xD800) * 1024 + (d - 0xDC00)) 0x10000); [lia|].
  rewrite N.shiftr_div_pow2. change 0x3FF with (N.ones 10).
  rewrite N.land_ones. change (2 ^ 10) with 1024.
  f_equal; [lia|f_equal; lia].
Qed.

Lemma from_code_points_code_points s :
  is_usv_string s = true -> from_code_points (code_points s) = s.
Proof.
  induction s as [s IH] using (induction_ltof1 _ length). unfold ltof in IH.
  destruct s as [|c s]; [done|]. simpl.
  destruct (is_high_surrogate c) eqn:Hc.
  - destruct s as [|d s]; [done|]. intros [Hd Hs]%andb_prop.
    rewrite Hd. cbn [from_code_points flat_map].
    rewrite code_units_of_pair by done. simpl. do 2 f_equal.
    apply IH; [simpl; lia|done].
  - intros [[H1 H2]%andb_prop Hs]%andb_prop.
    apply negb_true_iff in H2. rewrite H2. cbn [from_code_points flat_map].
    unfold code_units_of. rewrite H1. simpl. f_equal. apply IH; [simpl; lia|done].
Qed.

Lemma code_points_scalar s :
  is_usv_string s = true -> forallb is_scalar_value (code_points s) = true.
Proof.
  induction s as [s IH] using (induction_ltof1 _ length). unfold ltof in IH.
  destruct s as [|c s]; [done|]. simpl.
  destruct (is_high_surrogate c) eqn:Hc.
  - destruct s as [|d s]; [done|]. intros [Hd Hs]%andb_prop.
    rewrite Hd. simpl. rewrite IH by (simpl; lia || done).
    rewrite andb_true_r. unfold is_scalar_value, is_surrogate.
    unfold is_high_surrogate, is_low_surrogate in *. unbool.
    rewrite N.shiftl_mul_pow2. change (2 ^ 10) with 1024.
    apply andb_true_intro; split; [apply N.ltb_lt; lia|].
    apply negb_true_iff, andb_false_iff. right. apply N.leb_gt. lia.
  - intros [[H1 H2]%andb_prop Hs]%andb_prop.
    apply negb_true_iff in H2. rewrite H2. simpl. rewrite IH by (simpl; lia || done).
    rewrite andb_true_r. unfold is_scalar_value, is_surrogate.
    unfold is_high_surrogate, is_low_surrogate in *.
    apply andb_true_intro; split; [apply N.ltb_lt; unbool; lia|].
    apply negb_true_iff.
    destruct (N.leb_spec 0xD800 c), (N.leb_spec c 0xDFFF),
      (N.leb_spec c 0xDBFF), (N.leb_spec 0xDC00 c); simpl in *; try done; lia.
Qed.

(** ** Facts: UTF-8 *)

Lemma utf8_decode_from_app st bs rest :
  utf8_decode_from st (bs ++ rest) =
  (utf8_run st bs).2 ++ utf8_decode_from (utf8_run st bs).1 rest.
Proof.
  revert st. induction bs as [|b bs IH]; intros st; [done|]. simpl.
  destruct (utf8_step st b) as [st' out]. rewrite IH.
  destruct (utf8_run st' bs) as [st'' out']. simpl. by rewrite app_assoc.
Qed.

Lemma lor_add k a b : a mod 2 ^ k = 0 -> b < 2 ^ k -> N.lor a b = a + b.
Proof.
  intros Ha Hb.
  assert (N.land a b = 0) as Hland.
  { apply N.bits_inj. intros n. rewrite N.land_spec, N.bits_0.
    destruct (N.lt_ge_cases n k) as [Hn|Hn].
    - rewrite <- (N.mod_pow2_bits_low a k n), Ha, N.bits_0 by done. done.
    - rewrite <- (N.mod_small b (2 ^ k)) by done.
      rewrite N.mod_pow2_bits_high by done. apply andb_false_r. }
  by rewrite N.add_nocarry_lxor, N.lxor_lor.
Qed.

(** A continuation byte joined to the code point read so far. *)
Lemma shift_in (cp b : N) :
  N.lor (N.shiftl cp 6) (N.land b 0x3F) = cp * 64 + b mod 64.
Proof.
  rewrite N.shiftl_mul_pow2. change 0x3F with (N.ones 6). rewrite N.land_ones.
  change (2 ^ 6) with 64. apply (lor_add 6); change (2 ^ 6) with 64; lia.
Qed.

Lemma lor_lead (m x : N) (k : N) :
  m mod 2 ^ k = 0 -> x < 2 ^ k -> N.lor m x = m + x.
Proof. apply lor_add. Qed.

Lemma utf8_step_more (cp n lo hi b : N) :
  1 < n -> lo <= b <= hi ->
  utf8_step (Utf8State cp n lo hi) b =
  (Utf8State (cp * 64 + b mod 64) (n - 1) 0x80 0xBF, []).
Proof.
  intros Hn [Hl Hu]. unfold utf8_step. cbn [u8_needed u8_lower u8_upper u8_cp].
  assert ((n =? 0) = false) as -> by (boolN; lia).
  assert ((n =? 1) = false) as -> by (boolN; lia).
  apply N.leb_le in Hl as ->. apply N.leb_le in Hu as ->.
  cbn [andb]. by rewrite shift_in.
Qed.

Lemma utf8_step_last (cp lo hi b : N) :
  lo <= b <= hi ->
  utf8_step (Utf8State cp 1 lo hi) b = (utf8_init, [cp * 64 + b mod 64]).
Proof.
  intros [Hl Hu]. unfold utf8_step. cbn [u8_needed u8_lower u8_upper u8_cp N.eqb Pos.eqb].
  apply N.leb_le in Hl as ->. apply N.leb_le in Hu as ->.
  cbn [andb]. by rewrite shift_in.
Qed.

Lemma utf8_lead_two (b : N) :
  0xC2 <= b <= 0xDF -> utf8_lead b = (Utf8State (b mod 32) 1 0x80 0xBF, []).
Proof.
  intros Hb. unfold utf8_lead.
  assert ((b <=? 0x7F) = false) as -> by (boolN; lia).
  assert ((0xC2 <=? b) && (b <=? 0xDF) = true) as -> by (boolN; lia).
  change 0x1F with (N.ones 5). by rewrite N.land_ones.
Qed.

Lemma utf8_lead_three (b : N) :
  0xE0 <= b <= 0xEF ->
  utf8_lead b =
  (Utf8State (b mod 16) 2 (if b =? 0xE0 then 0xA0 else 0x80)
     (if b =? 0xED then 0x9F else 0xBF), []).
Proof.
  intros Hb. unfold utf8_lead.
  assert ((b <=? 0x7F) = false) as -> by (boolN; lia).
  assert ((0xC2 <=? b) && (b <=? 0xDF) = false) as -> by (boolN; lia).
  assert ((0xE0 <=? b) && (b <=? 0xEF) = true) as -> by (boolN; lia).
  change 0xF with (N.ones 4). by rewrite N.land_ones.
Qed.

Lemma utf8_lead_four (b : N) :
  0xF0 <= b <= 0xF4 ->
  utf8_lead b =
  (Utf8State (b mod 8) 3 (if b =? 0xF0 then 0x90 else 0x80)
     (if b =? 0xF4 then 0x8F else 0xBF), []).
Proof.
  intros Hb. unfold utf8_lead.
  assert ((b <=? 0x7F) = false) as -> by (boolN; lia).
  assert ((0xC2 <=? b) && (b <=? 0xDF) = false) as -> by (boolN; lia).
  assert ((0xE0 <=? b) && (b <=? 0xEF) = false) as -> by (boolN; lia).
  assert ((0xF0 <=? b) && (b <=? 0xF4) = true) as -> by (boolN; lia).
  change 0x7 with (N.ones 3). by rewrite N.land_ones.
Qed.

(** The bytes of a code point, in arithmetic. *)
Lemma utf8_bytes_arith (cp : N) :
  cp < 0x110000 ->
  utf8_bytes cp =
  if cp <? 0x80 then [cp]
  else if cp <? 0x800 then [0xC0 + cp / 64; 0x80 + cp mod 64]
  else if cp <? 0x10000 then
    [0xE0 + cp / 4096; 0x80 + (cp / 64) mod 64; 0x80 + cp mod 64]
  else
    [0xF0 + cp / 262144; 0x80 + (cp / 4096) mod 64; 0x80 + (cp / 64) mod 64;
     0x80 + cp mod 64].
Proof.
  intros Hcp. unfold utf8_bytes.
  assert (forall x, N.lor 0x80 (N.land x 0x3F) = 0x80 + x mod 64) as Hcont.
  { intros x. change 0x3F with (N.ones 6). rewrite N.land_ones.
    change (2 ^ 6) with 64. apply (lor_add 6); [done|]. change (2 ^ 6) with 64. lia. }
  rewrite !Hcont, !N.shiftr_div_pow2.
  change (2 ^ 6) with 64. change (2 ^ 12) with 4096. change (2 ^ 18) with 262144.
  destruct (cp <? 0x80) eqn:E1; [done|].
  destruct (cp <? 0x800) eqn:E2.
  { rewrite (lor_add 6); [done|done|]. change (2 ^ 6) with 64. boolN. lia. }
  destruct (cp <? 0x10000) eqn:E3.
  { rewrite (lor_add 5); [done|done|]. change (2 ^ 5) with 32. boolN. lia. }
  rewrite (lor_add 4); [done|done|]. change (2 ^ 4) with 16. lia.
Qed.

Lemma utf8_cp_facts cp :
  is_scalar_value cp = true ->
  utf8_run utf8_init (utf8_bytes cp) = (utf8_init, [cp]) /\
  Forall (fun b => b < 256) (utf8_bytes cp).
Proof.
  unfold is_scalar_value, is_surrogate. intros Hcp.
  assert (cp < 0x110000 /\ (cp < 0xD800 \/ 0xDFFF < cp)) as [Hlt Hns] by (boolN; lia).
  clear Hcp. rewrite utf8_bytes_arith by done.
  destruct (cp <? 0x80) eqn:E1.
  { apply N.ltb_lt in E1. split; [|repeat constructor; lia].
    cbn [utf8_run]. unfold utf8_step, utf8_lead. cbn [u8_needed utf8_init N.eqb].
    assert ((cp <=? 0x7F) = true) as -> by (boolN; lia). done. }
  destruct (cp <? 0x800) eqn:E2.
  { apply N.ltb_ge in E1. apply N.ltb_lt in E2.
    split; [|repeat constructor; lia]. cbn [utf8_run].
    change (utf8_step utf8_init ?b) with (utf8_lead b).
    rewrite utf8_lead_two, utf8_step_last by lia.
    cbn [app]. do 2 f_equal. lia. }
  destruct (cp <? 0x10000) eqn:E3.
  { apply N.ltb_ge in E1, E2. apply N.ltb_lt in E3.
    split; [|repeat constructor; lia]. cbn [utf8_run].
    change (utf8_step utf8_init ?b) with (utf8_lead b).
    rewrite utf8_lead_three by lia.
    rewrite utf8_step_more; [|lia|].
    2:{ destruct (N.eqb_spec (0xE0 + cp / 4096) 0xE0),
                 (N.eqb_spec (0xE0 + cp / 4096) 0xED).
        all: lia. }
    change (2 - 1) with 1. rewrite utf8_step_last by lia.
    cbn [app]. do 2 f_equal. lia. }
  apply N.ltb_ge in E1, E2, E3.
  split; [|repeat constructor; lia]. cbn [utf8_run].
  change (utf8_step utf8_init ?b) with (utf8_lead b).
  rewrite utf8_lead_four by lia.
  rewrite utf8_step_more; [|lia|].
  2:{ destruct (N.eqb_spec (0xF0 + cp / 262144) 0xF0),
               (N.eqb_spec (0xF0 + cp / 262144) 0xF4).
      all: lia. }
  change (3 - 1) with 2. rewrite utf8_step_more by lia.
  change (2 - 1) with 1. rewrite utf8_step_last by lia.
  cbn [app]. do 2 f_equal. lia.
Qed.

Lemma utf8_encode_bytes s :
  is_usv_string s = true -> Forall (fun b => b < 256) (utf8_encode s).
Proof.
  intros Hs%code_points_scalar. unfold utf8_encode.
  induction (code_points s) as [|cp cps IH]; [constructor|].
  simpl in *. apply andb_prop in Hs as [H1 H2].
  apply Forall_app. split; [by apply utf8_cp_facts|by apply IH].
Qed.

Lemma utf8_decode_encode cps :
  forallb is_scalar_value cps = true ->
  utf8_decode_from utf8_init (flat_map utf8_bytes cps) = cps.
Proof.
  induction cps as [|cp cps IH]; [done|]. simpl.
  intros [H1 H2]%andb_prop.
  rewrite utf8_decode_from_app. destruct (utf8_cp_facts cp H1) as [-> _].
  simpl. by rewrite IH.
Qed.

Ltac bitarith :=
  rewrite ?N.shiftr_div_pow2, ?N.shiftl_mul_pow2;
  change 0x3 with (N.ones 2); change 0xF with (N.ones 4);
  change 0x3F with (N.ones 6);
  rewrite ?N.land_ones;
  change (2 ^ 2) with 4; change (2 ^ 4) with 16; change (2 ^ 6) with 64.

Lemma unsextets_sextets bs :
  Forall (fun b => b < 256) bs -> unsextets (sextets bs) = bs.
Proof.
  induction bs as [bs IH] using (induction_ltof1 _ length). unfold ltof in IH.
  intros Hbs.
  destruct bs as [|b0 [|b1 [|b2 rest]]]; [done| | |].
  - apply Forall_cons in Hbs as [H0 _]. cbn [sextets unsextets]. bitarith.
    rewrite (lor_add 2) by (change (2 ^ 2) with 4; lia). f_equal. lia.
  - apply Forall_cons in Hbs as [H0 [H1 _]%Forall_cons].
    cbn [sextets unsextets]. bitarith.
    rewrite (lor_add 4 (_ * 16)) by (change (2 ^ 4) with 16; lia).
    rewrite (lor_add 2 (_ * 4)) by (change (2 ^ 2) with 4; lia).
    rewrite (lor_add 4 (_ * 16)) by (change (2 ^ 4) with 16; lia).
    f_equal; [lia|f_equal; lia].
  - apply Forall_cons in Hbs as [H0 [H1 [H2 Hrest]%Forall_cons]%Forall_cons].
    cbn [sextets unsextets]. rewrite IH by (done || simpl; lia). bitarith.
    rewrite (lor_add 4 (_ * 16) (b1 / 16)) by (change (2 ^ 4) with 16; lia).
    rewrite (lor_add 2 (_ * 4) (b2 / 64)) by (change (2 ^ 2) with 4; lia).
    rewrite (lor_add 2 (_ * 4)) by (change (2 ^ 2) with 4; lia).
    rewrite (lor_add 4 (_ * 16)) by (change (2 ^ 4) with 16; lia).
    rewrite (lor_add 6 (_ * 64)) by (change (2 ^ 6) with 64; lia).
    f_equal; [lia|f_equal; [lia|f_equal; lia]].
Qed.

Lemma sextets_lt bs :
  Forall (fun b => b < 256) bs -> Forall (fun v => v < 64) (sextets bs).
Proof.
  induction bs as [bs IH] using (induction_ltof1 _ length). unfold ltof in IH.
  intros Hbs.
  destruct bs as [|b0 [|b1 [|b2 rest]]]; [constructor| | |].
  - apply Forall_cons in Hbs as [H0 _]. cbn [sextets]. bitarith.
    repeat constructor; lia.
  - apply Forall_cons in Hbs as [H0 [H1 _]%Forall_cons].
    cbn [sextets]. bitarith.
    rewrite (lor_add 4 (_ * 16)) by (change (2 ^ 4) with 16; lia).
    repeat constructor; lia.
  - apply Forall_cons in Hbs as [H0 [H1 [H2 Hrest]%Forall_cons]%Forall_cons].
    cbn [sextets]. bitarith.
    rewrite (lor_add 4 (_ * 16)) by (change (2 ^ 4) with 16; lia).
    rewrite (lor_add 2 (_ * 4)) by (change (2 ^ 2) with 4; lia).
    repeat (constructor; [lia|]). apply IH; [simpl; lia|done].
Qed.

Lemma unbase64_char v : v < 64 -> unbase64 (base64url_char v) = Some v.
Proof.
  intros Hv.
  pose proof (all_below_spec 64
    (fun v => match unbase64 (base64url_char v) with
              | Some w => w =? v
              | None => false
              end) eq_refl v Hv) as H.
  cbv beta in H. destruct (unbase64 (base64url_char v)); [|done].
  apply N.eqb_eq in H. by subst.
Qed.

Lemma base64_values_chars vs :
  Forall (fun v => v < 64) vs -> base64_values (map base64url_char vs) = vs.
Proof.
  induction 1 as [|v vs Hv _ IH]; [done|].
  simpl. by rewrite unbase64_char, IH.
Qed.

(** Decoding the base64url text of a byte sequence gives the bytes back. *)
Lemma base64url_decode_encode bs :
  Forall (fun b => b < 256) bs -> base64url_decode (base64url_encode bs) = bs.
Proof.
  intros Hbs. unfold base64url_decode, base64url_encode.
  rewrite base64_values_chars by by apply sextets_lt.
  by apply unsextets_sextets.
Qed.

(** C1: for every string [u] that has a UTF-8 encoding (16-bit code units,
    every surrogate paired), and so for every absolute http or https URL,
    decoding the token that [b64Encode] produces for [u] gives [u] back, code
    unit for code unit. *)
Theorem b64Decode_b64Encode (u : jsstring) :
  is_usv_string u = true -> b64Decode (b64Encode u) = u.
Proof.
  intros Hu. unfold b64Decode, b64Encode, utf8_decode.
  rewrite base64url_decode_encode by by apply utf8_encode_bytes.
  unfold utf8_encode. rewrite utf8_decode_encode by by apply code_points_scalar.
  by apply from_code_points_code_points.
Qed.

(** ** Facts: attributes and headers *)

Lemma list_eqb_true a b : list_eqb a b = true <-> a = b.
Proof. unfold list_eqb. apply bool_decide_eq_true. Qed.

Lemma list_eqb_false a b : list_eqb a b = false <-> a <> b.
Proof. unfold list_eqb. apply bool_decide_eq_false. Qed.

Lemma list_eqb_refl a : list_eqb a a = true.
Proof. by apply list_eqb_true. Qed.

Lemma attr_set_attr name value attribs :
  attr name (set_attr name value attribs) = Some value.
Proof.
  induction attribs as [|[k v] rest IH]; simpl.
  - by rewrite list_eqb_refl.
  - destruct (list_eqb k name) eqn:E; simpl; by rewrite E.
Qed.

Lemma attr_set_attr_ne name other value attribs :
  name <> other -> attr other (set_attr name value attribs) = attr other attribs.
Proof.
  intros Hne. induction attribs as [|[k v] rest IH]; simpl.
  - apply list_eqb_false in Hne. by rewrite Hne.
  - destruct (list_eqb k name) eqn:E; simpl; [|by rewrite IH].
    apply list_eqb_true in E. subst k.
    apply list_eqb_false in Hne. by rewrite Hne.
Qed.

Lemma attr_truthy_Some name attribs v :
  attr_truthy name attribs = Some v <-> attr name attribs = Some v /\ v <> [].
Proof.
  unfold attr_truthy. destruct (attr name attribs) as [[|c w]|]; simpl; naive_solver.
Qed.

Lemma header_Some (req : request) h v :
  header req h = Some v <-> req_headers req !! h = Some v /\ v <> [].
Proof.
  unfold header. destruct (req_headers req !! h) as [[|c w]|]; naive_solver.
Qed.

(** The loop over [FORWARD_ALLOW], over any list of names. *)
Lemma forward_loop_lookup (req : request) (l : list jsstring) (m : gmap jsstring jsstring) (name : jsstring) :
  foldl (fun headers h =>
           match header req h with
           | Some v => <[h := v]> headers
           | None => headers
           end) m l !! name =
  if bool_decide (name ∈ l) then
    match header req name with
    | Some v => Some v
    | None => m !! name
    end
  else m !! name.
Proof.
  revert m. induction l as [|h l IH]; intros m; simpl; [done|].
  rewrite IH. destruct (decide (name = h)) as [->|Hne].
  - rewrite (bool_decide_eq_true_2 (h ∈ h :: l)) by set_solver.
    destruct (header req h) as [v|] eqn:E.
    + rewrite lookup_insert_eq. by case_bool_decide.
    + by case_bool_decide.
  - assert (m' : forall m0 : gmap jsstring jsstring,
      match header req h with Some v => <[h:=v]> m0 | None => m0 end !! name
      = m0 !! name).
    { intros m0. destruct (header req h); [by rewrite lookup_insert_ne|done]. }
    rewrite m'. repeat case_bool_decide; set_solver.
Qed.

(** The headers of the fetch, name by name. *)
Lemma forward_headers_lookup (req : request) (name : jsstring) :
  forward_headers req !! name =
  if bool_decide (name ∈ FORWARD_ALLOW) then header req name
  else if bool_decide (name = js "cookie" /\
                       req_query req !! js "forwardCookies" = Some (js "1"))
  then header req (js "cookie")
  else None.
Proof.
  unfold forward_headers.
  set (loop := foldl _ ∅ FORWARD_ALLOW).
  assert (Hloop : forall n, loop !! n =
    if bool_decide (n ∈ FORWARD_ALLOW) then header req n else None).
  { intros n. unfold loop. rewrite forward_loop_lookup, lookup_empty.
    case_bool_decide; [|done]. by destruct (header req n). }
  set (withc := match req_query req !! js "forwardCookies", header req (js "cookie") with
                | Some flag, Some v =>
                  if list_eqb flag (js "1") then <[js "cookie" := v]> loop else loop
                | _, _ => loop
                end).
  assert (Hc : forall n, withc !! n =
    if bool_decide (n ∈ FORWARD_ALLOW) then header req n
    else if bool_decide (n = js "cookie" /\
                         req_query req !! js "forwardCookies" = Some (js "1"))
    then header req (js "cookie") else None).
  { intros n. unfold withc.
    assert (Hnc : js "cookie" ∉ FORWARD_ALLOW) by (vm_compute; set_solver).
    destruct (req_query req !! js "forwardCookies") as [flag|] eqn:Ef;
      [|rewrite Hloop; repeat case_bool_decide; naive_solver].
    destruct (header req (js "cookie")) as [v|] eqn:Ev;
      [|rewrite Hloop; repeat case_bool_decide; naive_solver].
    destruct (list_eqb flag (js "1")) eqn:E1.
    - apply list_eqb_true in E1. subst flag.
      destruct (decide (n = js "cookie")) as [->|Hne].
      + rewrite lookup_insert_eq. repeat case_bool_decide; naive_solver.
      + rewrite lookup_insert_ne, Hloop by done.
        repeat case_bool_decide; naive_solver.
    - apply list_eqb_false in E1. rewrite Hloop.
      repeat case_bool_decide; naive_solver. }
  destruct (header req (js "range")) as [v|] eqn:Er; [|apply Hc].
  destruct (decide (name = js "range")) as [->|Hne].
  - rewrite lookup_insert_eq.
    rewrite (bool_decide_eq_true_2 (js "range" ∈ FORWARD_ALLOW)); [done|].
    vm_compute. set_solver.
  - rewrite lookup_insert_ne by done. apply Hc.
Qed.

(** ** The request handler before the fetch *)

Section HandlerFacts.
Context `{UnicodeToASCII} `{ForeignStyle}.

Lemma handler_fetch_inv req target init k :
  handler req = Fetch target init k ->
  exists b64, token req = Some b64 /\ target = b64Decode b64 /\
    isHttpUrl target = true /\ init = fetch_options req /\ k = respond target.
Proof.
  unfold handler. destruct (token req) as [b64|]; [|done].
  destruct (isHttpUrl (b64Decode b64)) eqn:E; simpl; [|done].
  intros [= <- <- <-]. eauto 10.
Qed.

(** C9, as the code has it: the headers of the upstream fetch are the
    headers of the allow-list that the request carries with a non-empty
    value, and the cookie header when the request has [forwardCookies=1]
    and a non-empty cookie; no other header is forwarded, so neither
    Referer nor Origin. *)
Theorem forwarded_headers_exact (req : request) (init : fetch_init) :
  fetched_init (handler req) = Some init ->
  (forall name : jsstring,
     fetch_headers init !! name =
     if bool_decide (name ∈ FORWARD_ALLOW) then header req name
     else if bool_decide (name = js "cookie" /\
                          req_query req !! js "forwardCookies" = Some (js "1"))
     then header req (js "cookie")
     else None) /\
  fetch_headers init !! js "referer" = None /\
  fetch_headers init !! js "origin" = None.
Proof.
  destruct (handler req) as [|target init' k] eqn:E; [done|].
  intros [= ->]. apply handler_fetch_inv in E as (b64 & _ & _ & _ & -> & _).
  simpl. split; [apply forward_headers_lookup|].
  rewrite !forward_headers_lookup. done.
Qed.

(** ** The handler after the fetch *)

Lemma copy_loop_absent (hs : list (jsstring * jsstring)) (res : response)
    (name : jsstring) :
  headers_get name hs = None ->
  res_headers res !! ascii_lowercase name = None ->
  res_headers
    (foldl (fun res '(k, v) =>
              if bool_decide (ascii_lowercase k ∈ HIDE_HEADERS) then res
              else if list_eqb (ascii_lowercase k) (js "referrer-policy") then res
              else setHeader k v res) res hs) !! ascii_lowercase name = None.
Proof.
  revert res. induction hs as [|[k v] hs IH]; intros res Hget Hres; [done|].
  simpl in *. destruct (list_eqb (ascii_lowercase k) (ascii_lowercase name)) eqn:E;
    [done|].
  apply IH; [done|]. apply list_eqb_false in E.
  case_bool_decide; [done|]. destruct (list_eqb _ (js "referrer-policy")); [done|].
  simpl. by rewrite lookup_insert_ne.
Qed.

Lemma copy_headers_absent (up : upstream) (name : jsstring) :
  headers_get name (up_headers up) = None ->
  ascii_lowercase name <> js "referrer-policy" ->
  getHeader name (copy_headers up fresh_response) = None.
Proof.
  intros Hget Hne. unfold getHeader, copy_headers, setHeader. simpl.
  rewrite lookup_insert_ne by done.
  by apply copy_loop_absent.
Qed.

(** C10: an upstream response with a status from 300 to 399 and no Location
    header is answered with the same status, an empty body and no Location
    header. *)
Theorem redirect_without_location (req : request) target init k (up : upstream) :
  handler req = Fetch target init k ->
  300 <= up_status up < 400 ->
  headers_get (js "location") (up_headers up) = None ->
  statusCode (k (Fetched up)) = up_status up /\
  res_body (k (Fetched up)) = NoBody /\
  getHeader (js "Location") (k (Fetched up)) = None.
Proof.
  intros (b64 & _ & _ & _ & _ & ->)%handler_fetch_inv [Hlo Hhi] Hloc.
  unfold respond, redirect_branch. rewrite Hloc.
  apply N.leb_le in Hlo as ->. apply N.ltb_lt in Hhi as ->. simpl.
  repeat split. by apply (copy_headers_absent up (js "location")).
Qed.

(** ** References that are left alone *)

Lemma proxify_kept target rawUrl :
  has_kept_scheme rawUrl = true -> proxify target rawUrl = rawUrl.
Proof.
  unfold proxify, has_kept_scheme. intros ->. by destruct (truthy rawUrl).
Qed.

End HandlerFacts.

(** ** The claims at sample inputs *)

Lemma handler_fetch_intro `{UnicodeToASCII} `{ForeignStyle} (req : request) (b64 : jsstring) :
  token req = Some b64 -> isHttpUrl (b64Decode b64) = true ->
  handler req = Fetch (b64Decode b64) (fetch_options req) (respond (b64Decode b64)).
Proof. intros Htok Hok. unfold handler. by rewrite Htok, Hok. Qed.

Lemma b64Decode_b64Encode_witness :
  is_usv_string (js "https://example.com/a?b=c") = true /\
  b64Decode (b64Encode (js "https://example.com/a?b=c")) =
  js "https://example.com/a?b=c".
Proof.
  split; [reflexivity|]. apply b64Decode_b64Encode. reflexivity.
Defined.

Lemma forwarded_headers_exact_witness :
  exists init,
    fetched_init
      (handler (Sample.request_for (js "aHR0cDovL2EuYi8")
         {[js "accept" := js "text/html"; js "referer" := js "http://c.d/";
           js "cookie" := js "k=v"]})) = Some init /\
    fetch_headers init !! js "accept" = Some (js "text/html") /\
    fetch_headers init !! js "cookie" = None /\
    fetch_headers init !! js "referer" = None /\
    fetch_headers init !! js "origin" = None.
Proof.
  set (req := Sample.request_for _ _).
  assert (handler req = Fetch (b64Decode (js "aHR0cDovL2EuYi8"))
            (fetch_options req) (respond (b64Decode (js "aHR0cDovL2EuYi8")))) as E
    by (apply handler_fetch_intro; vm_compute; reflexivity).
  exists (fetch_options req).
  assert (fetched_init (handler req) = Some (fetch_options req)) as Hinit
    by by rewrite E.
  destruct (forwarded_headers_exact req (fetch_options req) Hinit) as (Hall & Hr & Ho).
  split; [done|]. rewrite !Hall. split; [vm_compute; reflexivity|].
  split; [vm_compute; reflexivity|]. split; [|done]. vm_compute; reflexivity.
Defined.

(** C9 fails for a header that is present with an empty value: the request
    carries [accept], the fetch does not. *)
Lemma empty_header_not_forwarded :
  req_headers (Sample.request_for (js "aHR0cDovL2EuYi8") {[js "accept" := []]})
    !! js "accept" = Some [] /\
  option_map (fun init => fetch_headers init !! js "accept")
    (fetched_init
       (handler (Sample.request_for (js "aHR0cDovL2EuYi8") {[js "accept" := []]})))
  = Some None.
Proof.
  split; [vm_compute; reflexivity|].
  rewrite (handler_fetch_intro _ (js "aHR0cDovL2EuYi8")) by (vm_compute; reflexivity).
  vm_compute. reflexivity.
Qed.

Lemma redirect_without_location_witness :
  let req := Sample.request_for (js "aHR0cHM6Ly9leGFtcGxlLmNvbS9hcHA") ∅ in
  let up := Sample.bare_response 304 [(js "etag", js "x")] in
  b64Decode (js "aHR0cHM6Ly9leGFtcGxlLmNvbS9hcHA") = js "https://example.com/app" /\
  answer_after (handler req) (Fetched up) =
    Some (respond (js "https://example.com/app") (Fetched up)) /\
  statusCode (respond (js "https://example.com/app") (Fetched up)) = 304 /\
  res_body (respond (js "https://example.com/app") (Fetched up)) = NoBody /\
  getHeader (js "Location") (respond (js "https://example.com/app") (Fetched up))
    = None.
Proof.
  intros req up.
  assert (b64Decode (js "aHR0cHM6Ly9leGFtcGxlLmNvbS9hcHA") =
          js "https://example.com/app") as Hdec by (vm_compute; reflexivity).
  assert (handler req = Fetch (js "https://example.com/app") (fetch_options req)
            (respond (js "https://example.com/app"))) as E.
  { rewrite <- Hdec. apply handler_fetch_intro; vm_compute; reflexivity. }
  split; [done|]. split; [by rewrite E|].
  apply (redirect_without_location req _ _ _ up E); [|reflexivity].
  split; [apply N.leb_le|apply N.ltb_lt]; reflexivity.
Defined.

(** ** Facts: trimming and splitting *)


Lemma trimEnd_snoc s c : is_js_space c = false -> trimEnd (s ++ [c]) = s ++ [c].
Proof.
  intros Hc. unfold trimEnd. rewrite rev_app_distr. simpl. rewrite Hc.
  change (c :: rev s) with (rev [c] ++ rev s). by rewrite <- rev_app_distr, rev_involutive.
Qed.

(** Text that neither starts nor ends with white space is its own trim,
    also after one space. *)
Lemma trim_bounded c s d :
  is_js_space c = false -> is_js_space d = false ->
  trim (c :: s ++ [d]) = c :: s ++ [d] /\
  trim (0x20 :: c :: s ++ [d]) = c :: s ++ [d].
Proof.
  intros Hc Hd. unfold trim. simpl. rewrite Hc.
  change (c :: s ++ [d]) with ((c :: s) ++ [d]). by rewrite trimEnd_snoc.
Qed.

Lemma trim_single c :
  is_js_space c = false -> trim [c] = [c] /\ trim [0x20; c] = [c].
Proof. intros Hc. unfold trim, trimEnd. simpl. rewrite Hc. simpl. by rewrite Hc. Qed.


(** ** Facts: [split] *)

Lemma split_from_comma_cons (c : N) (s : jsstring) :
  split_from [0x2C] 0 (c :: s) =
  if c =? 0x2C then [] :: split_from [0x2C] 0 s
  else
    match split_from [0x2C] 0 s with
    | p :: ps => (c :: p) :: ps
    | [] => [[c]]
    end.
Proof.
  cbn [split_from startsWith length Nat.sub]. rewrite N.eqb_sym.
  destruct s; by rewrite andb_true_r.
Qed.

Lemma split_comma_free (p : jsstring) :
  forallb (fun c => negb (c =? 0x2C)) p = true -> split (js ",") p = [p].
Proof.
  unfold split. change (js ",") with [0x2C].
  induction p as [|c p IH]; [done|]. cbn [forallb].
  intros [Hc Hp]%andb_prop. apply negb_true_iff in Hc.
  by rewrite split_from_comma_cons, Hc, IH.
Qed.

Lemma split_comma_app (p rest : jsstring) :
  forallb (fun c => negb (c =? 0x2C)) p = true ->
  split (js ",") (p ++ 0x2C :: rest) = p :: split (js ",") rest.
Proof.
  unfold split. change (js ",") with [0x2C].
  induction p as [|c p IH]; cbn [forallb app].
  - intros _. by rewrite split_from_comma_cons.
  - intros [Hc Hp]%andb_prop. apply negb_true_iff in Hc.
    by rewrite split_from_comma_cons, Hc, IH.
Qed.

Lemma split_spaces_plain_from (b : bool) (u : jsstring) :
  forallb (fun c => negb (is_js_space c)) u = true ->
  forall rest p ps, split_spaces_from false rest = p :: ps ->
  split_spaces_from b (u ++ rest) =
  match u with
  | [] => split_spaces_from b rest
  | _ => (u ++ p) :: ps
  end.
Proof.
  intros Hu rest p ps Hrest. revert b. induction u as [|c u IH]; intros b; [done|].
  simpl in *. apply andb_prop in Hu as [Hc Hu]. apply negb_true_iff in Hc.
  rewrite Hc. rewrite (IH Hu false). destruct u; simpl; [by rewrite Hrest|done].
Qed.

Lemma split_spaces_plain (u : jsstring) :
  forallb (fun c => negb (is_js_space c)) u = true ->
  split_spaces u = [u] /\ split_spaces_from true u = [u].
Proof.
  intros Hu. unfold split_spaces.
  pose proof (split_spaces_plain_from false u Hu [] [] [] eq_refl) as H1.
  pose proof (split_spaces_plain_from true u Hu [] [] [] eq_refl) as H2.
  rewrite app_nil_r in *. destruct u; done.
Qed.

Lemma is_plain_spec (s : jsstring) :
  is_plain s = true ->
  forallb (fun c => negb (is_js_space c)) s = true /\
  forallb (fun c => negb (c =? 0x2C)) s = true.
Proof.
  unfold is_plain. induction s as [|c s IH]; [done|]. simpl.
  intros [[H1 H2]%andb_prop Hs]%andb_prop. destruct (IH Hs) as [-> ->].
  by rewrite H1, H2.
Qed.

Lemma trim_ends (c : N) (w : jsstring) (d : N) :
  is_js_space c = false -> last (c :: w) = Some d -> is_js_space d = false ->
  trim (c :: w) = c :: w /\ trim (0x20 :: c :: w) = c :: w.
Proof.
  intros Hc Hlast Hd. destruct w as [|x w' _] using rev_ind.
  - by apply trim_single.
  - rewrite app_comm_cons, last_snoc in Hlast. injection Hlast as ->.
    by apply trim_bounded.
Qed.

Lemma forallb_head {A} (P : A -> bool) (l : list A) (x : A) :
  forallb P l = true -> head l = Some x -> P x = true.
Proof. destruct l; simpl; [done|]. intros [? ?]%andb_prop [= ->]. done. Qed.

Lemma forallb_last {A} (P : A -> bool) (l : list A) (x : A) :
  forallb P l = true -> last l = Some x -> P x = true.
Proof.
  intros Hall Hlast. rewrite forallb_forall in Hall. apply Hall.
  apply list_elem_of_In. destruct l as [|y l _] using rev_ind; [done|].
  rewrite last_snoc in Hlast. injection Hlast as ->. set_solver.
Qed.

(** ** Facts: the parser on proxy paths *)

Lemma base64url_char_range (c : N) :
  is_base64url_char c = true -> 0x2D <= c <= 0x7A /\ c <> 0x2E /\ c <> 0x2F /\
    c <> 0x3F /\ c <> 0x5C /\ c <> 0x5E /\ c <> 0x60 /\ c <> 0x3C /\ c <> 0x3E /\
    c <> 0x3A /\ c <> 0x3B /\ c <> 0x3D /\ c <> 0x40.
Proof.
  unfold is_base64url_char, is_ascii_alphanumeric, is_ascii_alpha, is_ascii_digit.
  intros Hc. boolN. lia.
Qed.


Lemma code_points_plain (s : jsstring) :
  Forall (fun c => is_high_surrogate c = false /\ is_low_surrogate c = false) s ->
  code_points s = s.
Proof.
  induction 1 as [|c s [Hh Hl] _ IH]; [done|]. simpl. by rewrite Hh, Hl, IH.
Qed.

Lemma strip_leading_plain (c : N) (s : list N) :
  is_c0_control_or_space c = false -> strip_leading (c :: s) = c :: s.
Proof. intros Hc. simpl. by rewrite Hc. Qed.

Lemma preprocess_plain (s : list N) :
  Forall (fun c => is_c0_control_or_space c = false /\ is_tab_or_newline c = false) s ->
  preprocess s = s.
Proof.
  intros Hs. unfold preprocess.
  assert (forall l, Forall (fun c => is_c0_control_or_space c = false /\
                                     is_tab_or_newline c = false) l ->
                    strip_leading l = l) as Hstrip.
  { intros [|c l] Hl; [done|]. apply Forall_cons in Hl as [[Hc _] _].
    by apply strip_leading_plain. }
  rewrite (Hstrip s Hs). rewrite Hstrip by by apply Forall_rev.
  rewrite rev_involutive.
  induction Hs as [|c s [_ Hc] _ IH]; [done|].
  cbn [filter list_filter]. rewrite decide_True by (rewrite Hc; done).
  f_equal. exact IH.
Qed.




(** *** The scheme and the kind of path of a parsed URL *)

Lemma fragment_state_shape (u : url) (s : list N) :
  scheme (fragment_state u s) = scheme u /\ path (fragment_state u s) = path u.
Proof. done. Qed.

Lemma query_state_shape (u : url) (s : list N) :
  scheme (query_state u s) = scheme u /\ path (query_state u s) = path u.
Proof.
  unfold query_state. destruct (span_until _ s) as [q rest].
  destruct rest; done.
Qed.

Lemma after_path_shape (u : url) (s : list N) :
  scheme (after_path u s) = scheme u /\ path (after_path u s) = path u.
Proof.
  unfold after_path. destruct s as [|c s]; [done|].
  destruct (c =? 0x3F); [apply query_state_shape|].
  destruct (c =? 0x23); [apply fragment_state_shape|done].
Qed.

Lemma run_path_shape (u : url) (segs : list (list N)) (buf s : list N) :
  scheme (run_path u segs buf s) = scheme u /\
  exists segs', path (run_path u segs buf s) = ListPath segs'.
Proof.
  unfold run_path. destruct (path_state _ _ segs buf s) as [segs' rest].
  destruct (after_path_shape (set_path u (ListPath segs')) rest) as [-> ->].
  eauto.
Qed.

Lemma run_path_keeps (u : url) (segs : list (list N)) (buf s : list N) :
  keeps_shape u (run_path u segs buf s).
Proof.
  destruct (run_path_shape u segs buf s) as [E1 E2]. split; [done|eauto].
Qed.

Lemma path_start_state_keeps (u : url) (s : list N) :
  keeps_shape u (path_start_state u s).
Proof.
  unfold path_start_state. destruct (is_special (scheme u)) eqn:Hsp.
  - destruct s as [|c s]; [apply run_path_keeps|].
    destruct (is_slash c); apply run_path_keeps.
  - split; [|by rewrite Hsp]. destruct s as [|c s]; [done|].
    destruct (c =? 0x3F); [apply query_state_shape|].
    destruct (c =? 0x23); [apply fragment_state_shape|].
    destruct (c =? 0x2F); apply run_path_shape.
Qed.

Lemma keeps_shape_set (u u' r : url) :
  scheme u' = scheme u -> keeps_shape u' r -> keeps_shape u r.
Proof. unfold keeps_shape. intros ->. done. Qed.

Lemma port_state_keeps (u r : url) (s : list N) :
  port_state u s = Some r -> keeps_shape u r.
Proof.
  unfold port_state. destruct (span_until _ s) as [digits rest].
  destruct (match rest with [] => true | c :: _ => _ end); [|done].
  destruct digits as [|d digits].
  - intros [= <-]. apply path_start_state_keeps.
  - destruct (65535 <? _); [done|]. intros [= <-].
    eapply keeps_shape_set; [|apply path_start_state_keeps]. done.
Qed.

Section ParserFacts.
Context `{UnicodeToASCII} `{ForeignStyle}.

Lemma host_state_keeps (u r : url) (s : list N) :
  host_state u s = Some r -> keeps_shape u r.
Proof.
  unfold host_state. destruct (host_end _ false s) as [buf rest].
  case_bool_decide.
  - destruct (truthy buf); [|done].
    destruct (parse_host buf _) as [h|]; [|done]. simpl.
    intros Hp%port_state_keeps. eapply keeps_shape_set; [|exact Hp]. done.
  - destruct (_ && _); [done|].
    destruct (parse_host buf _) as [h|]; [|done]. simpl. intros [= <-].
    eapply keeps_shape_set; [|apply path_start_state_keeps]. done.
Qed.

Lemma authority_state_keeps (u r : url) (s : list N) :
  authority_state u s = Some r -> keeps_shape u r.
Proof.
  unfold authority_state. destruct (span_until _ s) as [authority rest].
  destruct (split_last_at authority) as [[creds hostport]|];
    [|apply host_state_keeps].
  destruct (truthy hostport); [|done].
  destruct (span_until _ creds) as [user pass].
  intros Hh%host_state_keeps. eapply keeps_shape_set; [|exact Hh]. done.
Qed.

Lemma special_authority_ignore_slashes_state_keeps (u r : url) (s : list N) :
  special_authority_ignore_slashes_state u s = Some r -> keeps_shape u r.
Proof.
  induction s as [|c s IH]; simpl; [apply authority_state_keeps|].
  destruct (is_slash c); [exact IH|apply authority_state_keeps].
Qed.

Lemma special_authority_slashes_state_keeps (u r : url) (s : list N) :
  special_authority_slashes_state u s = Some r -> keeps_shape u r.
Proof.
  unfold special_authority_slashes_state.
  destruct (startsWith s _); apply special_authority_ignore_slashes_state_keeps.
Qed.

Lemma path_or_authority_state_keeps (u r : url) (s : list N) :
  path_or_authority_state u s = Some r -> keeps_shape u r.
Proof.
  unfold path_or_authority_state. destruct (startsWith s _).
  - apply authority_state_keeps.
  - intros [= <-]. apply run_path_keeps.
Qed.

Lemma file_host_state_keeps (r : url) (s : list N) :
  file_host_state s = Some r -> keeps_shape file_url r.
Proof.
  unfold file_host_state. destruct (span_until _ s) as [buf rest].
  destruct (is_windows_drive_letter buf); [intros [= <-]; apply run_path_keeps|].
  destruct (negb (truthy buf)); [intros [= <-]; apply path_start_state_keeps|].
  destruct (parse_host buf false) as [h|]; [|done]. simpl. intros [= <-].
  eapply keeps_shape_set; [|apply path_start_state_keeps]. done.
Qed.

Lemma file_slash_state_keeps (r : url) (s : list N) :
  file_slash_state None s = Some r -> keeps_shape file_url r.
Proof.
  unfold file_slash_state. simpl.
  destruct s as [|c s]; [intros [= <-]; apply run_path_keeps|].
  destruct (is_slash c); [apply file_host_state_keeps|].
  intros [= <-]; apply run_path_keeps.
Qed.

Lemma file_state_keeps (r : url) (s : list N) :
  file_state None s = Some r -> keeps_shape file_url r.
Proof.
  unfold file_state. simpl.
  destruct s as [|c s]; [intros [= <-]; apply run_path_keeps|].
  destruct (is_slash c); [apply file_slash_state_keeps|].
  intros [= <-]; apply run_path_keeps.
Qed.

(** A URL parsed without a base has the scheme that its text starts with,
    in lower case; and a special scheme comes with a list of path
    segments. *)
Lemma basic_parse_shape (input : list N) (r : url) :
  basic_parse input None = Some r ->
  (exists rest, split_scheme (preprocess input) = Some (scheme r, rest)) /\
  (is_special (scheme r) = true -> exists segs, path r = ListPath segs).
Proof.
  unfold basic_parse.
  destruct (split_scheme (preprocess input)) as [[sch rest]|]; [|done].
  destruct (list_eqb sch (js "file")) eqn:Hfile.
  - apply list_eqb_true in Hfile as ->.
    intros [E1 E2]%file_state_keeps. change (scheme file_url) with (js "file") in *.
    rewrite E1. split; [eauto|]. intros _. by apply E2.
  - destruct (is_special sch) eqn:Hsp.
    + intros [E1 E2]%special_authority_slashes_state_keeps.
      change (scheme (scheme_only sch)) with sch in *. rewrite E1.
      split; [eauto|]. intros _. by apply E2.
    + destruct (startsWith rest _).
      * intros [E1 E2]%path_or_authority_state_keeps.
        change (scheme (scheme_only sch)) with sch in *. rewrite E1.
        split; [eauto|]. by rewrite Hsp.
      * intros [= <-]. unfold opaque_path_state.
        destruct (opaque_path rest) as [p rest'].
        destruct (after_path_shape (set_path (scheme_only sch) (OpaquePath p)) rest')
          as [-> _].
        change (scheme (set_path (scheme_only sch) (OpaquePath p))) with sch.
        split; [eauto|]. by rewrite Hsp.
Qed.

End ParserFacts.

(** ** Rewriting a rewritten document *)

Lemma length_sextets (bs : list N) : (length bs <= length (sextets bs))%nat.
Proof.
  induction bs as [bs IH] using (induction_ltof1 _ length). unfold ltof in IH.
  destruct bs as [|b0 [|b1 [|b2 rest]]]; cbn [sextets length]; try lia.
  specialize (IH rest ltac:(simpl; lia)). lia.
Qed.

Lemma length_utf8_bytes (cp : N) :
  (1 <= length (utf8_bytes cp))%nat /\
  (0x10000 <= cp -> length (utf8_bytes cp) = 4%nat).
Proof.
  unfold utf8_bytes.
  destruct (cp <? 0x80) eqn:E1; [split; [done|boolN; lia]|].
  destruct (cp <? 0x800) eqn:E2; [split; [simpl; lia|boolN; lia]|].
  destruct (cp <? 0x10000) eqn:E3; [split; [simpl; lia|boolN; lia]|].
  split; [simpl; lia|done].
Qed.

Lemma length_utf8_encode (s : jsstring) : (length s <= length (utf8_encode s))%nat.
Proof.
  unfold utf8_encode.
  induction s as [s IH] using (induction_ltof1 _ length). unfold ltof in IH.
  destruct s as [|c s]; [done|]. cbn [code_points].
  assert (forall cp rest, (length rest <= length (flat_map utf8_bytes (code_points rest)))%nat ->
            (S (length rest) <= length (flat_map utf8_bytes (cp :: code_points rest)))%nat)
    as Hone.
  { intros cp rest Hrest. cbn [flat_map]. rewrite length_app.
    destruct (length_utf8_bytes cp) as [H1 _]. lia. }
  destruct (is_high_surrogate c) eqn:Hc.
  - destruct s as [|d s]; [simpl; lia|].
    destruct (is_low_surrogate d) eqn:Hd.
    + cbn [flat_map length]. rewrite length_app.
      rewrite (proj2 (length_utf8_bytes _))
        by (rewrite <- N.add_assoc; apply N.le_add_r).
      specialize (IH s ltac:(simpl; lia)). lia.
    + apply (Hone 0xFFFD (d :: s)), IH. simpl. lia.
  - destruct (is_low_surrogate c); apply Hone, IH; simpl; lia.
Qed.

(** A token is at least as long as the text it encodes. *)
Lemma length_b64Encode (s : jsstring) : (length s <= length (b64Encode s))%nat.
Proof.
  unfold b64Encode, base64url_encode. rewrite length_map.
  pose proof (length_utf8_encode s). pose proof (length_sextets (utf8_encode s)). lia.
Qed.


Section SecondRewrite.
Context `{UnicodeToASCII} `{ForeignStyle}.

Lemma isHttpUrl_inv (s : jsstring) :
  isHttpUrl s = true ->
  exists b, URL_new s None = Some b /\
    (scheme b = js "http" \/ scheme b = js "https") /\
    exists segs, path b = ListPath segs.
Proof.
  unfold isHttpUrl. destruct (URL_new s None) as [b|] eqn:Hb; [|done].
  intros Hp. exists b. split; [done|].
  assert (scheme b = js "http" \/ scheme b = js "https") as Hs.
  { apply orb_prop in Hp as [Hp|Hp]; apply list_eqb_true in Hp;
      unfold protocol in Hp; [left|right].
    - change (js "http:") with (js "http" ++ [0x3A]) in Hp. by apply app_inv_tail in Hp.
    - change (js "https:") with (js "https" ++ [0x3A]) in Hp. by apply app_inv_tail in Hp. }
  split; [done|]. unfold URL_new in Hb.
  apply basic_parse_shape in Hb as [_ Hl]. apply Hl. by destruct Hs as [-> | ->].
Qed.


End SecondRewrite.

Section SecondRewriteTheorem.
Context `{UnicodeToASCII} `{ForeignStyle}.


End SecondRewriteTheorem.



(** ** The passes over a document, element by element *)

Lemma node_forall_ind (P : node -> Prop) :
  (forall name attribs children,
     Forall P children -> P (Element name attribs children)) ->
  (forall ns name attribs children,
     Forall P children -> P (Foreign ns name attribs children)) ->
  (forall d, P (Text d)) -> (forall d, P (Comment d)) -> (forall d, P (Doctype d)) ->
  forall n, P n.
Proof.
  intros He Hf Ht Hc Hd.
  fix IH 1.
  intros [name attribs children|ns name attribs children|d|d|d];
    [apply He|apply Hf|apply Ht|apply Hc|apply Hd].
  all: induction children as [|c children IHc]; constructor; [apply IH|exact IHc].
Qed.

Lemma flat_map_map_ext {A B C} (f : B -> list C) (g : A -> B) (h : A -> list C)
    (l : list A) :
  Forall (fun x => f (g x) = h x) l -> flat_map f (map g l) = flat_map h l.
Proof. induction 1 as [|x l Hx _ IH]; simpl; [done|]. by rewrite Hx, IH. Qed.

(** A pass that rewrites attributes acts on the elements of any name one by
    one, in document order. *)
Lemma elements_named_each (sel : jsstring -> attributes -> bool)
    (cb : attributes -> attributes) (tag : jsstring) (n : node) :
  elements_named tag (each sel (fun _ attribs children => (cb attribs, children)) n) =
  map (rewrite_if sel cb tag) (elements_named tag n).
Proof.
  induction n as [name attribs children IH|ns name attribs children IH| | |]
    using node_forall_ind; try done.
  all: cbn [each elements_named].
  all: assert (flat_map (elements_named tag)
            (map (each sel (fun _ attribs children => (cb attribs, children))) children) =
          flat_map (fun c => map (rewrite_if sel cb tag)
                             (elements_named tag c)) children) as Hch
    by by apply flat_map_map_ext.
  all: assert (forall l : list node,
            flat_map (fun c => map (rewrite_if sel cb tag)
                             (elements_named tag c)) l =
            map (rewrite_if sel cb tag)
              (flat_map (elements_named tag) l)) as Hmap
    by (induction l as [|c l IHl]; simpl; [done|]; by rewrite IHl, map_app).
  all: destruct (sel name attribs) eqn:Hsel; cbn [elements_named];
    rewrite Hch, Hmap, map_app;
    f_equal; destruct (list_eqb name tag) eqn:E; try done;
    apply list_eqb_true in E; subst; cbn [map]; unfold rewrite_if; by rewrite Hsel.
Qed.

Lemma elements_named_each_attribs sel cb tag (doc : document) :
  flat_map (elements_named tag) (each_attribs sel cb doc) =
  map (rewrite_if sel cb tag) (flat_map (elements_named tag) doc).
Proof.
  unfold each_attribs, each_doc.
  induction doc as [|n doc IH]; simpl; [done|].
  by rewrite IH, map_app, elements_named_each.
Qed.

Lemma raw_text_styles_each (sel : jsstring -> attributes -> bool)
    (cb : attributes -> attributes) (n : node) :
  raw_text_styles (each sel (fun _ attribs children => (cb attribs, children)) n) =
  raw_text_styles n /\
  is_text (each sel (fun _ attribs children => (cb attribs, children)) n) = is_text n.
Proof.
  induction n as [name attribs children IH|ns name attribs children IH| | |]
    using node_forall_ind; try done.
  all: split; [|cbn [each]; by destruct (sel name attribs)].
  all: assert (forallb raw_text_styles
                 (map (each sel (fun _ attribs children => (cb attribs, children)))
                    children) =
               forallb raw_text_styles children) as Hraw
    by (induction IH as [|c l [Hc _] _ IHl]; cbn [map forallb]; [done|];
        by rewrite Hc, IHl).
  all: assert (forallb is_text
                 (map (each sel (fun _ attribs children => (cb attribs, children)))
                    children) =
               forallb is_text children) as Htext
    by (clear Hraw; induction IH as [|c l [_ Hc] _ IHl]; cbn [map forallb]; [done|];
        by rewrite Hc, IHl).
  all: cbn [each].
  all: destruct (sel name attribs); cbn [raw_text_styles]; by rewrite Hraw, ?Htext.
Qed.

Lemma raw_text_styles_each_attribs sel cb (doc : document) :
  forallb raw_text_styles (each_attribs sel cb doc) = forallb raw_text_styles doc.
Proof.
  unfold each_attribs, each_doc.
  induction doc as [|n doc IH]; cbn [map forallb]; [done|].
  by rewrite IH, (proj1 (raw_text_styles_each sel cb n)).
Qed.

Lemma forallb_Forall_true {A} (f : A -> bool) (l : list A) :
  forallb f l = true -> Forall (fun x => f x = true) l.
Proof.
  induction l as [|x l IH]; simpl; [constructor|].
  intros [Hx Hl]%andb_prop. constructor; [done|by apply IH].
Qed.

Section DocumentFacts.
Context `{UnicodeToASCII} `{ForeignStyle}.

Lemma elements_named_texts (tag : jsstring) (l : list node) :
  forallb is_text l = true -> flat_map (elements_named tag) l = [].
Proof.
  induction l as [|n l IH]; [done|]. destruct n; cbn [forallb is_text andb]; try done.
  all: intros Hl; cbn [flat_map elements_named app]; by apply IH.
Qed.

Lemma elements_named_style_pass (target tag : jsstring) (n : node) :
  raw_text_styles n = true ->
  elements_named tag (each (by_tag (js "style")) (rewrite_style_element target) n) =
  elements_named tag n.
Proof.
  induction n as [name attribs children IH|ns name attribs children IH| | |]
    using node_forall_ind; try done.
  - cbn [raw_text_styles each]. intros [Hstyle Hch]%andb_prop.
    unfold by_tag at 1. destruct (list_eqb name (js "style")) eqn:E.
    + cbn [rewrite_style_element elements_named]. f_equal.
      rewrite (elements_named_texts tag children Hstyle).
      unfold parse_rawtext. by destruct (map _ _).
    + cbn [elements_named]. f_equal. apply flat_map_map_ext.
      rewrite forallb_forall in Hch. rewrite Forall_forall in IH |- *.
      intros c Hc. apply IH; [done|]. by apply Hch, list_elem_of_In.
  - cbn [raw_text_styles each]. intros [Hstyle Hch]%andb_prop.
    apply negb_true_iff in Hstyle. unfold by_tag at 1. rewrite Hstyle.
    cbn [elements_named]. f_equal. apply flat_map_map_ext.
    rewrite forallb_forall in Hch. rewrite Forall_forall in IH |- *.
    intros c Hc. apply IH; [done|]. by apply Hch, list_elem_of_In.
Qed.

Lemma elements_named_head_pass (tag : jsstring) (n : node) :
  tag <> js "script" ->
  elements_named tag
    (each (by_tag (js "head"))
       (fun _ attribs children => (attribs, children ++ clientScript)) n) =
  elements_named tag n.
Proof.
  intros Htag.
  induction n as [name attribs children IH|ns name attribs children IH| | |]
    using node_forall_ind; try done.
  all: cbn [each].
  all: assert (flat_map (elements_named tag)
            (map (each (by_tag (js "head"))
                    (fun _ attribs children => (attribs, children ++ clientScript)))
               children) = flat_map (elements_named tag) children) as Hch
    by by apply flat_map_map_ext.
  all: destruct (by_tag (js "head") name attribs); cbn [elements_named]; f_equal;
    [|exact Hch].
  all: rewrite flat_map_app, Hch.
  all: assert (flat_map (elements_named tag) clientScript = []) as ->; [|apply app_nil_r].
  all: unfold clientScript; cbn [flat_map elements_named app].
  all: assert (list_eqb (js "script") tag = false) as ->
    by (apply list_eqb_false; congruence).
  all: reflexivity.
Qed.

Lemma flat_map_each_doc_ext (tag : jsstring) sel cb (doc : document) :
  Forall (fun n => elements_named tag (each sel cb n) = elements_named tag n) doc ->
  flat_map (elements_named tag) (each_doc sel cb doc) =
  flat_map (elements_named tag) doc.
Proof. intros Hdoc. unfold each_doc. by apply flat_map_map_ext. Qed.

(** The elements of any name but [script], before and after the passes. *)
Lemma elements_named_rewrite_document (target tag : jsstring) (doc : document) :
  tag <> js "script" -> forallb raw_text_styles doc = true ->
  flat_map (elements_named tag) (rewrite_document target doc) =
  map (rewrite_element target tag) (flat_map (elements_named tag) doc).
Proof.
  intros Htag Hraw. unfold rewrite_document.
  rewrite flat_map_each_doc_ext
    by (apply Forall_forall; intros n _; by apply elements_named_head_pass).
  rewrite flat_map_each_doc_ext.
  2:{ eapply Forall_impl; [|intros n Hn; apply elements_named_style_pass, Hn].
      apply forallb_Forall_true.
      unfold resourceSelectors. cbn [foldl].
      by rewrite !raw_text_styles_each_attribs. }
  unfold resourceSelectors. cbn [foldl].
  rewrite !elements_named_each_attribs, !map_map.
  apply map_ext. intros a. unfold rewrite_element, resourceSelectors.
  cbn [foldl]. reflexivity.
Qed.

End DocumentFacts.

Section ElementFacts.
Context `{UnicodeToASCII} `{ForeignStyle}.























(** The scripts under a node after the pass over the heads: one more for
    every head. *)
Lemma text_content_each sel cb (children : list node) :
  text_content (map (each sel cb) children) = text_content children.
Proof.
  induction children as [|c children IH]; [done|].
  destruct c as [name attribs ch|ns name attribs ch|d|d|d]; cbn [map each text_content];
    try by rewrite IH.
  - destruct (sel name attribs); [destruct (cb None attribs _)|]; exact IH.
  - destruct (sel name attribs); [destruct (cb (Some ns) attribs _)|]; exact IH.
Qed.

(** The scripts after a pass that rewrites attributes. *)
Lemma scripts_with_client_each (f : attributes -> attributes)
    (sel : jsstring -> attributes -> bool) (cb : attributes -> attributes)
    (n : node) :
  scripts_with_client f (each sel (fun _ attribs children => (cb attribs, children)) n) =
  scripts_with_client (fun a => f (rewrite_if sel cb (js "script") a)) n.
Proof.
  induction n as [name attribs children IH|ns name attribs children IH| | |]
    using node_forall_ind; try done.
  all: cbn [each].
  all: assert (flat_map (scripts_with_client f)
                 (map (each sel (fun _ attribs children => (cb attribs, children)))
                    children) =
               flat_map (scripts_with_client
                           (fun a => f (rewrite_if sel cb (js "script") a)))
                 children) as Hch
    by by apply flat_map_map_ext.
  all: destruct (sel name attribs) eqn:Hsel; cbn [scripts_with_client];
    rewrite Hch, text_content_each; f_equal;
    destruct (list_eqb name (js "script")) eqn:E; try done;
    apply list_eqb_true in E; subst; unfold rewrite_if; by rewrite Hsel.
Qed.

Lemma scripts_with_client_each_attribs f sel cb (doc : document) :
  flat_map (scripts_with_client f) (each_attribs sel cb doc) =
  flat_map (scripts_with_client (fun a => f (rewrite_if sel cb (js "script") a))) doc.
Proof.
  unfold each_attribs, each_doc. apply flat_map_map_ext, Forall_forall.
  intros n _. apply scripts_with_client_each.
Qed.

Lemma parse_rawtext_texts (s : jsstring) : forallb is_text (parse_rawtext s) = true.
Proof. unfold parse_rawtext. by destruct (map _ _). Qed.

Lemma scripts_with_client_texts f (l : list node) :
  forallb is_text l = true -> flat_map (scripts_with_client f) l = [].
Proof.
  induction l as [|n l IH]; [done|]. destruct n; cbn [forallb is_text andb]; try done.
  all: intros Hl; cbn [flat_map scripts_with_client app]; by apply IH.
Qed.

(** The pass over the style elements changes no script. *)
Lemma scripts_with_client_style_pass f (target : jsstring) (n : node) :
  raw_text_styles n = true ->
  scripts_with_client f
    (each (by_tag (js "style")) (rewrite_style_element target) n) =
  scripts_with_client f n.
Proof.
  induction n as [name attribs children IH|ns name attribs children IH| | |]
    using node_forall_ind; try done.
  all: cbn [raw_text_styles each]; intros [Hstyle Hch]%andb_prop.
  all: assert (flat_map (scripts_with_client f)
                 (map (each (by_tag (js "style")) (rewrite_style_element target))
                    children) =
               flat_map (scripts_with_client f) children) as Hsame
    by (apply flat_map_map_ext;
        rewrite forallb_forall in Hch; rewrite Forall_forall in IH |- *;
        intros c Hc; apply IH; [done|]; by apply Hch, list_elem_of_In).
  - unfold by_tag at 1. destruct (list_eqb name (js "style")) eqn:E.
    + apply list_eqb_true in E as ->.
      cbn [rewrite_style_element scripts_with_client].
      change (list_eqb (js "style") (js "script")) with false.
      change (list_eqb (js "style") (js "head")) with false.
      rewrite (scripts_with_client_texts f children Hstyle).
      by rewrite scripts_with_client_texts by apply parse_rawtext_texts.
    + cbn [scripts_with_client]. by rewrite Hsame, text_content_each.
  - apply negb_true_iff in Hstyle. unfold by_tag at 1. rewrite Hstyle.
    cbn [scripts_with_client]. by rewrite Hsame, text_content_each.
Qed.

(** The scripts after the pass over the heads. *)
Lemma scripts_head_pass (n : node) :
  scripts (each (by_tag (js "head"))
             (fun _ attribs children => (attribs, children ++ clientScript)) n) =
  scripts_with_client (fun a => a) n.
Proof.
  induction n as [name attribs children IH|ns name attribs children IH| | |]
    using node_forall_ind; try done.
  all: cbn [each].
  all: assert (flat_map scripts
                 (map (each (by_tag (js "head"))
                         (fun _ attribs children => (attribs, children ++ clientScript)))
                    children) =
               flat_map (scripts_with_client (fun a => a)) children) as Hch
    by by apply flat_map_map_ext.
  all: assert (flat_map scripts clientScript = [([], clientScript_text)]) as Hclient
    by (unfold clientScript; cbn [flat_map scripts app text_content];
        change (list_eqb (js "script") (js "script")) with true;
        by rewrite !app_nil_r).
  all: unfold by_tag at 1; destruct (list_eqb name (js "head")) eqn:E;
    cbn [scripts scripts_with_client].
  all: try (apply list_eqb_true in E as ->;
            change (list_eqb (js "head") (js "script")) with false;
            cbn [app]; rewrite flat_map_app, Hch, Hclient; reflexivity).
  all: by rewrite Hch, text_content_each, E, app_nil_r.
Qed.

(** Every head ends with the client script after the pass over the heads. *)
Lemma head_children_head_pass (n : node) :
  Forall (fun children => clientScript `suffix_of` children)
    (head_children (each (by_tag (js "head"))
                      (fun _ attribs children => (attribs, children ++ clientScript)) n)).
Proof.
  induction n as [name attribs children IH|ns name attribs children IH| | |]
    using node_forall_ind; try by constructor.
  all: cbn [each].
  all: assert (Forall (fun children => clientScript `suffix_of` children)
                 (flat_map head_children
                    (map (each (by_tag (js "head"))
                            (fun _ attribs children =>
                               (attribs, children ++ clientScript)))
                       children))) as Hch
    by (induction IH as [|c l Hc _ IHl]; cbn [map flat_map]; [constructor|];
        by apply Forall_app).
  all: unfold by_tag at 1; destruct (list_eqb name (js "head")) eqn:E;
    cbn [head_children]; rewrite ?E; cbn [app]; [|exact Hch].
  all: constructor; [by apply suffix_app_r|].
  all: rewrite flat_map_app; apply Forall_app; split; [exact Hch|].
  all: unfold clientScript; cbn [flat_map head_children app];
    change (list_eqb (js "script") (js "head")) with false; constructor.
Qed.

Lemma length_head_children (n : node) :
  length (head_children n) = length (elements_named (js "head") n).
Proof.
  induction n as [name attribs children IH|ns name attribs children IH| | |]
    using node_forall_ind; try done.
  all: cbn [head_children elements_named]; rewrite !length_app; f_equal;
    [by destruct (list_eqb name (js "head"))|].
  all: induction IH as [|c l Hc _ IHl]; cbn [flat_map]; [done|];
    by rewrite !length_app, Hc, IHl.
Qed.

(** X6: the client script is appended to every head and to nothing else:
    the scripts of the rewritten document are, in document order, the
    scripts of the original with their text as it was and their attributes
    rewritten, and after the last script of every head one script without
    attributes whose text is the client script; the children of every head
    end with the nodes of the client script; and the heads are as many as
    they were. *)
Theorem client_script_once_per_head (target : jsstring) (doc : document) :
  forallb raw_text_styles doc = true ->
  flat_map scripts (rewrite_document target doc) =
    flat_map (scripts_with_client (rewrite_element target (js "script"))) doc /\
  Forall (fun children => clientScript `suffix_of` children)
    (flat_map head_children (rewrite_document target doc)) /\
  length (flat_map head_children (rewrite_document target doc)) =
    length (flat_map head_children doc).
Proof.
  intros Hraw. split; [|split].
  - unfold rewrite_document.
    set (before := each_attribs (by_attribute (js "style")) _ _).
    assert (forallb raw_text_styles before = true) as Hbefore.
    { unfold before, resourceSelectors. cbn [foldl].
      by rewrite !raw_text_styles_each_attribs. }
    unfold each_doc at 1.
    rewrite (flat_map_map_ext scripts _ (scripts_with_client (fun a => a)))
      by (apply Forall_forall; intros n _; apply scripts_head_pass).
    unfold each_doc.
    rewrite (flat_map_map_ext (scripts_with_client (fun a => a)) _
               (scripts_with_client (fun a => a))).
    2:{ eapply Forall_impl; [|intros n Hn; apply scripts_with_client_style_pass, Hn].
        by apply forallb_Forall_true. }
    unfold before, resourceSelectors. cbn [foldl].
    rewrite !scripts_with_client_each_attribs.
    unfold rewrite_element, resourceSelectors. cbn [foldl]. reflexivity.
  - unfold rewrite_document, each_doc at 1.
    induction (each_doc (by_tag (js "style")) _ _) as [|n l IH];
      cbn [map flat_map]; [constructor|].
    apply Forall_app. split; [apply head_children_head_pass|exact IH].
  - assert (forall d : document,
              length (flat_map head_children d) =
              length (flat_map (elements_named (js "head")) d)) as Hlen.
    { induction d as [|n d IH]; [done|]. cbn [flat_map].
      by rewrite !length_app, length_head_children, IH. }
    rewrite !Hlen, elements_named_rewrite_document by done.
    apply length_map.
Qed.



End ElementFacts.

(** ** The document rewrite on a sample page *)






Lemma client_script_once_per_head_witness :
  flat_map scripts (rewrite_document (js "https://example.com/") Sample.site) =
    flat_map (scripts_with_client
                (rewrite_element (js "https://example.com/") (js "script")))
      Sample.site /\
  Forall (fun children => clientScript `suffix_of` children)
    (flat_map head_children
       (rewrite_document (js "https://example.com/") Sample.site)) /\
  length (flat_map head_children
            (rewrite_document (js "https://example.com/") Sample.site)) =
    length (flat_map head_children Sample.site).
Proof. apply client_script_once_per_head. reflexivity. Defined.

(** The scripts of the sample page after the rewrite: its one script, and
    the client script. *)
Lemma client_script_of_the_sample_page :
  flat_map scripts (rewrite_document (js "https://example.com/") Sample.site) =
  [([(js "src", js "/p/aHR0cHM6Ly9leGFtcGxlLmNvbS9hcHAuanM")], []);
   ([], clientScript_text)].
Proof. vm_compute. reflexivity. Qed.

(** The href of the stylesheet link of the sample page after the rewrite,
    and what its token decodes to: a proxy path, not the stylesheet. *)
Lemma stylesheet_link_is_encoded_twice :
  map (attr (js "href"))
    (flat_map (elements_named (js "link"))
       (rewrite_document (js "https://example.com/") Sample.site)) =
  [Some (js "/p/aHR0cHM6Ly9leGFtcGxlLmNvbS9wL2FIUjBjSE02THk5bGVHRnRjR3hsTG1OdmJTOXpMbU56Y3c");
   Some (js "/p/aHR0cHM6Ly9leGFtcGxlLmNvbS9pLnBuZw")] /\
  b64Decode (js "aHR0cHM6Ly9leGFtcGxlLmNvbS9wL2FIUjBjSE02THk5bGVHRnRjR3hsTG1OdmJTOXpMbU56Y3c") =
  js "https://example.com/p/aHR0cHM6Ly9leGFtcGxlLmNvbS9zLmNzcw".
Proof. split; vm_compute; reflexivity. Qed.


(** ** The codec on every string *)

Lemma is_base64url_char_base64url_char (v : N) :
  is_base64url_char (base64url_char v) = true.
Proof.
  unfold base64url_char, is_base64url_char, is_ascii_alphanumeric, is_ascii_alpha,
    is_ascii_digit.
  repeat match goal with
  | |- context [if ?c then _ else _] => destruct c eqn:?
  end; boolN; lia.
Qed.

Lemma b64Encode_chars (s : jsstring) :
  Forall (fun c => is_base64url_char c = true) (b64Encode s).
Proof.
  unfold b64Encode, base64url_encode. apply Forall_fmap, Forall_forall.
  intros v _. apply is_base64url_char_base64url_char.
Qed.

(** X8: a token has characters of the URL-safe alphabet only: letters, digits,
    [-] and [_]; no [+], [/], [=] or [&]. *)
Theorem b64Encode_alphabet (s : jsstring) :
  Forall (fun c => is_base64url_char c = true) (b64Encode s).
Proof. apply b64Encode_chars. Qed.

Lemma code_points_scalar_16 (s : jsstring) :
  Forall (fun c => c < 0x10000) s -> forallb is_scalar_value (code_points s) = true.
Proof.
  induction s as [s IH] using (induction_ltof1 _ length). unfold ltof in IH.
  destruct s as [|c s]; [done|]. intros [Hc16 Hs]%Forall_cons_1.
  assert (forallb is_scalar_value (code_points s) = true) as Htail
    by (apply IH; [simpl; lia|done]).
  assert (is_scalar_value 0xFFFD = true) as Hrep by reflexivity.
  cbn [code_points].
  destruct (is_high_surrogate c) eqn:Hc.
  - destruct s as [|d s]; [done|].
    destruct (is_low_surrogate d) eqn:Hd; [|cbn [forallb]; by rewrite Htail].
    cbn [forallb]. apply Forall_cons_1 in Hs as [_ Hs].
    rewrite IH by (simpl; lia || done).
    rewrite andb_true_r. unfold is_scalar_value, is_surrogate.
    unfold is_high_surrogate, is_low_surrogate in *. unbool.
    rewrite N.shiftl_mul_pow2. change (2 ^ 10) with 1024.
    apply andb_true_intro; split; [apply N.ltb_lt; lia|].
    apply negb_true_iff, andb_false_iff. right. apply N.leb_gt. lia.
  - destruct (is_low_surrogate c) eqn:Hl; cbn [forallb]; rewrite Htail; [done|].
    rewrite andb_true_r. unfold is_scalar_value, is_surrogate.
    unfold is_high_surrogate, is_low_surrogate in *.
    apply andb_true_intro; split; [apply N.ltb_lt; lia|].
    apply negb_true_iff. boolN. lia.
Qed.

Lemma utf8_bytes_scalar (cps : list N) :
  forallb is_scalar_value cps = true ->
  Forall (fun b => b < 256) (flat_map utf8_bytes cps).
Proof.
  induction cps as [|cp cps IH]; [constructor|].
  cbn [forallb flat_map]. intros [H1 H2]%andb_prop.
  apply Forall_app. split; [by apply utf8_cp_facts|by apply IH].
Qed.

(** What comes back from the codec, for every string of 16-bit code units. *)
Lemma b64Decode_b64Encode_code_points (s : jsstring) :
  Forall (fun c => c < 0x10000) s ->
  b64Decode (b64Encode s) = from_code_points (code_points s).
Proof.
  intros Hs%code_points_scalar_16. unfold b64Decode, b64Encode, utf8_decode.
  rewrite base64url_decode_encode by by apply utf8_bytes_scalar.
  unfold utf8_encode. by rewrite utf8_decode_encode.
Qed.

Lemma from_code_points_fixed (s : jsstring) :
  Forall (fun c => c < 0x10000) s ->
  from_code_points (code_points s) = s -> is_usv_string s = true.
Proof.
  induction s as [s IH] using (induction_ltof1 _ length). unfold ltof in IH.
  destruct s as [|c s]; [done|]. intros [Hc16 Hs]%Forall_cons_1.
  cbn [code_points is_usv_string].
  destruct (is_high_surrogate c) eqn:Hc.
  - destruct s as [|d s].
    + intros [= E]. subst c. done.
    + destruct (is_low_surrogate d) eqn:Hd.
      * cbn [from_code_points flat_map]. rewrite code_units_of_pair by done.
        intros [= E]. apply Forall_cons_1 in Hs as [_ Hs].
        cbn [andb]. apply IH; [simpl; lia|done|done].
      * intros [= E]. subst c. done.
  - destruct (is_low_surrogate c) eqn:Hl.
    + intros [= E]. subst c. done.
    + cbn [from_code_points flat_map]. unfold code_units_of.
      apply N.ltb_lt in Hc16 as Hlt. rewrite Hlt. intros [= E].
      cbn [negb andb]. apply IH; [simpl; lia|done|done].
Qed.

(** X9: the codec on every string of 16-bit code units: encoding and decoding
    gives the string with U+FFFD in the place of every surrogate that is
    not half of a pair, and so the string itself exactly when it has
    none. *)
Theorem b64Decode_b64Encode_lone_surrogates (s : jsstring) :
  Forall (fun c => c < 0x10000) s ->
  b64Decode (b64Encode s) = from_code_points (code_points s) /\
  (b64Decode (b64Encode s) = s <-> is_usv_string s = true).
Proof.
  intros Hs. rewrite b64Decode_b64Encode_code_points by done.
  split; [done|]. split.
  - by apply from_code_points_fixed.
  - apply from_code_points_code_points.
Qed.

Lemma b64Decode_b64Encode_lone_surrogates_witness :
  b64Decode (b64Encode (js "a" ++ [0xD83D] ++ js "b")) =
    from_code_points (code_points (js "a" ++ [0xD83D] ++ js "b")) /\
  (b64Decode (b64Encode (js "a" ++ [0xD83D] ++ js "b")) = js "a" ++ [0xD83D] ++ js "b" <->
   is_usv_string (js "a" ++ [0xD83D] ++ js "b") = true).
Proof.
  apply b64Decode_b64Encode_lone_surrogates.
  repeat constructor.
Defined.

(** A high surrogate without its low surrogate comes back as U+FFFD. *)
Lemma lone_surrogate_is_replaced :
  b64Decode (b64Encode (js "a" ++ [0xD83D] ++ js "b")) = js "a" ++ [0xFFFD] ++ js "b".
Proof. vm_compute. reflexivity. Qed.

(** ** The target of the fetch *)

Lemma span_until_spec (stop : N -> bool) (s p r : list N) :
  span_until stop s = (p, r) -> s = p ++ r.
Proof.
  revert p r. induction s as [|c s IH]; intros p r; cbn [span_until].
  - by intros [= <- <-].
  - destruct (stop c); [by intros [= <- <-]|].
    destruct (span_until stop s) as [p' r']. intros [= <- <-].
    cbn [app]. f_equal. by apply IH.
Qed.

Lemma span_until_app (stop : N -> bool) (p r : list N) :
  Forall (fun c => stop c = false) p ->
  (r = [] \/ exists c r', r = c :: r' /\ stop c = true) ->
  span_until stop (p ++ r) = (p, r).
Proof.
  intros Hp Hr. induction Hp as [|c p Hc _ IH]; cbn [app span_until].
  - destruct Hr as [->|(c & r' & -> & Hc)]; [done|]. cbn [span_until]. by rewrite Hc.
  - by rewrite Hc, IH.
Qed.

Lemma split_scheme_spec (s sch rest : list N) :
  split_scheme s = Some (sch, rest) ->
  exists raw, s = raw ++ js ":" ++ rest /\ ascii_lowercase raw = sch.
Proof.
  unfold split_scheme. destruct s as [|c s]; [done|].
  destruct (is_ascii_alpha c); [|done].
  destruct (span_until _ (c :: s)) as [raw r] eqn:E.
  apply span_until_spec in E. rewrite E.
  destruct r as [|d r]; [done|]. change (js ":") with [0x3A]. cbn [startsWith].
  destruct (N.eqb_spec 0x3A d) as [<-|]; [|done]. cbn [andb drop].
  assert (startsWith r [] = true) as -> by by destruct r.
  rewrite drop_0. intros [= <- <-]. by exists raw.
Qed.

Section TargetFacts.
Context `{UnicodeToASCII} `{ForeignStyle}.

(** What [isHttpUrl] accepts starts with the scheme. *)
Lemma isHttpUrl_scheme (s : jsstring) :
  isHttpUrl s = true ->
  exists sch rest,
    preprocess (code_points s) = sch ++ js ":" ++ rest /\
    (ascii_lowercase sch = js "http" \/ ascii_lowercase sch = js "https").
Proof.
  intros (b & Hb & Hs & _)%isHttpUrl_inv. unfold URL_new in Hb.
  apply basic_parse_shape in Hb as [[rest Hsplit] _].
  apply split_scheme_spec in Hsplit as (raw & E & Hraw).
  exists raw, rest. split; [done|]. by rewrite Hraw.
Qed.

(** X10: the handler fetches http and https URLs only: the text that it fetches,
    without the white space and control characters around it and without
    tabs and line breaks, starts with [http:] or [https:], in any letter
    case. *)
Theorem fetched_target_scheme (req : request) (target : jsstring) :
  fetched_url (handler req) = Some target ->
  exists sch rest,
    preprocess (code_points target) = sch ++ js ":" ++ rest /\
    (ascii_lowercase sch = js "http" \/ ascii_lowercase sch = js "https").
Proof.
  destruct (handler req) as [|target' init k] eqn:E; [done|].
  intros [= ->]. apply handler_fetch_inv in E as (b64 & _ & _ & Hok & _).
  by apply isHttpUrl_scheme.
Qed.

Lemma match_u_skip (path s : jsstring) :
  Forall (fun c => c <> 0x3F /\ c <> 0x26) path -> match_u (path ++ s) = match_u s.
Proof.
  induction 1 as [|c path [H1 H2] _ IH]; [done|]. cbn [app match_u].
  apply N.eqb_neq in H1, H2. by rewrite H1, H2.
Qed.

Lemma match_u_found (tok rest : jsstring) :
  tok <> [] -> Forall (fun c => c <> 0x26) tok ->
  (rest = [] \/ exists r, rest = 0x26 :: r) ->
  match_u (js "?u=" ++ tok ++ rest) = Some tok.
Proof.
  intros Hne Htok Hrest. change (js "?u=") with [0x3F; 0x75; 0x3D].
  cbn [app match_u]. change (js "u=") with [0x75; 0x3D].
  cbn [N.eqb Pos.eqb orb andb startsWith drop].
  rewrite (span_until_app _ tok rest).
  - cbn [fst]. by destruct tok.
  - eapply Forall_impl; [exact Htok|]. intros c Hc. apply N.eqb_neq. congruence.
  - destruct Hrest as [->|[r ->]]; [by left|right]. by exists 0x26, r.
Qed.

Lemma b64Encode_nonempty (s : jsstring) : s <> [] -> b64Encode s <> [].
Proof.
  intros Hs E. pose proof (length_b64Encode s) as Hl. rewrite E in Hl.
  destruct s; [done|]. simpl in Hl. lia.
Qed.

Lemma isHttpUrl_nonempty (s : jsstring) : isHttpUrl s = true -> s <> [].
Proof. intros Hs ->. discriminate Hs. Qed.

(** X11: the two ways of giving the target lead to the same fetch: with the
    token of an http or https URL as the query parameter [u], or, when the
    request has no such parameter, in [req.url] after [?u=] and up to the
    next [&], the handler fetches that URL. *)
Theorem encoded_target_is_fetched (req : request) (u0 : jsstring) :
  is_usv_string u0 = true -> isHttpUrl u0 = true ->
  req_query req !! js "u" = Some (b64Encode u0) \/
  (req_query req !! js "u" = None /\
   exists path rest,
     req_url req = path ++ js "?u=" ++ b64Encode u0 ++ rest /\
     Forall (fun c => c <> 0x3F /\ c <> 0x26) path /\
     (rest = [] \/ exists r, rest = 0x26 :: r)) ->
  fetched_url (handler req) = Some u0 /\
  fetched_init (handler req) = Some (fetch_options req).
Proof.
  intros Husv Hok Hreq.
  assert (b64Encode u0 <> []) as Hne
    by by apply b64Encode_nonempty, isHttpUrl_nonempty.
  assert (token req = Some (b64Encode u0)) as Htok.
  { unfold token. destruct Hreq as [->|(-> & path & rest & Hurl & Hpath & Hrest)].
    - by destruct (b64Encode u0).
    - rewrite Hurl. rewrite match_u_skip by done.
      assert (truthy (path ++ js "?u=" ++ b64Encode u0 ++ rest) = true) as ->
        by by destruct path.
      apply match_u_found; [done| |done].
      eapply Forall_impl; [apply b64Encode_chars|].
      intros c Hc%base64url_char_range. lia. }
  unfold handler. rewrite Htok.
  assert (b64Decode (b64Encode u0) = u0) as ->.
  { unfold b64Decode, b64Encode, utf8_decode.
    rewrite base64url_decode_encode by by apply utf8_encode_bytes.
    unfold utf8_encode. rewrite utf8_decode_encode by by apply code_points_scalar.
    by apply from_code_points_code_points. }
  by rewrite Hok.
Qed.

End TargetFacts.

(** ** The headers of the response *)

Lemma copy_loop_lookup (hs : list (jsstring * jsstring)) (res : response)
    (name : jsstring) :
  ascii_lowercase name ∉ HIDE_HEADERS ->
  ascii_lowercase name <> js "referrer-policy" ->
  res_headers
    (foldl (fun res '(k, v) =>
              if bool_decide (ascii_lowercase k ∈ HIDE_HEADERS) then res
              else if list_eqb (ascii_lowercase k) (js "referrer-policy") then res
              else setHeader k v res) res hs) !! ascii_lowercase name =
  match headers_get name (rev hs) with
  | Some v => Some v
  | None => res_headers res !! ascii_lowercase name
  end.
Proof.
  intros Hhide Hpol. induction hs as [|[k v] hs IH] using rev_ind; [done|].
  rewrite foldl_app, rev_unit. cbn [foldl headers_get].
  destruct (list_eqb (ascii_lowercase k) (ascii_lowercase name)) eqn:E.
  - apply list_eqb_true in E. rewrite E.
    rewrite bool_decide_eq_false_2 by done.
    rewrite (proj2 (list_eqb_false _ _)) by done.
    unfold setHeader. cbn [res_headers]. rewrite E. apply lookup_insert_eq.
  - apply list_eqb_false in E. rewrite <- IH.
    case_bool_decide; [done|].
    destruct (list_eqb (ascii_lowercase k) (js "referrer-policy")); [done|].
    unfold setHeader. cbn [res_headers]. by rewrite lookup_insert_ne.
Qed.

Lemma copy_loop_hidden (hs : list (jsstring * jsstring)) (res : response)
    (n : jsstring) :
  n ∈ HIDE_HEADERS -> res_headers res !! n = None ->
  res_headers
    (foldl (fun res '(k, v) =>
              if bool_decide (ascii_lowercase k ∈ HIDE_HEADERS) then res
              else if list_eqb (ascii_lowercase k) (js "referrer-policy") then res
              else setHeader k v res) res hs) !! n = None.
Proof.
  intros Hn. revert res. induction hs as [|[k v] hs IH]; intros res Hres; [done|].
  cbn [foldl]. apply IH. case_bool_decide as Hk; [done|].
  destruct (list_eqb _ (js "referrer-policy")); [done|].
  unfold setHeader. cbn [res_headers]. rewrite lookup_insert_ne; [done|].
  intros E. apply Hk. by rewrite E.
Qed.

Lemma hidden_not_written (n : jsstring) :
  n ∈ HIDE_HEADERS ->
  n <> js "referrer-policy" /\ n <> js "location" /\ n <> js "content-type".
Proof.
  unfold HIDE_HEADERS. rewrite !elem_of_cons, elem_of_nil.
  intros [->|[->|[->|[]]]]; repeat split; discriminate.
Qed.

Section ResponseFacts.
Context `{UnicodeToASCII} `{ForeignStyle}.

(** After the copy of the upstream headers, the handler writes the headers
    Location and Content-Type only. *)
Lemma respond_lookup (target : jsstring) (up : upstream) (n : jsstring) :
  n <> js "location" -> n <> js "content-type" ->
  res_headers (respond target (Fetched up)) !! n =
  res_headers (copy_headers up fresh_response) !! n.
Proof.
  intros Hloc Hct. unfold respond.
  destruct ((300 <=? up_status up) && (up_status up <? 400)).
  - unfold redirect_branch.
    destruct (headers_get (js "location") (up_headers up)) as [[|c loc]|]; [done| |done].
    destruct (URL_new _ _); [|done].
    cbn [end_with setHeader res_headers].
    change (ascii_lowercase (js "Location")) with (js "location").
    by rewrite lookup_insert_ne.
  - destruct (includes _ _).
    + cbn [end_with setHeader res_headers].
      change (ascii_lowercase (js "Content-Type")) with (js "content-type").
      by rewrite lookup_insert_ne.
    + by destruct (up_pipe up).
Qed.

Lemma copy_headers_policy (up : upstream) :
  res_headers (copy_headers up fresh_response) !! js "referrer-policy" =
  Some (js "no-referrer").
Proof.
  unfold copy_headers, setHeader. cbn [res_headers].
  change (ascii_lowercase (js "Referrer-Policy")) with (js "referrer-policy").
  apply lookup_insert_eq.
Qed.

(** X12: the response never carries a Set-Cookie, Server or X-Powered-By header,
    whatever the fetch gave and on every way out of the handler. *)
Theorem hidden_headers_never_sent (target : jsstring) (r : fetch_result)
    (name : jsstring) :
  ascii_lowercase name ∈ HIDE_HEADERS ->
  getHeader name (respond target r) = None.
Proof.
  intros Hn. unfold getHeader. destruct r as [message|up]; [done|].
  destruct (hidden_not_written _ Hn) as (Hpol & Hloc & Hct).
  rewrite respond_lookup by done.
  unfold copy_headers, setHeader. cbn [res_headers].
  change (ascii_lowercase (js "Referrer-Policy")) with (js "referrer-policy").
  rewrite lookup_insert_ne by done. by apply copy_loop_hidden.
Qed.

(** X13: every response to a fetch that gave a response has the referrer policy
    no-referrer, whatever policy the upstream sent, also when the handler
    ends in an error. *)
Theorem referrer_policy_is_no_referrer (target : jsstring) (up : upstream) :
  getHeader (js "Referrer-Policy") (respond target (Fetched up)) =
  Some (js "no-referrer").
Proof.
  unfold getHeader.
  change (ascii_lowercase (js "Referrer-Policy")) with (js "referrer-policy").
  rewrite respond_lookup by discriminate. apply copy_headers_policy.
Qed.

(** X14: every other upstream header is passed on: a header that is not hidden
    and is none of Referrer-Policy, Location and Content-Type has in the
    response the value of the last upstream header of its name, compared
    without regard to case, and is absent when the upstream sent none. *)
Theorem upstream_header_copied (target : jsstring) (up : upstream)
    (name : jsstring) :
  ascii_lowercase name ∉ HIDE_HEADERS ->
  ascii_lowercase name ∉
    [js "referrer-policy"; js "location"; js "content-type"] ->
  getHeader name (respond target (Fetched up)) =
  headers_get name (rev (up_headers up)).
Proof.
  intros Hhide Hother. unfold getHeader.
  rewrite !not_elem_of_cons in Hother. destruct Hother as (Hpol & Hloc & Hct & _).
  rewrite respond_lookup by done.
  unfold copy_headers, setHeader. cbn [res_headers].
  change (ascii_lowercase (js "Referrer-Policy")) with (js "referrer-policy").
  rewrite lookup_insert_ne by done.
  rewrite copy_loop_lookup by done.
  by destruct (headers_get name (rev (up_headers up))).
Qed.

(** X15: a response that is neither a redirect nor HTML passes through: the
    status of the upstream (200 when it is 0), its bytes, piped or sent at
    once, and its content type. *)
Theorem non_html_passes_through (target : jsstring) (up : upstream) :
  ~ (300 <= up_status up < 400) ->
  includes
    match headers_get (js "content-type") (up_headers up) with
    | Some ct => ct
    | None => []
    end (js "text/html") = false ->
  let res := respond target (Fetched up) in
  statusCode res = (if up_status up =? 0 then 200 else up_status up) /\
  res_body res =
    (if up_pipe up then PipedBody (up_bytes up) else BytesBody (up_bytes up)) /\
  getHeader (js "Content-Type") res =
    headers_get (js "content-type") (rev (up_headers up)).
Proof.
  intros Hstatus Hct res.
  assert ((300 <=? up_status up) && (up_status up <? 400) = false) as Hs.
  { apply andb_false_iff.
    destruct (N.leb_spec 300 (up_status up)); [|by left].
    right. apply N.ltb_ge. lia. }
  assert (res = end_with (status_or_200 up)
                  (if up_pipe up then PipedBody (up_bytes up)
                   else BytesBody (up_bytes up))
                  (copy_headers up fresh_response)) as ->.
  { unfold res, respond. rewrite Hs, Hct. by destruct (up_pipe up). }
  split; [done|]. split; [done|].
  unfold getHeader, end_with, copy_headers, setHeader. cbn [res_headers].
  change (ascii_lowercase (js "Referrer-Policy")) with (js "referrer-policy").
  change (ascii_lowercase (js "Content-Type")) with (js "content-type").
  rewrite lookup_insert_ne by discriminate.
  rewrite (copy_loop_lookup _ _ (js "content-type")); [|vm_compute; set_solver|discriminate].
  by destruct (headers_get (js "content-type") (rev (up_headers up))).
Qed.

End ResponseFacts.

(** ** public/api/proxy.js: the headers of content that is not HTML *)

(** X16: the variant under public/ hides nothing: of the upstream headers of
    content that is not HTML it drops Content-Encoding and Content-Length
    and passes every other one on, Set-Cookie and Server included, with the
    value of the last header of the name. *)
Theorem public_headers_copied (hs : list (jsstring * jsstring)) (name : jsstring) :
  getHeader name (public_copy_headers hs fresh_response) =
  if bool_decide (ascii_lowercase name ∈ PUBLIC_SKIP_HEADERS) then None
  else headers_get name (rev hs).
Proof.
  unfold getHeader, public_copy_headers.
  induction hs as [|[k v] hs IH] using rev_ind; [by case_bool_decide|].
  rewrite foldl_app, rev_unit. cbn [foldl headers_get].
  destruct (list_eqb (ascii_lowercase k) (ascii_lowercase name)) eqn:E.
  - apply list_eqb_true in E. rewrite E.
    case_bool_decide; [exact IH|].
    unfold setHeader. cbn [res_headers]. rewrite E. apply lookup_insert_eq.
  - apply list_eqb_false in E. rewrite <- IH.
    destruct (bool_decide (ascii_lowercase k ∈ PUBLIC_SKIP_HEADERS)); [done|].
    unfold setHeader. cbn [res_headers]. by rewrite lookup_insert_ne.
Qed.

(** The same upstream headers through the two handlers. *)
Lemma public_variant_passes_cookies :
  let hs := [(js "set-cookie", js "id=1"); (js "content-length", js "4");
             (js "etag", js "abc")] in
  map (fun name => getHeader name (public_copy_headers hs fresh_response))
    [js "set-cookie"; js "content-length"; js "etag"] =
  [Some (js "id=1"); None; Some (js "abc")] /\
  map (fun name =>
         getHeader name
           (respond (js "http://a.b/") (Fetched (Sample.bare_response 200 hs))))
    [js "set-cookie"; js "content-length"; js "etag"] =
  [None; Some (js "4"); Some (js "abc")].
Proof. split; vm_compute; reflexivity. Qed.

(** ** The handler at sample requests and responses *)

Lemma fetched_target_scheme_witness :
  exists sch rest,
    preprocess (code_points (js "http://a.b/")) = sch ++ js ":" ++ rest /\
    (ascii_lowercase sch = js "http" \/ ascii_lowercase sch = js "https").
Proof.
  apply (fetched_target_scheme (Sample.request_for (js "aHR0cDovL2EuYi8") ∅)).
  vm_compute. reflexivity.
Defined.

(** A request that names the target in its URL only. *)
Lemma encoded_target_is_fetched_witness :
  let req := Request (js "GET") (js "/api/proxy?u=aHR0cDovL2EuYi8&forwardCookies=1") ∅ ∅ in
  fetched_url (handler req) = Some (js "http://a.b/") /\
  fetched_init (handler req) = Some (fetch_options req).
Proof.
  intros req. apply encoded_target_is_fetched; [reflexivity|reflexivity|].
  right. split; [reflexivity|].
  exists (js "/api/proxy"), (js "&forwardCookies=1").
  split; [vm_compute; reflexivity|]. split.
  - apply (bool_decide_unpack _). vm_compute. exact I.
  - right. eexists. reflexivity.
Defined.

Lemma hidden_headers_never_sent_witness :
  getHeader (js "Set-Cookie")
    (respond (js "http://a.b/")
       (Fetched (Sample.bare_response 200
          [(js "Set-Cookie", js "id=1"); (js "Server", js "nginx");
           (js "ETag", js "abc")]))) = None.
Proof.
  apply hidden_headers_never_sent.
  apply (bool_decide_unpack _). vm_compute. exact I.
Defined.

Lemma upstream_header_copied_witness :
  getHeader (js "etag")
    (respond (js "http://a.b/")
       (Fetched (Sample.bare_response 200
          [(js "Set-Cookie", js "id=1"); (js "Server", js "nginx");
           (js "ETag", js "abc")]))) =
  headers_get (js "etag")
    (rev (up_headers (Sample.bare_response 200
       [(js "Set-Cookie", js "id=1"); (js "Server", js "nginx");
        (js "ETag", js "abc")]))) /\
  headers_get (js "etag")
    (rev (up_headers (Sample.bare_response 200
       [(js "Set-Cookie", js "id=1"); (js "Server", js "nginx");
        (js "ETag", js "abc")]))) = Some (js "abc").
Proof.
  split; [|reflexivity].
  apply upstream_header_copied; apply (bool_decide_unpack _); vm_compute; exact I.
Defined.

Lemma non_html_passes_through_witness :
  let up := Upstream 0 [(js "Content-Type", js "image/png")] [] [0x89; 0x50; 0x4E; 0x47] false in
  let res := respond (js "http://a.b/i.png") (Fetched up) in
  statusCode res = (if up_status up =? 0 then 200 else up_status up) /\
  res_body res =
    (if up_pipe up then PipedBody (up_bytes up) else BytesBody (up_bytes up)) /\
  getHeader (js "Content-Type") res =
    headers_get (js "content-type") (rev (up_headers up)).
Proof.
  intros up. apply non_html_passes_through; [|reflexivity].
  cbn [up up_status]. lia.
Defined.

(** ** The rewrite of style texts *)

Lemma startsWith_nil (s : jsstring) : startsWith s [] = true.
Proof. by destruct s. Qed.

Lemma startsWith_app (p s : jsstring) : startsWith (p ++ s) p = true.
Proof.
  induction p as [|c p IH]; [apply startsWith_nil|].
  cbn [app startsWith]. by rewrite N.eqb_refl, IH.
Qed.

(** [startsWith] reads as many code units as the prefix has. *)
Lemma startsWith_app_long (s t p : jsstring) :
  (length p <= length s)%nat -> startsWith (s ++ t) p = startsWith s p.
Proof.
  revert s. induction p as [|a p IH]; intros s Hlen.
  - by rewrite !startsWith_nil.
  - destruct s as [|b s]; [simpl in Hlen; lia|].
    cbn [app startsWith]. rewrite IH; [done|]. simpl in Hlen. lia.
Qed.

Lemma set_attr_same (k v : jsstring) (a : attributes) :
  attr k a = Some v -> set_attr k v a = a.
Proof.
  induction a as [|[k' v'] a IH]; [done|]. cbn [attr set_attr].
  destruct (list_eqb k' k); [by intros [= ->]|].
  intros Ha. by rewrite IH.
Qed.

Lemma lazy_until_found (k : N) (close u post : jsstring) :
  Forall (fun c => c <> k /\ is_line_terminator c = false) u ->
  lazy_until (k :: close) (u ++ (k :: close) ++ post) =
  Some (u, (length u + length (k :: close))%nat).
Proof.
  induction 1 as [|c u [Hc Hl] _ IH].
  - cbn [app Nat.add lazy_until startsWith].
    by rewrite N.eqb_refl, startsWith_app.
  - change ((c :: u) ++ (k :: close) ++ post) with (c :: (u ++ (k :: close) ++ post)).
    cbn [lazy_until startsWith]. rewrite (proj2 (N.eqb_neq k c)) by congruence.
    cbn [andb]. rewrite Hl, IH. reflexivity.
Qed.

Section StyleFacts.
Context `{UnicodeToASCII}.
Variable target : jsstring.

Lemma rewrite_css_from_skip (a b : jsstring) :
  rewrite_css_from target (length a) (a ++ b) = rewrite_css_from target 0 b.
Proof. induction a as [|c a IH]; [done|]. exact IH. Qed.

(** Text in which no [url(] starts is copied. *)
Lemma rewrite_css_from_prefix (pre s : jsstring) :
  (forall i, (i < length pre)%nat ->
     startsWith (drop i (pre ++ s)) (js "url(") = false) ->
  rewrite_css_from target 0 (pre ++ s) = pre ++ rewrite_css_from target 0 s.
Proof.
  induction pre as [|c pre IH]; intros Hpre; [done|].
  pose proof (Hpre 0%nat ltac:(simpl; lia)) as H0. rewrite drop_0 in H0.
  cbn [app] in H0 |- *. cbn [rewrite_css_from]. unfold match_css_url.
  rewrite H0. f_equal. apply IH. intros i Hi. apply (Hpre (S i)). simpl. lia.
Qed.

Lemma includes_drop (s sub : jsstring) (i : nat) :
  includes s sub = false -> startsWith (drop i s) sub = false.
Proof.
  revert i. induction s as [|c s IH]; intros i.
  - rewrite drop_nil. cbn [includes]. by intros [? _]%orb_false_elim.
  - cbn [includes]. intros [H1 H2]%orb_false_elim.
    destruct i as [|i]; [done|]. by apply IH.
Qed.

(** X17: a style text without [url(] is left as it is, and so is an element
    with such a style attribute. *)
Theorem css_without_url_unchanged (css : jsstring) (attribs : attributes) :
  includes css (js "url(") = false ->
  rewrite_css target css = css /\
  (attr (js "style") attribs = Some css ->
   rewrite_style_attribute target attribs = attribs).
Proof.
  intros Hcss.
  assert (rewrite_css target css = css) as Hsame.
  { unfold rewrite_css. rewrite <- (app_nil_r css) at 1.
    rewrite rewrite_css_from_prefix; [apply app_nil_r|].
    intros i _. rewrite app_nil_r. by apply includes_drop. }
  split; [done|]. intros Ha. unfold rewrite_style_attribute, attr_truthy.
  rewrite Ha. destruct css as [|c css]; [done|]. cbn [truthy].
  rewrite Hsame. by apply set_attr_same.
Qed.

(** The match of the expression at a [url(...)] whose text has no closing
    character and no line break. *)
Lemma match_css_url_found (q u post : jsstring) :
  match q with
  | [] =>
    Forall (fun c => c <> 0x29 /\ is_line_terminator c = false) u /\
    (forall c r, u = c :: r -> c <> 0x27 /\ c <> 0x22)
  | [k] =>
    (k = 0x27 \/ k = 0x22) /\
    Forall (fun c => c <> k /\ is_line_terminator c = false) u
  | _ => False
  end ->
  match_css_url (js "url(" ++ q ++ u ++ q ++ js ")" ++ post) =
  Some (q, u, length (js "url(" ++ q ++ u ++ q ++ js ")")).
Proof.
  intros Hq. unfold match_css_url. rewrite startsWith_app.
  change (js "url(") with [0x75; 0x72; 0x6C; 0x28]. cbn [app drop].
  rewrite drop_0. change (js ")") with [0x29].
  destruct q as [|k [|]]; [| |done].
  - destruct Hq as [Hu Hstart]. cbn [app].
    change (u ++ 0x29 :: post) with (u ++ [0x29] ++ post).
    rewrite lazy_until_found by done.
    assert (length (0x75 :: 0x72 :: 0x6C :: 0x28 :: u ++ [0x29]) =
            (4 + (length u + length [0x29]))%nat) as ->
      by (simpl; rewrite !length_app; simpl; lia).
    destruct u as [|c u]; [done|]. cbn [app].
    destruct (Hstart c u eq_refl) as [H1 H2].
    apply N.eqb_neq in H1, H2. by rewrite H1, H2.
  - destruct Hq as [Hk Hu]. cbn [app].
    assert ((k =? 0x27) || (k =? 0x22) = true) as ->.
    { destruct Hk as [-> | ->]; reflexivity. }
    change (u ++ k :: 0x29 :: post) with (u ++ [k; 0x29] ++ post).
    rewrite lazy_until_found by done.
    do 2 f_equal. simpl. rewrite !length_app. simpl. lia.
Qed.

(** X18: one [url(...)] of a style text, bare or in quotes: the text before it
    is copied, the URL goes through [proxify] unless it is a data or
    javascript URL, the quotes stay, and the rewrite goes on after the
    closing parenthesis. *)
Theorem css_url_rewritten (pre q u post : jsstring) :
  includes (pre ++ js "url") (js "url(") = false ->
  match q with
  | [] =>
    Forall (fun c => c <> 0x29 /\ is_line_terminator c = false) u /\
    (forall c r, u = c :: r -> c <> 0x27 /\ c <> 0x22)
  | [k] =>
    (k = 0x27 \/ k = 0x22) /\
    Forall (fun c => c <> k /\ is_line_terminator c = false) u
  | _ => False
  end ->
  rewrite_css target (pre ++ js "url(" ++ q ++ u ++ q ++ js ")" ++ post) =
  pre ++ js "url(" ++ q ++
    (if startsWith u (js "data:") || startsWith u (js "javascript:") then u
     else proxify target u) ++
    q ++ js ")" ++ rewrite_css target post.
Proof.
  intros Hpre Hq. unfold rewrite_css.
  rewrite rewrite_css_from_prefix.
  2:{ intros i Hi.
      change (js "url(" ++ q ++ u ++ q ++ js ")" ++ post)
        with (js "url" ++ js "(" ++ q ++ u ++ q ++ js ")" ++ post).
      rewrite (app_assoc pre), drop_app_le by (rewrite length_app; lia).
      rewrite startsWith_app_long.
      - by apply includes_drop.
      - rewrite length_drop, length_app. simpl. lia. }
  f_equal.
  pose proof (match_css_url_found q u post Hq) as Hm.
  assert (js "url(" ++ q ++ u ++ q ++ js ")" ++ post =
          (js "url(" ++ q ++ u ++ q ++ js ")") ++ post) as E
    by by rewrite <- !app_assoc.
  rewrite E in Hm |- *.
  destruct (js "url(" ++ q ++ u ++ q ++ js ")") as [|c m] eqn:Em; [done|].
  cbn [app rewrite_css_from]. cbn [app] in Hm. rewrite Hm.
  cbn [length Nat.sub]. rewrite Nat.sub_0_r, rewrite_css_from_skip.
  unfold rewrite_css_url.
  replace (c :: m) with (js "url(" ++ q ++ u ++ q ++ js ")") in *.
  destruct (_ || _); by rewrite <- !app_assoc.
Qed.

End StyleFacts.

Lemma css_without_url_unchanged_witness :
  rewrite_css (js "https://example.com/") (js "color: red; curl: none") =
    js "color: red; curl: none" /\
  (attr (js "style") [(js "style", js "color: red; curl: none")] =
     Some (js "color: red; curl: none") ->
   rewrite_style_attribute (js "https://example.com/")
     [(js "style", js "color: red; curl: none")] =
   [(js "style", js "color: red; curl: none")]).
Proof. apply css_without_url_unchanged. reflexivity. Defined.

Lemma css_url_rewritten_witness :
  rewrite_css (js "https://example.com/")
    (js "body{background:" ++ js "url(" ++ js "'" ++ js "/bg.png" ++ js "'" ++
     js ")" ++ js "}") =
  js "body{background:" ++ js "url(" ++ js "'" ++
    (if startsWith (js "/bg.png") (js "data:") ||
        startsWith (js "/bg.png") (js "javascript:")
     then js "/bg.png"
     else proxify (js "https://example.com/") (js "/bg.png")) ++
    js "'" ++ js ")" ++ rewrite_css (js "https://example.com/") (js "}").
Proof.
  apply (css_url_rewritten (js "https://example.com/") (js "body{background:")
           (js "'") (js "/bg.png") (js "}")); [reflexivity|].
  split; [by left|]. apply (bool_decide_unpack _). vm_compute. exact I.
Defined.

(** The style text of the sample page after the rewrite. *)
Lemma css_url_rewritten_sample :
  rewrite_css (js "https://example.com/") (js "body{background:url(/bg.png)}") =
  js "body{background:url(/p/aHR0cHM6Ly9leGFtcGxlLmNvbS9iZy5wbmc)}".
Proof. vm_compute. reflexivity. Qed.

(** ** pages/api/proxy.js: the contents that are not rewritten *)

Lemma split_free (sep s : jsstring) :
  includes s sep = false -> split sep s = [s].
Proof.
  unfold split. induction s as [|c s IH]; [done|].
  cbn [includes]. intros [H1 H2]%orb_false_elim.
  cbn [split_from]. by rewrite H1, IH.
Qed.

Section MetaOtherFacts.
Context `{UnicodeToASCII}.

(** X19: the rewrite of meta refresh looks for the text [;url=] as it is
    written: a content without it, such as a bare delay, [0; url=/next]
    with a space or [0;URL=/next] in upper case, is left as it is, and the
    refresh leads away from the proxy. *)
Theorem meta_refresh_other_forms_unchanged (target content : jsstring)
    (attribs : attributes) :
  attr (js "content") attribs = Some content ->
  includes content (js ";url=") = false ->
  rewrite_meta_content target content = inr None /\
  rewrite_meta target attribs = inr attribs /\
  rewrite_meta_refresh_node target (Element (js "meta") attribs []) =
    inr (Element (js "meta") attribs []).
Proof.
  intros Ha Hc.
  assert (rewrite_meta_content target content = inr None) as Hcontent.
  { unfold rewrite_meta_content. by rewrite split_free. }
  assert (rewrite_meta target attribs = inr attribs) as Hmeta.
  { unfold rewrite_meta, attr_truthy. rewrite Ha.
    destruct (truthy content); [|done]. by rewrite Hcontent. }
  split; [done|]. split; [done|].
  unfold rewrite_meta_refresh_node. cbn [try_each]. rewrite Hmeta.
  by destruct (is_meta_refresh (js "meta") attribs).
Qed.

End MetaOtherFacts.

Lemma meta_refresh_other_forms_unchanged_witness :
  let attribs := [(js "http-equiv", js "refresh"); (js "content", js "0; url=/next")] in
  rewrite_meta_content (js "https://example.com/") (js "0; url=/next") = inr None /\
  rewrite_meta (js "https://example.com/") attribs = inr attribs /\
  rewrite_meta_refresh_node (js "https://example.com/")
    (Element (js "meta") attribs []) =
  inr (Element (js "meta") attribs []).
Proof.
  intros attribs. apply meta_refresh_other_forms_unchanged; reflexivity.
Defined.

(** ** Facts: the entries of a srcset value *)

Lemma space_not_comma (c : N) : is_js_space c = true -> (c =? 0x2C) = false.
Proof. intros Hc. destruct (N.eqb_spec c 0x2C) as [->|]; [discriminate Hc|done]. Qed.

Lemma spaces_comma_free (s : jsstring) :
  is_spaces s = true -> forallb (fun c => negb (c =? 0x2C)) s = true.
Proof.
  unfold is_spaces. induction s as [|c s IH]; [done|]. cbn [forallb].
  intros [Hc Hs]%andb_prop. by rewrite (space_not_comma c Hc), IH.
Qed.

Lemma trimStart_spaces (a b : jsstring) :
  is_spaces a = true -> trimStart (a ++ b) = trimStart b.
Proof.
  unfold is_spaces. induction a as [|c a IH]; [done|]. cbn [forallb app trimStart].
  intros [-> Ha]%andb_prop. by apply IH.
Qed.

Lemma trimEnd_spaces (x t : jsstring) :
  is_spaces t = true -> trimEnd (x ++ t) = trimEnd x.
Proof.
  intros Ht. unfold trimEnd. rewrite rev_app_distr, trimStart_spaces; [done|].
  unfold is_spaces in *. rewrite forallb_forall in Ht |- *.
  intros c Hc. apply Ht. by apply in_rev.
Qed.

(** Text that starts and ends with something else than white space is what
    is left of it between white space. *)
Lemma trim_between (a x t : jsstring) (c d : N) :
  is_spaces a = true -> is_spaces t = true ->
  head x = Some c -> is_js_space c = false ->
  last x = Some d -> is_js_space d = false ->
  trim (a ++ x ++ t) = x.
Proof.
  intros Ha Ht Hc Hcs Hd Hds. unfold trim.
  rewrite trimStart_spaces by done.
  destruct x as [|c' x]; [done|]. injection Hc as ->.
  change ((c :: x) ++ t) with (c :: x ++ t). cbn [trimStart]. rewrite Hcs.
  change (c :: x ++ t) with ((c :: x) ++ t). rewrite trimEnd_spaces by done.
  destruct (trim_ends c x d Hcs Hd Hds) as [E _]. unfold trim in E.
  cbn [trimStart] in E. by rewrite Hcs in E.
Qed.

Lemma plain_head_last (s : jsstring) :
  is_plain s = true -> s <> [] ->
  exists c d, head s = Some c /\ is_js_space c = false /\
              last s = Some d /\ is_js_space d = false.
Proof.
  intros Hs Hne. destruct (is_plain_spec s Hs) as [Hsp _].
  destruct s as [|c s]; [done|].
  destruct (last (c :: s)) as [d|] eqn:Hd; [|by apply last_None in Hd].
  exists c, d. repeat split.
  - apply negb_true_iff.
    exact (forallb_head (fun c => negb (is_js_space c)) (c :: s) c Hsp eq_refl).
  - apply negb_true_iff.
    exact (forallb_last (fun c => negb (is_js_space c)) (c :: s) d Hsp Hd).
Qed.

Lemma item_ok_spec (it : srcset_item) :
  item_ok it = true ->
  item_url it <> [] /\ is_plain (item_url it) = true /\
  is_plain (item_descriptor it) = true /\
  is_spaces (item_lead it) = true /\ is_spaces (item_gap it) = true /\
  is_spaces (item_trail it) = true /\
  (item_descriptor it = [] -> item_gap it = []) /\
  (item_descriptor it <> [] -> item_gap it <> []).
Proof.
  unfold item_ok. intros H. repeat (apply andb_prop in H as [H ?]).
  repeat split; try done.
  - by destruct (item_url it).
  - intros Hd. rewrite Hd in *. by destruct (item_gap it).
  - intros Hd. destruct (item_descriptor it); [done|]. by destruct (item_gap it).
Qed.

(** An entry between its commas, trimmed. *)
Lemma trim_item_text (it : srcset_item) :
  item_ok it = true ->
  trim (item_text it) = item_url it ++ item_gap it ++ item_descriptor it.
Proof.
  intros (Hu & Hpu & Hpd & Hl & Hg & Ht & Hnone & Hsome)%item_ok_spec.
  unfold item_text.
  destruct (plain_head_last _ Hpu Hu) as (c & d & Hc & Hcs & Hd & Hds).
  assert (head (item_url it ++ item_gap it ++ item_descriptor it) = Some c) as Hhead
    by (destruct (item_url it); [done|]; by injection Hc as ->).
  replace (item_lead it ++ item_url it ++ item_gap it ++ item_descriptor it ++
           item_trail it)
    with (item_lead it ++ (item_url it ++ item_gap it ++ item_descriptor it) ++
          item_trail it) by by rewrite <- !app_assoc.
  destruct (decide (item_descriptor it = [])) as [E|E].
  - apply (trim_between _ _ _ c d); try done.
    by rewrite E, (Hnone E), !app_nil_r.
  - destruct (plain_head_last _ Hpd E) as (c' & d' & _ & _ & Hd' & Hds').
    apply (trim_between _ _ _ c d'); try done.
    by rewrite !last_app, Hd'.
Qed.

Lemma split_spaces_run (gap d : jsstring) :
  is_spaces gap = true ->
  split_spaces_from true (gap ++ d) = split_spaces_from true d.
Proof.
  unfold is_spaces. induction gap as [|c gap IH]; [done|]. cbn [forallb app].
  intros [Hc Hg]%andb_prop. cbn [split_spaces_from]. rewrite Hc. by apply IH.
Qed.

(** A URL, white space and a descriptor, split at the white space. *)
Lemma split_spaces_item (u gap d : jsstring) :
  u <> [] -> gap <> [] -> d <> [] ->
  forallb (fun c => negb (is_js_space c)) u = true ->
  is_spaces gap = true ->
  forallb (fun c => negb (is_js_space c)) d = true ->
  split_spaces (u ++ gap ++ d) = [u; d].
Proof.
  intros Hu Hg Hd Hpu Hsg Hpd. unfold split_spaces.
  rewrite (split_spaces_plain_from false u Hpu _ [] [d]).
  - destruct u; [done|]. by rewrite app_nil_r.
  - destruct gap as [|c gap]; [done|]. cbn [app split_spaces_from].
    unfold is_spaces in Hsg. cbn [forallb] in Hsg.
    apply andb_prop in Hsg as [-> Hsg]. f_equal.
    rewrite split_spaces_run by done.
    by destruct (split_spaces_plain d Hpd) as [_ ->].
Qed.

Lemma item_text_comma_free (it : srcset_item) :
  item_ok it = true -> forallb (fun c => negb (c =? 0x2C)) (item_text it) = true.
Proof.
  intros (Hu & Hpu & Hpd & Hl & Hg & Ht & _)%item_ok_spec.
  unfold item_text. rewrite !forallb_app.
  destruct (is_plain_spec _ Hpu) as [_ ->]. destruct (is_plain_spec _ Hpd) as [_ ->].
  by rewrite !spaces_comma_free.
Qed.

(** The parts of a text between its commas. *)
Lemma split_comma_parts (parts : list jsstring) :
  parts <> [] ->
  Forall (fun p => forallb (fun c => negb (c =? 0x2C)) p = true) parts ->
  split (js ",") (join (js ",") parts) = parts.
Proof.
  intros Hne Hall. induction Hall as [|p ps Hp Hps IH]; [done|].
  destruct ps as [|q ps].
  - cbn [join]. by apply split_comma_free.
  - change (join (js ",") (p :: q :: ps)) with (p ++ 0x2C :: join (js ",") (q :: ps)).
    rewrite split_comma_app by done. f_equal. by apply IH.
Qed.

Section SrcsetFacts.
Context `{UnicodeToASCII}.

(** What [proxify] gives for a reference that resolves. *)
Lemma proxify_resolved (target rawUrl : jsstring) (resolved : url) :
  rawUrl <> [] -> has_kept_scheme rawUrl = false ->
  URL_new rawUrl (Some target) = Some resolved ->
  proxify target rawUrl = js "/p/" ++ b64Encode (href resolved).
Proof.
  intros Hne Hkept Hres. unfold proxify. unfold has_kept_scheme in Hkept.
  rewrite Hkept, Hres. by destruct rawUrl.
Qed.

Lemma proxify_unresolved (target rawUrl : jsstring) :
  URL_new rawUrl (Some target) = None -> proxify target rawUrl = rawUrl.
Proof.
  intros Hres. unfold proxify. rewrite Hres.
  destruct (negb (truthy rawUrl)); [done|]. by destruct (_ || _).
Qed.

(** One entry of a srcset value, whatever white space it is written with. *)
Lemma rewrite_srcset_item (target : jsstring) (it : srcset_item) :
  item_ok it = true ->
  rewrite_srcset_entry target (trim (item_text it)) =
  item_with (proxify target (item_url it)) it.
Proof.
  intros Hok. rewrite trim_item_text by done.
  destruct (item_ok_spec it Hok) as (Hu & Hpu & Hpd & Hl & Hg & Ht & Hnone & Hsome).
  destruct (is_plain_spec _ Hpu) as [Hus _]. destruct (is_plain_spec _ Hpd) as [Hds _].
  unfold rewrite_srcset_entry, item_with.
  destruct (item_descriptor it) as [|x d] eqn:E.
  - rewrite (Hnone eq_refl), !app_nil_r.
    by destruct (split_spaces_plain _ Hus) as [-> _].
  - rewrite split_spaces_item; [done|done|by apply Hsome|done|done|done|done].
Qed.

(** A srcset value, entry by entry. *)
Lemma rewrite_srcset_items (target : jsstring) (items : list srcset_item) :
  items <> [] -> forallb item_ok items = true ->
  rewrite_srcset_value target (join (js ",") (map item_text items)) =
  join (js ", ") (map (fun it => item_with (proxify target (item_url it)) it) items).
Proof.
  intros Hne Hok. unfold rewrite_srcset_value.
  assert (Forall (fun it => item_ok it = true) items) as Hall
    by by apply forallb_Forall_true.
  rewrite split_comma_parts.
  - rewrite !map_map. f_equal. apply map_ext_Forall.
    eapply Forall_impl; [exact Hall|]. intros it Hit. by apply rewrite_srcset_item.
  - by destruct items.
  - apply Forall_map. eapply Forall_impl; [exact Hall|].
    intros it Hit. by apply item_text_comma_free.
Qed.

End SrcsetFacts.

(** ** Facts: telephone references *)

Lemma tel_char_range (c : N) : is_tel_char c = true -> 0x2B <= c <= 0x39 /\ c <> 0x2F.
Proof.
  unfold is_tel_char, is_ascii_digit. intros Hc. boolN. lia.
Qed.

Lemma opaque_path_tel (number : list N) :
  Forall (fun c => is_tel_char c = true) number -> opaque_path number = (number, []).
Proof.
  induction 1 as [|c number Hc%tel_char_range _ IH]; [done|].
  cbn [opaque_path]. rewrite IH.
  assert ((c =? 0x3F) || (c =? 0x23) = false) as -> by (boolN; lia).
  assert ((c =? 0x20) = false) as -> by (boolN; lia).
  unfold utf8_percent_encode, c0_control_set.
  assert ((c <=? 0x1F) || (0x7E <? c) = false) as -> by (boolN; lia).
  reflexivity.
Qed.

Lemma tel_text_plain (number : list N) :
  Forall (fun c => is_tel_char c = true) number ->
  code_points (js "tel:" ++ number) = js "tel:" ++ number /\
  preprocess (js "tel:" ++ number) = js "tel:" ++ number.
Proof.
  intros Hn.
  assert (Forall (fun c => 0x2B <= c <= 0x74) (js "tel:" ++ number)) as Hall.
  { apply Forall_app. split.
    - repeat constructor; by apply N.leb_le.
    - eapply Forall_impl; [exact Hn|]. intros c Hc%tel_char_range. lia. }
  split.
  - apply code_points_plain. eapply Forall_impl; [exact Hall|].
    intros c Hc. cbv beta in Hc.
    unfold is_high_surrogate, is_low_surrogate. split; boolN; lia.
  - apply preprocess_plain. eapply Forall_impl; [exact Hall|].
    intros c Hc. cbv beta in Hc.
    unfold is_c0_control_or_space, is_tab_or_newline. split; boolN; lia.
Qed.

Lemma split_scheme_tel (number : list N) :
  split_scheme (js "tel:" ++ number) = Some (js "tel", number).
Proof.
  unfold split_scheme.
  change (js "tel:" ++ number) with (0x74 :: (js "el" ++ 0x3A :: number)) at 1.
  cbv iota.
  change (js "tel:" ++ number) with (js "tel" ++ 0x3A :: number).
  rewrite span_until_app.
  - change (is_ascii_alpha 0x74) with true. cbv iota.
    change (js ":") with [0x3A]. cbn [startsWith].
    rewrite N.eqb_refl, startsWith_nil. cbn [andb drop]. by rewrite drop_0.
  - by repeat constructor.
  - right. by exists 0x3A, number.
Qed.

Section TelFacts.
Context `{UnicodeToASCII}.

(** A telephone reference resolves to itself against any parsed base. *)
Lemma tel_resolves (target : jsstring) (number : list N) :
  isHttpUrl target = true ->
  Forall (fun c => is_tel_char c = true) number ->
  exists resolved,
    URL_new (js "tel:" ++ number) (Some target) = Some resolved /\
    href resolved = js "tel:" ++ number.
Proof.
  intros (b & Hb & _)%isHttpUrl_inv Hn. unfold URL_new in *. rewrite Hb.
  cbn [mbind option_bind].
  destruct (tel_text_plain number Hn) as [-> Hpre].
  unfold basic_parse. rewrite Hpre, split_scheme_tel.
  change (list_eqb (js "tel") (js "file")) with false.
  change (is_special (js "tel")) with false. cbv iota.
  assert (startsWith number (js "/") = false) as ->.
  { destruct Hn as [|c number Hc%tel_char_range _]; [done|].
    change (js "/") with [0x2F]. cbn [startsWith].
    apply andb_false_intro1. boolN. lia. }
  eexists. split; [reflexivity|].
  unfold opaque_path_state. rewrite opaque_path_tel by done.
  unfold href, serialize, after_path, set_path, scheme_only. cbn [scheme host path query fragment serialize_path].
  by rewrite !app_nil_r.
Qed.

End TelFacts.

(** ** The requests that the handler refuses *)

Lemma base64_values_skip (a b : jsstring) (c : N) :
  unbase64 c = None -> low_byte c <> 0x3D ->
  base64_values (a ++ c :: b) = base64_values (a ++ b).
Proof.
  intros Hc He. induction a as [|x a IH]; cbn [app base64_values].
  - rewrite Hc. by rewrite (proj2 (N.eqb_neq _ _) He).
  - by rewrite IH.
Qed.

Lemma base64_values_stop (a b : jsstring) (c : N) :
  low_byte c = 0x3D -> base64_values (a ++ c :: b) = base64_values a.
Proof.
  intros He. induction a as [|x a IH]; cbn [app base64_values].
  - unfold unbase64. rewrite He. reflexivity.
  - by rewrite IH.
Qed.

Section RefusedFacts.
Context `{UnicodeToASCII} `{ForeignStyle}.

Lemma isHttpUrl_scheme_of (s : jsstring) :
  isHttpUrl s = true -> is_http_scheme (scheme_of s) = true.
Proof.
  intros (b & Hb & Hs & _)%isHttpUrl_inv. unfold URL_new in Hb.
  apply basic_parse_shape in Hb as [[rest Hsplit] _].
  unfold scheme_of. rewrite Hsplit. cbn [option_map fst is_http_scheme].
  destruct Hs as [-> | ->]; reflexivity.
Qed.

(** What [isHttpUrl] refuses: a text that the URL parser refuses, and a text
    whose scheme is not http or https. *)
Lemma isHttpUrl_false (s : jsstring) :
  isHttpUrl s = false <->
  is_http_scheme (scheme_of s) = false \/ URL_new s None = None.
Proof.
  split.
  - intros Hs. destruct (URL_new s None) as [u|] eqn:Hu; [left|by right].
    unfold isHttpUrl in Hs. rewrite Hu in Hs. unfold URL_new in Hu.
    apply basic_parse_shape in Hu as [[rest Hsplit] _].
    unfold scheme_of. rewrite Hsplit. cbn [option_map fst is_http_scheme].
    apply orb_false_elim in Hs as [H1 H2]. apply list_eqb_false in H1, H2.
    apply orb_false_intro; apply list_eqb_false; intros E; [apply H1|apply H2];
      unfold protocol; by rewrite E.
  - intros [Hs|Hu].
    + destruct (isHttpUrl s) eqn:E; [|done].
      apply isHttpUrl_scheme_of in E. congruence.
    + unfold isHttpUrl. by rewrite Hu.
Qed.

(** C2, as the code has it: the handler answers 400 with a text body, and
    fetches nothing, exactly when the request has no token, or the text that
    its token decodes to has no http or https scheme at its start (no scheme
    at all, [ftp:], [file:]) or is refused by the URL parser.  No token is
    refused for its form: every token decodes, the decoder passing over the
    code units whose low byte is outside the base64 alphabets and ending at
    the first whose low byte is [=]. *)
Theorem handler_rejects_bad_target (req : request) :
  ((token req = None \/
    exists b64, token req = Some b64 /\
      (is_http_scheme (scheme_of (b64Decode b64)) = false \/
       URL_new (b64Decode b64) None = None)) <->
   exists message,
     handler req = Answer (Response 400 ∅ (TextBody message)) /\
     fetched_url (handler req) = None /\
     message =
       match token req with
       | None => js "Missing `u` parameter (base64url-encoded target URL)."
       | Some _ => js "Invalid target URL."
       end) /\
  (forall (a b : jsstring) (c : N),
     unbase64 c = None -> low_byte c <> 0x3D ->
     b64Decode (a ++ c :: b) = b64Decode (a ++ b)) /\
  (forall (a b : jsstring) (c : N),
     low_byte c = 0x3D -> b64Decode (a ++ c :: b) = b64Decode a).
Proof.
  split; [|split].
  - unfold handler. split.
    + intros [Hnone|(b64 & Htok & Hbad)].
      * rewrite Hnone. eexists. split; [reflexivity|done].
      * rewrite Htok, (proj2 (isHttpUrl_false _) Hbad). cbn [negb].
        eexists. split; [reflexivity|done].
    + intros (message & Hanswer & _). destruct (token req) as [b64|]; [|by left].
      right. exists b64. split; [done|]. apply isHttpUrl_false.
      by destruct (isHttpUrl (b64Decode b64)).
  - intros a b c Hc He. unfold b64Decode, base64url_decode.
    by rewrite base64_values_skip.
  - intros a b c He. unfold b64Decode, base64url_decode.
    by rewrite base64_values_stop.
Qed.

End RefusedFacts.

(** A token that is the encoding of [ftp://x]. *)
Lemma handler_rejects_bad_target_witness :
  b64Decode (js "ZnRwOi8veA") = js "ftp://x" /\
  scheme_of (js "ftp://x") = Some (js "ftp") /\
  exists message,
    handler (Sample.request_for (js "ZnRwOi8veA") ∅) =
      Answer (Response 400 ∅ (TextBody message)) /\
    fetched_url (handler (Sample.request_for (js "ZnRwOi8veA") ∅)) = None /\
    message =
      match token (Sample.request_for (js "ZnRwOi8veA") ∅) with
      | None => js "Missing `u` parameter (base64url-encoded target URL)."
      | Some _ => js "Invalid target URL."
      end.
Proof.
  split; [vm_compute; reflexivity|]. split; [vm_compute; reflexivity|].
  apply (proj1 (handler_rejects_bad_target _)). right. exists (js "ZnRwOi8veA").
  split; [reflexivity|]. left. vm_compute. reflexivity.
Defined.

(** C2 fails for tokens that are not the encoding of a text: the bytes of
    [Sample.malformed_token] are not UTF-8 (its decoded text does not encode
    to them), and the other two tokens have a character outside the
    alphabet, U+0161 and an asterisk; the handler decodes all three and
    fetches the result. *)
Lemma malformed_token_is_fetched :
  utf8_encode (b64Decode Sample.malformed_token) <>
    base64url_decode Sample.malformed_token /\
  fetched_url (handler (Sample.request_for Sample.malformed_token ∅)) =
    Some (js "http://a.b/" ++ [0xFFFD]) /\
  fetched_url (handler (Sample.request_for ([0x161] ++ js "HR0cDovL2EuYi8") ∅)) =
    Some (js "http://a.b/") /\
  fetched_url (handler (Sample.request_for (js "aHR0*cDovL2EuYi8") ∅)) =
    Some (js "http://a.b/").
Proof.
  split; [vm_compute; discriminate|].
  rewrite (handler_fetch_intro _ Sample.malformed_token) by (vm_compute; reflexivity).
  rewrite (handler_fetch_intro _ ([0x161] ++ js "HR0cDovL2EuYi8"))
    by (vm_compute; reflexivity).
  rewrite (handler_fetch_intro _ (js "aHR0*cDovL2EuYi8")) by (vm_compute; reflexivity).
  repeat split; vm_compute; reflexivity.
Qed.

(** ** The redirect branch *)

Section RedirectFacts.
Context `{UnicodeToASCII} `{ForeignStyle}.

(** The Location header that the copy of the upstream headers leaves. *)
Lemma copy_headers_location (up : upstream) :
  res_headers (copy_headers up fresh_response) !! js "location" =
  headers_get (js "location") (rev (up_headers up)).
Proof.
  unfold copy_headers, setHeader. cbn [res_headers].
  change (ascii_lowercase (js "Referrer-Policy")) with (js "referrer-policy").
  rewrite lookup_insert_ne by discriminate.
  rewrite (copy_loop_lookup _ _ (js "location")); [|vm_compute; set_solver|discriminate].
  by destruct (headers_get (js "location") (rev (up_headers up))).
Qed.

(** C4, as the code has it: when the upstream status is from 300 to 399 and
    the upstream has a Location header, the handler resolves its value
    against the target.  When the value resolves, the outbound Location is
    [/p/] followed by the token of the resolved URL, the status is the
    upstream status and the body is empty.  When it does not resolve, the
    handler answers 500 with the text [Proxy error: Invalid URL].  When it
    is empty, the status is the upstream status, the body is empty and no
    Location is written.  In the last two cases the response has the
    Location that the copy of the upstream headers gave it. *)
Theorem redirect_location_rewritten (req : request) target init k
    (up : upstream) (loc : jsstring) :
  handler req = Fetch target init k ->
  300 <= up_status up < 400 ->
  headers_get (js "location") (up_headers up) = Some loc ->
  match loc, URL_new loc (Some target) with
  | _ :: _, Some resolved =>
    statusCode (k (Fetched up)) = up_status up /\
    res_body (k (Fetched up)) = NoBody /\
    getHeader (js "Location") (k (Fetched up)) =
      Some (js "/p/" ++ b64Encode (href resolved))
  | _ :: _, None =>
    statusCode (k (Fetched up)) = 500 /\
    res_body (k (Fetched up)) = TextBody (js "Proxy error: Invalid URL") /\
    getHeader (js "Location") (k (Fetched up)) =
      headers_get (js "location") (rev (up_headers up))
  | [], _ =>
    statusCode (k (Fetched up)) = up_status up /\
    res_body (k (Fetched up)) = NoBody /\
    getHeader (js "Location") (k (Fetched up)) =
      headers_get (js "location") (rev (up_headers up))
  end.
Proof.
  intros (b64 & _ & _ & _ & _ & ->)%handler_fetch_inv [Hlo Hhi] Hloc.
  unfold respond, redirect_branch, getHeader. rewrite Hloc.
  change (ascii_lowercase (js "Location")) with (js "location").
  apply N.leb_le in Hlo as ->. apply N.ltb_lt in Hhi as ->. cbn [andb].
  destruct loc as [|c loc].
  - repeat split. apply copy_headers_location.
  - destruct (URL_new (c :: loc) (Some target)) as [resolved|].
    + repeat split. cbn [end_with setHeader res_headers].
      change (ascii_lowercase (js "Location")) with (js "location").
      apply lookup_insert_eq.
    + repeat split. apply copy_headers_location.
Qed.

End RedirectFacts.

(** The example of the specification: a 302 to [/login] from
    [https://example.com/app]. *)
Lemma redirect_location_rewritten_witness :
  let req := Sample.request_for (js "aHR0cHM6Ly9leGFtcGxlLmNvbS9hcHA") ∅ in
  let up := Sample.bare_response 302 [(js "location", js "/login")] in
  b64Encode (js "https://example.com/login") =
    js "aHR0cHM6Ly9leGFtcGxlLmNvbS9sb2dpbg" /\
  answer_after (handler req) (Fetched up) =
    Some (respond (js "https://example.com/app") (Fetched up)) /\
  statusCode (respond (js "https://example.com/app") (Fetched up)) = 302 /\
  res_body (respond (js "https://example.com/app") (Fetched up)) = NoBody /\
  getHeader (js "Location") (respond (js "https://example.com/app") (Fetched up))
    = Some (js "/p/aHR0cHM6Ly9leGFtcGxlLmNvbS9sb2dpbg").
Proof.
  intros req up.
  assert (b64Decode (js "aHR0cHM6Ly9leGFtcGxlLmNvbS9hcHA") =
          js "https://example.com/app") as Hdec by (vm_compute; reflexivity).
  assert (handler req = Fetch (js "https://example.com/app") (fetch_options req)
            (respond (js "https://example.com/app"))) as E.
  { rewrite <- Hdec. apply handler_fetch_intro; vm_compute; reflexivity. }
  split; [vm_compute; reflexivity|]. split; [by rewrite E|].
  pose proof (redirect_location_rewritten req _ _ _ up (js "/login") E) as Hm.
  destruct Hm as (Hs & Hb & Hl);
    [split; [apply N.leb_le|apply N.ltb_lt]; reflexivity|reflexivity|].
  split; [done|]. split; [done|]. rewrite Hl. vm_compute. reflexivity.
Defined.

(** C4 fails for a Location that does not resolve, for which the handler
    answers 500, and for an empty Location, which stays as it is. *)
Lemma unresolvable_location_is_an_error :
  let req := Sample.request_for (js "aHR0cHM6Ly9leGFtcGxlLmNvbS9hcHA") ∅ in
  option_map (fun res => (statusCode res, res_body res))
    (answer_after (handler req)
       (Fetched (Sample.bare_response 302 [(js "location", js "http://")]))) =
  Some (500, TextBody (js "Proxy error: Invalid URL")) /\
  option_map (fun res => (statusCode res, getHeader (js "Location") res))
    (answer_after (handler req)
       (Fetched (Sample.bare_response 302 [(js "location", [])]))) =
  Some (302, Some []).
Proof.
  intros req.
  rewrite (handler_fetch_intro _ (js "aHR0cHM6Ly9leGFtcGxlLmNvbS9hcHA"))
    by (vm_compute; reflexivity).
  split; vm_compute; reflexivity.
Qed.

(** ** The rewrite of references *)

Section ReferenceFacts.
Context `{UnicodeToASCII}.


Lemma has_kept_scheme_truthy (rawUrl : jsstring) :
  has_kept_scheme rawUrl = true -> rawUrl <> [].
Proof. intros Hkept ->. by vm_compute in Hkept. Qed.

Lemma item_text_truthy (items : list srcset_item) :
  items <> [] -> forallb item_ok items = true ->
  join (js ",") (map item_text items) <> [].
Proof.
  destruct items as [|it items]; [done|]. intros _ [Hok _]%andb_prop.
  destruct (item_ok_spec it Hok) as (Hu & _ & _ & Hl & _).
  assert (item_text it <> []) as Hne.
  { unfold item_text. intros [_ [Hurl _]%app_eq_nil]%app_eq_nil.
    by rewrite Hurl in Hu. }
  destruct items; cbn [map join]; [done|].
  by intros [? _]%app_eq_nil.
Qed.



(** C3, as the code has it.  A reference that starts with [javascript:],
    [data:] or [mailto:] is returned unchanged by [proxify], and stays as it
    is in the href of an anchor or a link, in the src of a resource, in the
    href of a resource without src, in the action of a form and inside
    [url(...)] of a style text.  A srcset value whose entries all have such
    a URL, without white space and commas, keeps the URL of every entry.
    A [tel:] reference is not among them: one made of digits, [+], [-] and
    [.] is replaced, for an http or https target, by [/p/] followed by the
    token of the reference. *)
Theorem kept_schemes_unchanged (target : jsstring) :
  (forall rawUrl, has_kept_scheme rawUrl = true ->
     proxify target rawUrl = rawUrl /\
     (forall attribs, attr (js "href") attribs = Some rawUrl ->
        attr (js "href") (rewrite_anchor target attribs) = Some rawUrl /\
        attr (js "href") (rewrite_link target attribs) = Some rawUrl) /\
     (forall attribs, attr (js "src") attribs = Some rawUrl ->
        attr (js "src") (rewrite_resource target attribs) = Some rawUrl) /\
     (forall attribs, attr_truthy (js "src") attribs = None ->
        attr (js "href") attribs = Some rawUrl ->
        attr (js "href") (rewrite_resource target attribs) = Some rawUrl) /\
     (forall attribs, attr (js "action") attribs = Some rawUrl ->
        attr (js "action") (rewrite_form target attribs) = Some rawUrl) /\
     (forall q, rewrite_css_url target q rawUrl =
                js "url(" ++ q ++ rawUrl ++ q ++ js ")")) /\
  (forall attribs items,
     items <> [] -> forallb item_ok items = true ->
     attr (js "srcset") attribs = Some (join (js ",") (map item_text items)) ->
     Forall (fun it => has_kept_scheme (item_url it) = true) items ->
     attr (js "srcset") (rewrite_srcset target attribs) =
       Some (join (js ", ") (map (fun it => item_with (item_url it) it) items))) /\
  (isHttpUrl target = true ->
   forall number, Forall (fun c => is_tel_char c = true) number ->
     proxify target (js "tel:" ++ number) =
     js "/p/" ++ b64Encode (js "tel:" ++ number)).
Proof.
  split; [|split].
  - intros rawUrl Hkept. pose proof (proxify_kept target rawUrl Hkept) as Hp.
    pose proof (has_kept_scheme_truthy rawUrl Hkept) as Hne.
    split; [done|]. repeat split.
    + unfold rewrite_anchor.
      assert (attr_truthy (js "href") attribs = Some rawUrl) as ->
        by by apply attr_truthy_Some.
      rewrite Hp, attr_set_attr_ne by done. apply attr_set_attr.
    + unfold rewrite_link.
      assert (attr_truthy (js "href") attribs = Some rawUrl) as ->
        by by apply attr_truthy_Some.
      rewrite Hp. apply attr_set_attr.
    + intros attribs Ha. unfold rewrite_resource.
      assert (attr_truthy (js "src") attribs = Some rawUrl) as ->
        by by apply attr_truthy_Some.
      rewrite Hp. apply attr_set_attr.
    + intros attribs Hsrc Ha. unfold rewrite_resource. rewrite Hsrc.
      assert (attr_truthy (js "href") attribs = Some rawUrl) as ->
        by by apply attr_truthy_Some.
      rewrite Hp. apply attr_set_attr.
    + intros attribs Ha. unfold rewrite_form.
      assert (attr_truthy (js "action") attribs = Some rawUrl) as ->
        by by apply attr_truthy_Some.
      rewrite Hp. apply attr_set_attr.
    + intros q. unfold rewrite_css_url. rewrite Hp. by destruct (_ || _).
  - intros attribs items Hne Hok Hattr Hkept. unfold rewrite_srcset.
    assert (attr_truthy (js "srcset") attribs =
            Some (join (js ",") (map item_text items))) as ->.
    { apply attr_truthy_Some. split; [done|]. by apply item_text_truthy. }
    rewrite attr_set_attr, rewrite_srcset_items by done. do 2 f_equal.
    apply map_ext_Forall. eapply Forall_impl; [exact Hkept|].
    intros it Hit. cbv beta in *. by rewrite proxify_kept.
  - intros Htarget number Hnumber.
    destruct (tel_resolves target number Htarget Hnumber) as (resolved & Hres & Hhref).
    rewrite (proxify_resolved target _ resolved); [by rewrite Hhref|done| |done].
    unfold has_kept_scheme.
    change (js "tel:" ++ number) with (0x74 :: 0x65 :: 0x6C :: 0x3A :: number).
    reflexivity.
Qed.

End ReferenceFacts.





(** A script reference of a page at [https://example.com/], and a telephone
    number on it. *)
Lemma kept_schemes_unchanged_witness :
  has_kept_scheme (js "javascript:doThing()") = true /\
  proxify (js "https://example.com/") (js "javascript:doThing()") =
    js "javascript:doThing()" /\
  attr (js "href")
    (rewrite_anchor (js "https://example.com/")
       [(js "href", js "javascript:doThing()")]) = Some (js "javascript:doThing()") /\
  isHttpUrl (js "https://example.com/") = true /\
  proxify (js "https://example.com/") (js "tel:+1-555.0100") =
    js "/p/" ++ b64Encode (js "tel:+1-555.0100").
Proof.
  destruct (kept_schemes_unchanged (js "https://example.com/")) as (Hkept & _ & Htel).
  destruct (Hkept (js "javascript:doThing()") eq_refl) as (Hp & Ha & _).
  split; [reflexivity|]. split; [exact Hp|].
  split; [apply (Ha [(js "href", js "javascript:doThing()")]); reflexivity|].
  assert (isHttpUrl (js "https://example.com/") = true) as Hok
    by (vm_compute; reflexivity).
  split; [exact Hok|].
  apply (Htel Hok (js "+1-555.0100")). repeat constructor.
Defined.

(** C3 fails for [tel:], which is resolved and replaced by a proxy path, in
    [proxify] and so in the href of an anchor; for a scheme that is not
    written in lower case; and for a [data:] URL in a srcset value, which is
    cut at its comma. *)
Lemma tel_reference_is_rewritten :
  proxify (js "https://example.com/") (js "tel:123") = js "/p/dGVsOjEyMw" /\
  b64Decode (js "dGVsOjEyMw") = js "tel:123" /\
  attr (js "href")
    (rewrite_anchor (js "https://example.com/") [(js "href", js "tel:123")])
    = Some (js "/p/dGVsOjEyMw") /\
  proxify (js "https://example.com/") (js "JavaScript:alert(1)") =
    js "/p/amF2YXNjcmlwdDphbGVydCgxKQ" /\
  b64Decode (js "amF2YXNjcmlwdDphbGVydCgxKQ") = js "javascript:alert(1)" /\
  attr (js "srcset")
    (rewrite_srcset (js "https://example.com/")
       [(js "srcset", js "data:image/png;base64,AAAA 1x")]) =
  Some (js "data:image/png;base64, /p/aHR0cHM6Ly9leGFtcGxlLmNvbS9BQUFB 1x").
Proof. repeat split; vm_compute; reflexivity. Qed.

(** ** pages/api/proxy.js: the two loops *)

Lemma try_all_inr {A B : Type} (f : A -> unit + B) (l : list A) (l' : list B) :
  try_all f l = inr l' -> Forall2 (fun x y => f x = inr y) l l'.
Proof.
  revert l'. induction l as [|x l IH]; intros l'; cbn [try_all].
  - intros [= <-]. constructor.
  - destruct (f x) as [e|y] eqn:Ex; [done|].
    fold (try_all f l). destruct (try_all f l) as [e|l''] eqn:El; [done|].
    intros [= <-]. constructor; [done|]. by apply IH.
Qed.

Lemma try_all_succeeds {A B : Type} (f : A -> unit + B) (l : list A) :
  (exists l', try_all f l = inr l') <-> Forall (fun x => exists y, f x = inr y) l.
Proof.
  induction l as [|x l IH]; cbn [try_all].
  - split; [constructor|by eexists].
  - fold (try_all f l). split.
    + intros [l' Hl]. destruct (f x) as [e|y] eqn:Ex; [done|].
      destruct (try_all f l) as [e|l''] eqn:El; [done|].
      constructor; [by eexists|]. apply IH. by eexists.
    + intros [[y Hy] [l' Hl]%IH]%Forall_cons. rewrite Hy, Hl. by eexists.
Qed.

Lemma flat_map_nil_Forall {A B : Type} (f : A -> list B) (l : list A) :
  flat_map f l = [] <-> Forall (fun x => f x = []) l.
Proof.
  induction l as [|x l IH]; cbn [flat_map]; [by split; [constructor|]|].
  split.
  - intros [Hx Hl]%app_eq_nil. constructor; [done|]. by apply IH.
  - intros [Hx Hl]%Forall_cons. rewrite Hx. by apply IH.
Qed.

Lemma elements_where_ext (s s' : jsstring -> attributes -> bool) (n : node) :
  (forall name a, s name a = s' name a) ->
  elements_where s n = elements_where s' n.
Proof.
  intros Hs. induction n as [name a children IH|ns name a children IH| | |]
    using node_forall_ind; cbn [elements_where]; [| |done..].
  all: rewrite Hs; f_equal.
  all: induction IH as [|c children Hc _ IHc]; cbn [flat_map]; [done|].
  all: by rewrite Hc, IHc.
Qed.

Lemma bind_succeeds {A B : Type} (r : unit + A) (g : A -> B) :
  (exists y, match r with inl e => inl e | inr x => inr (g x) end = inr y) <->
  exists x, r = inr x.
Proof. destruct r as [e|x]; split; intros [? ?]; simplify_eq; by eexists. Qed.

(** A loop ends without an error exactly when its callback throws on no
    element that the selector matches. *)
Lemma try_each_succeeds (sel : jsstring -> attributes -> bool)
    (cb : jsstring -> attributes -> unit + attributes) (n : node) :
  (exists n', try_each sel cb n = inr n') <->
  elements_where
    (fun name a =>
       sel name a && match cb name a with inl _ => true | inr _ => false end) n = [].
Proof.
  induction n as [name a children IH|ns name a children IH|d|d|d]
    using node_forall_ind; cbn [try_each elements_where];
    [| |by split; [|eexists]..].
  all: assert ((exists l', try_all (try_each sel cb) children = inr l') <->
               flat_map (elements_where
                 (fun name a =>
                    sel name a &&
                    match cb name a with inl _ => true | inr _ => false end))
                 children = []) as Hch.
  1,3: rewrite try_all_succeeds, flat_map_nil_Forall; split; intros Hall.
  1-4: induction IH as [|c children Hc _ IHc]; [constructor|];
       apply Forall_cons in Hall as [Hx Hl];
       (constructor; [by apply Hc|by apply IHc]).
  all: destruct (sel name a); cbn [andb];
       [destruct (cb name a) as [e|a'];
        [split; [by intros [? ?]|done]|]|].
  all: cbn [app]; etransitivity; [apply bind_succeeds|exact Hch].
Qed.

Lemma Forall2_flat_map {A B C D : Type} (R : C -> D -> Prop)
    (f : A -> list C) (g : B -> list D) (l : list A) (l' : list B) :
  Forall2 (fun x y => Forall2 R (f x) (g y)) l l' ->
  Forall2 R (flat_map f l) (flat_map g l').
Proof.
  induction 1 as [|x y l l' Hxy _ IH]; cbn [flat_map]; [constructor|].
  by apply Forall2_app.
Qed.

Lemma try_all_children {P : node -> node -> Prop}
    (f : node -> unit + node) (children children' : list node) :
  Forall (fun c => forall c', f c = inr c' -> P c c') children ->
  try_all f children = inr children' ->
  Forall2 P children children'.
Proof.
  intros IH Hall%try_all_inr. induction Hall as [|c c' l l' Hc _ IHl]; [constructor|].
  apply Forall_cons in IH as [Hx Hl]. constructor; [by apply Hx|by apply IHl].
Qed.

(** A loop leaves alone the elements that its selector does not match. *)
Lemma try_each_other (sel s : jsstring -> attributes -> bool)
    (cb : jsstring -> attributes -> unit + attributes) (n n' : node) :
  (forall name a, sel name a = true -> forall b, s name b = false) ->
  try_each sel cb n = inr n' -> elements_where s n' = elements_where s n.
Proof.
  intros Hs. revert n'.
  induction n as [name a children IH|ns name a children IH|d|d|d]
    using node_forall_ind; intros n'; cbn [try_each];
    [| |by intros [= <-]..].
  all: destruct (sel name a) eqn:Esel;
       [destruct (cb name a) as [e|a'] eqn:Ecb; [done|]|].
  all: destruct (try_all (try_each sel cb) children) as [e|children'] eqn:Ech;
       [done|]; intros [= <-]; cbn [elements_where].
  all: try rewrite !(Hs name a Esel).
  all: f_equal.
  all: pose proof (try_all_children (P := fun c c' =>
         elements_where s c' = elements_where s c) _ _ _ IH Ech) as Hall.
  all: clear -Hall; induction Hall as [|c c' l l' Hc _ IHl]; cbn [flat_map]; [done|].
  all: by rewrite Hc, IHl.
Qed.

(** A loop whose callback keeps the matched elements matched acts on them
    one by one, in document order. *)
Lemma try_each_selected (sel : jsstring -> attributes -> bool)
    (f : attributes -> unit + attributes) (n n' : node) :
  (forall name a b, sel name a = true -> f a = inr b -> sel name b = true) ->
  try_each sel (fun _ a => f a) n = inr n' ->
  Forall2 (fun a b => f a = inr b) (elements_where sel n) (elements_where sel n').
Proof.
  intros Hs. revert n'.
  induction n as [name a children IH|ns name a children IH|d|d|d]
    using node_forall_ind; intros n'; cbn [try_each];
    [| |intros [= <-]; constructor..].
  all: destruct (sel name a) eqn:Esel;
       [destruct (f a) as [e|a'] eqn:Ecb; [done|]|].
  all: destruct (try_all (try_each sel _) children) as [e|children'] eqn:Ech;
       [done|]; intros [= <-]; cbn [elements_where].
  all: try rewrite (Hs name a a' Esel Ecb).
  all: rewrite Esel.
  all: apply Forall2_app; [by repeat constructor|].
  all: apply Forall2_flat_map.
  all: exact (try_all_children _ _ _ IH Ech).
Qed.

(** ** The text [;url=] *)

(** Text that does not start with [;url=] does not start with it either
    when [;url=] follows. *)
Lemma startsWith_before_url (m x : jsstring) :
  m <> [] -> startsWith m (js ";url=") = false ->
  startsWith (m ++ js ";url=" ++ x) (js ";url=") = false.
Proof.
  intros Hne Hm. destruct (decide (5 <= length m)%nat) as [Hlen|Hlen].
  - by rewrite startsWith_app_long.
  - change (js ";url=") with [0x3B; 0x75; 0x72; 0x6C; 0x3D] in *.
    destruct m as [|c1 [|c2 [|c3 [|c4 [|c5 m]]]]];
      [done| | | | |simpl in Hlen; lia].
    all: cbn [app startsWith].
    all: repeat match goal with
         | |- context [?a =? ?b] =>
           first [is_var b; destruct (N.eqb_spec a b) as [<-|?]; cbn [andb]; [|done]
                 |change (a =? b) with false]
         end.
    all: by rewrite ?andb_false_r.
Qed.

Lemma split_url_first (n x : jsstring) :
  includes n (js ";url=") = false ->
  split (js ";url=") (n ++ js ";url=" ++ x) = n :: split (js ";url=") x.
Proof.
  unfold split. induction n as [|c n IH]; intros Hn.
  - change (js ";url=") with [0x3B; 0x75; 0x72; 0x6C; 0x3D].
    change ([] ++ [0x3B; 0x75; 0x72; 0x6C; 0x3D] ++ x)
      with (0x3B :: 0x75 :: 0x72 :: 0x6C :: 0x3D :: x).
    cbn [split_from startsWith length Nat.sub].
    rewrite !N.eqb_refl. cbn [andb]. by rewrite startsWith_nil.
  - cbn [includes] in Hn. apply orb_false_elim in Hn as [Hc Hn].
    pose proof (startsWith_before_url (c :: n) x ltac:(done) Hc) as Hs.
    change ((c :: n) ++ js ";url=" ++ x) with (c :: (n ++ js ";url=" ++ x)) in *.
    cbn [split_from]. by rewrite Hs, IH.
Qed.

(** ** The callbacks of the two loops *)

Section PagesFacts.
Context `{UnicodeToASCII} `{TagNames}.

Lemma rewrite_reference_throws (target name : jsstring) (a : attributes) :
  is_reference_element name a &&
    match rewrite_reference target name a with inl _ => true | inr _ => false end =
  unresolved_reference target name a.
Proof.
  unfold unresolved_reference, rewrite_reference. f_equal.
  destruct (attr_truthy (reference_attribute name) a) as [value|]; [|done].
  destruct (startsWith value (js "http")); [done|].
  destruct (URL_new value (Some target)) as [resolved|]; cbn [negb andb].
  - by rewrite bool_decide_eq_true_2.
  - rewrite bool_decide_eq_false_2; [done|]. by intros [? ?].
Qed.

Lemma rewrite_meta_throws (target name : jsstring) (a : attributes) :
  is_meta_refresh name a &&
    match rewrite_meta target a with inl _ => true | inr _ => false end =
  unresolved_refresh target name a.
Proof.
  unfold unresolved_refresh, rewrite_meta, rewrite_meta_content. f_equal.
  destruct (attr_truthy (js "content") a) as [content|]; [|done].
  destruct (split (js ";url=") content) as [|p0 [|[|c p1] ps]]; [done..|].
  destruct (URL_new (c :: p1) (Some target)) as [resolved|]; [|done].
  destruct (encodeURIComponent (href resolved)) as [encoded|].
  - by rewrite bool_decide_eq_true_2.
  - rewrite bool_decide_eq_false_2; [done|]. by intros [? ?].
Qed.

Lemma rewrite_meta_keeps_refresh (target name : jsstring) (a b : attributes) :
  is_meta_refresh name a = true -> rewrite_meta target a = inr b ->
  is_meta_refresh name b = true.
Proof.
  unfold is_meta_refresh, rewrite_meta. intros Ha.
  destruct (attr_truthy (js "content") a) as [content|]; [|by intros [= <-]].
  destruct (rewrite_meta_content target content) as [e|[content'|]];
    [done| |by intros [= <-]].
  intros [= <-]. by rewrite attr_set_attr_ne.
Qed.

(** A content [N;url=X] with one [;url=] and a URL that is not empty. *)
Lemma rewrite_meta_form (target : jsstring) (a b : attributes) (n x : jsstring) :
  rewrite_meta target a = inr b ->
  attr (js "content") a = Some (n ++ js ";url=" ++ x) ->
  includes n (js ";url=") = false -> x <> [] ->
  includes x (js ";url=") = false ->
  exists resolved encoded,
    URL_new x (Some target) = Some resolved /\
    encodeURIComponent (href resolved) = Some encoded /\
    b = set_attr (js "content") (n ++ js ";url=/api/proxy?url=" ++ encoded) a.
Proof.
  intros Hb Ha Hn Hx Hxs. unfold rewrite_meta in Hb.
  assert (attr_truthy (js "content") a = Some (n ++ js ";url=" ++ x)) as E.
  { apply attr_truthy_Some. split; [done|]. by destruct n. }
  rewrite E in Hb. unfold rewrite_meta_content in Hb.
  rewrite split_url_first, (split_free _ x) in Hb by done.
  destruct x as [|c x]; [done|].
  destruct (URL_new (c :: x) (Some target)) as [resolved|] eqn:Hres; [|done].
  destruct (encodeURIComponent (href resolved)) as [encoded|] eqn:Henc; [|done].
  injection Hb as <-. by exists resolved, encoded.
Qed.

Lemma rewrite_pages_succeeds (target : jsstring) (doc : document) :
  (exists doc', rewrite_pages target doc = inr doc') <->
  flat_map (elements_where (unresolved_reference target)) doc = [] /\
  flat_map (elements_where (unresolved_refresh target)) doc = [].
Proof.
  assert (forall doc,
    (exists doc', try_all (rewrite_references_node target) doc = inr doc') <->
    flat_map (elements_where (unresolved_reference target)) doc = []) as Hfirst.
  { intros d. rewrite try_all_succeeds, flat_map_nil_Forall.
    apply Forall_iff. intros n. unfold rewrite_references_node.
    rewrite try_each_succeeds.
    by rewrite (elements_where_ext _ (unresolved_reference target))
      by apply rewrite_reference_throws. }
  assert (forall doc,
    (exists doc', try_all (rewrite_meta_refresh_node target) doc = inr doc') <->
    flat_map (elements_where (unresolved_refresh target)) doc = []) as Hsecond.
  { intros d. rewrite try_all_succeeds, flat_map_nil_Forall.
    apply Forall_iff. intros n. unfold rewrite_meta_refresh_node.
    rewrite try_each_succeeds.
    by rewrite (elements_where_ext _ (unresolved_refresh target))
      by (intros; apply rewrite_meta_throws). }
  assert (forall doc', try_all (rewrite_references_node target) doc = inr doc' ->
    flat_map (elements_where (unresolved_refresh target)) doc' =
    flat_map (elements_where (unresolved_refresh target)) doc) as Hkeep.
  { intros doc' Hall%try_all_inr.
    induction Hall as [|n n' l l' Hn _ IH]; cbn [flat_map]; [done|].
    rewrite IH. f_equal. eapply try_each_other; [|exact Hn].
    intros name a Hsel b. unfold unresolved_refresh, is_meta_refresh.
    unfold is_reference_element in Hsel. apply bool_decide_eq_true in Hsel.
    destruct (list_eqb name (js "meta")) eqn:E; [|done].
    apply list_eqb_true in E. subst name. exfalso. revert Hsel.
    rewrite !elem_of_cons, elem_of_nil. by intros [?|[?|[?|[?|?]]]]. }
  unfold rewrite_pages. rewrite <- Hfirst. split.
  - intros [doc' Hdoc].
    destruct (try_all (rewrite_references_node target) doc) as [e|d] eqn:E; [done|].
    split; [by eexists|]. rewrite <- (Hkeep d eq_refl). apply Hsecond. by eexists.
  - intros [[d Hd] Hmeta]. rewrite Hd. apply Hsecond. by rewrite (Hkeep d Hd).
Qed.

(** What the second loop does to the meta refresh elements of a document
    that the first loop has passed. *)
Lemma rewrite_pages_refresh (target : jsstring) (doc doc' : document) :
  rewrite_pages target doc = inr doc' ->
  Forall2 (fun a b => rewrite_meta target a = inr b)
    (flat_map (elements_where is_meta_refresh) doc)
    (flat_map (elements_where is_meta_refresh) doc').
Proof.
  unfold rewrite_pages.
  destruct (try_all (rewrite_references_node target) doc) as [e|d] eqn:E; [done|].
  intros Hall%try_all_inr.
  assert (flat_map (elements_where is_meta_refresh) d =
          flat_map (elements_where is_meta_refresh) doc) as <-.
  { apply try_all_inr in E. clear Hall.
    induction E as [|n n' l l' Hn _ IH]; cbn [flat_map]; [done|].
    rewrite IH. f_equal. eapply try_each_other; [|exact Hn].
    intros name a Hsel b. unfold is_meta_refresh.
    unfold is_reference_element in Hsel. apply bool_decide_eq_true in Hsel.
    destruct (list_eqb name (js "meta")) eqn:En; [|done].
    apply list_eqb_true in En. subst name. exfalso. revert Hsel.
    rewrite !elem_of_cons, elem_of_nil. by intros [?|[?|[?|[?|?]]]]. }
  apply Forall2_flat_map. eapply Forall2_impl; [exact Hall|].
  intros n n' Hn. cbv beta in Hn. unfold rewrite_meta_refresh_node in Hn.
  apply (try_each_selected _ (rewrite_meta target)); [|done].
  intros name a b. apply rewrite_meta_keeps_refresh.
Qed.

(** C6, as the code of pages/api/proxy.js has it.  The handler answers 200
    with the rewritten document when every reference that the first loop
    reads and every URL of a meta refresh resolves, and 500 with the text
    [Error fetching URL] when one of them does not.  In the rewritten
    document every meta refresh whose content is [N;url=X], with no [;url=]
    in [N], with [X] not empty and with no [;url=] in [X], has the content
    [N;url=/api/proxy?url=] followed by the percent-encoded URL that [X]
    resolves to against the target: the delay [N] stays as it is, and so do
    the other attributes of the element. *)
Theorem meta_refresh_rewritten (target : jsstring) (doc : document) :
  match rewrite_pages target doc with
  | inr doc' =>
    statusCode (pages_html_response target doc) = 200 /\
    res_body (pages_html_response target doc) = HtmlBody doc' /\
    flat_map (elements_where (unresolved_reference target)) doc = [] /\
    flat_map (elements_where (unresolved_refresh target)) doc = [] /\
    Forall2
      (fun a b =>
         forall n x,
           attr (js "content") a = Some (n ++ js ";url=" ++ x) ->
           includes n (js ";url=") = false -> x <> [] ->
           includes x (js ";url=") = false ->
           exists resolved encoded,
             URL_new x (Some target) = Some resolved /\
             encodeURIComponent (href resolved) = Some encoded /\
             b = set_attr (js "content")
                   (n ++ js ";url=/api/proxy?url=" ++ encoded) a)
      (flat_map (elements_where is_meta_refresh) doc)
      (flat_map (elements_where is_meta_refresh) doc')
  | inl _ =>
    statusCode (pages_html_response target doc) = 500 /\
    res_body (pages_html_response target doc) = TextBody (js "Error fetching URL") /\
    (flat_map (elements_where (unresolved_reference target)) doc <> [] \/
     flat_map (elements_where (unresolved_refresh target)) doc <> [])
  end.
Proof.
  pose proof (rewrite_pages_succeeds target doc) as Hok.
  pose proof (rewrite_pages_refresh target doc) as Hrefresh.
  unfold pages_html_response.
  destruct (rewrite_pages target doc) as [e|doc'].
  - split; [done|]. split; [done|].
    destruct (flat_map (elements_where (unresolved_reference target)) doc);
      [|by left].
    destruct (flat_map (elements_where (unresolved_refresh target)) doc);
      [|by right].
    by destruct (proj2 Hok (conj eq_refl eq_refl)).
  - split; [done|]. split; [done|].
    destruct (proj1 Hok (ex_intro _ doc' eq_refl)) as [Hrefs Hmetas].
    split; [done|]. split; [done|].
    eapply Forall2_impl; [exact (Hrefresh doc' eq_refl)|].
    intros a b Hab n x. by apply rewrite_meta_form.
Qed.

End PagesFacts.

(** The sample page, fetched from [https://example.com/app]. *)
Lemma meta_refresh_rewritten_witness :
  let target := js "https://example.com/app" in
  statusCode (pages_html_response target Sample.site) = 200 /\
  exists doc',
    res_body (pages_html_response target Sample.site) = HtmlBody doc' /\
    flat_map (elements_where is_meta_refresh) doc' =
      [[(js "http-equiv", js "refresh");
        (js "content", js "5;url=/api/proxy?url=https%3A%2F%2Fexample.com%2Fnext")]].
Proof.
  intros target.
  pose proof (meta_refresh_rewritten target Sample.site) as Hm.
  destruct (rewrite_pages target Sample.site) as [e|doc'] eqn:E;
    [by vm_compute in E|].
  destruct Hm as (Hs & Hb & _ & _ & Hall).
  split; [exact Hs|]. exists doc'. split; [exact Hb|].
  change (flat_map (elements_where is_meta_refresh) Sample.site)
    with [[(js "http-equiv", js "refresh"); (js "content", js "5;url=/next")]]
    in Hall.
  inversion Hall as [|a b l l' Hab Hrest [Ha Hl] Hb']; subst.
  inversion Hrest; subst.
  destruct (Hab (js "5") (js "/next") eq_refl eq_refl ltac:(done) eq_refl)
    as (resolved & encoded & Hres & Henc & ->).
  vm_compute in Hres. injection Hres as <-.
  vm_compute in Henc. injection Henc as <-. reflexivity.
Defined.

(** C6 fails for a URL with [;url=] in it, which is cut there; for an empty
    URL, which is not rewritten; for a document in which a reference of the
    first loop or the URL of the refresh does not resolve, to which the
    handler answers 500; and in api/proxy.js, which has no pass for meta
    refresh. *)
Lemma meta_refresh_url_is_cut :
  let target := js "https://example.com/app" in
  let refresh content :=
    Element (js "meta") [(js "http-equiv", js "refresh"); (js "content", content)] [] in
  rewrite_pages target [refresh (js "0;url=/a;url=/b")] =
    inr [refresh (js "0;url=/api/proxy?url=https%3A%2F%2Fexample.com%2Fa")] /\
  rewrite_pages target [refresh (js "0;url=")] = inr [refresh (js "0;url=")] /\
  (let response :=
     pages_html_response target
       [refresh (js "0;url=/next"); Element (js "img") [(js "src", js "//")] []] in
   statusCode response = 500 /\
   res_body response = TextBody (js "Error fetching URL")) /\
  (let response := pages_html_response target [refresh (js "0;url=http://[")] in
   statusCode response = 500 /\
   res_body response = TextBody (js "Error fetching URL")) /\
  rewrite_document target [refresh (js "0;url=/next")] = [refresh (js "0;url=/next")].
Proof. intros target refresh. repeat split; vm_compute; reflexivity. Qed.
